(** * Zest / Tofu engine core: a shallow embedding and its properties

    The development follows the C sources:
    - [src/gl/context.c]   -> the virtual graphics context and its blits,
    - [src/gl/primitive.c] -> point / horizontal run / vertical run,
    - [src/gl/program.c]   -> shader programs,
    - [src/core/io/display.c] -> window geometry, presentation, shader swap,
    - [src/core/engine.c]  -> FPS estimator and the fixed-step loop.

    Conventions.  A C [int] is a [Z]; a [size_t] is a [nat], except where the
    source subtracts two of them, and there the 64-bit wrap-around is written
    out.  A pointer into an array is the [Z] offset of the element it points
    to; reading or writing outside the array is undefined behaviour in C and
    [None] here.  The time quantities of [engine.c] ([float] and [double] in
    the source) are read twice: as exact rationals, for which calls the loop
    makes, in which order and behind which guards; and as IEEE 754 binary32
    and binary64 numbers (module [Binary32]), for everything that depends on
    what the arithmetic computes. *)

From Stdlib Require Import ZArith QArith Qround Lia Lqa.
From Stdlib Require Import Floats.SpecFloat.
From stdpp Require Import base decidable option list strings.

Open Scope Z_scope.

(** ** Flat memory, addressed by element offsets *)

Section Memory.
Context {A : Type}.

(** [*(m + off)] as an r-value. *)
Definition load (m : list A) (off : Z) : option A :=
  if decide (0 ≤ off) then m !! Z.to_nat off else None.

(** [*(m + off) = v]. *)
Definition store (m : list A) (off : Z) (v : A) : option (list A) :=
  if decide (0 ≤ off < Z.of_nat (length m))
  then Some (<[Z.to_nat off := v]> m)
  else None.
End Memory.

(** [size_t] is 64 bits wide; [a - b] and [a * b] on two [size_t] wrap. *)
Definition SIZE_MODULUS : Z := 2 ^ 64.

Definition size_sub (a b : nat) : Z :=
  (Z.of_nat a - Z.of_nat b) `mod` SIZE_MODULUS.

Definition size_mul (a b : Z) : Z := (a * b) `mod` SIZE_MODULUS.

(** [sizeof(GL_Color_t)], four packed [uint8_t], and the size of a
    pointer. *)
Definition SIZEOF_GL_COLOR : Z := 4.
Definition SIZEOF_POINTER : Z := 8.

(** ** libs/gl/common.h *)

Abbreviation GL_Pixel_t := Z (only parsing). (* uint8_t *)
Abbreviation GL_Bool_t := Z (only parsing).  (* int8_t *)
Abbreviation float := Q (only parsing).

Record GL_Point_t := GL_Point { point_x : Z; point_y : Z }.

Record GL_Rectangle_t := GL_Rectangle {
  rect_x : Z; rect_y : Z;
  rect_width : nat; rect_height : nat
}.

Record GL_Quad_t := GL_Quad { x0 : Z; y0 : Z; x1 : Z; y1 : Z }.

Record GL_Color_t := GL_Color {
  color_r : Z; color_g : Z; color_b : Z; color_a : Z
}.

#[global] Instance GL_Color_eq_dec : EqDecision GL_Color_t.
Proof. solve_decision. Defined.

Definition GL_BOOL_FALSE : GL_Bool_t := 0.
Definition GL_BOOL_TRUE : GL_Bool_t := 1.

(** ** The context and the surface, as [context.c] uses them *)

Record GL_Palette_t := GL_Palette { colors : list GL_Color_t }.

Record GL_Surface_t := GL_Surface {
  surface_width : nat;
  surface_height : nat;
  data : list GL_Pixel_t;
  data_rows : list Z
}.

Record GL_Context_t := GL_Context {
  width : nat;
  height : nat;
  vram : list GL_Color_t;
  vram_rows : list Z;
  vram_size : nat;
  background : GL_Pixel_t;
  shifting : list GL_Pixel_t;
  transparent : list GL_Bool_t;
  palette : GL_Palette_t
}.

Definition set_vram (gl : GL_Context_t) (v : list GL_Color_t) : GL_Context_t :=
  GL_Context (width gl) (height gl) v (vram_rows gl) (vram_size gl)
             (background gl) (shifting gl) (transparent gl) (palette gl).

(** The row look-up table: [rows[i] = base + width * i]. *)
Definition row_offsets (w h : nat) : list Z :=
  (λ i : nat, Z.of_nat (w * i)) <$> seq 0 h.

Section GL_context.
(** [palette.h] is not part of the sources at hand: the palette capacity,
    the greyscale generator and the contents of freshly allocated memory
    are parameters. *)
Variable GL_MAX_PALETTE_COLORS : nat.
Variable GL_palette_greyscale : nat → GL_Palette_t.
Variable uninitialised : GL_Color_t.

(** [GL_context_initialize]: [vram_ok] and [rows_ok] say whether the two
    [malloc] calls succeed.  [Some None] stands for the [false] it returns
    when one does not, and [None] for undefined behaviour.  The sizes are
    computed in [size_t] and wrap: the framebuffer has as many cells as the
    bytes asked for hold, the row table as many entries; the loop that
    fills the table writes [height] of them, past its end when the table
    is shorter. *)
Definition GL_context_initialize (vram_ok rows_ok : bool) (w h : nat)
  : option (option GL_Context_t) :=
  let vram_bytes := size_mul (size_mul (Z.of_nat w) (Z.of_nat h)) SIZEOF_GL_COLOR in
  if negb vram_ok then Some None
  else
    let rows_bytes := size_mul (Z.of_nat h) SIZEOF_POINTER in
    if negb rows_ok then Some None
    else if decide (rows_bytes `div` SIZEOF_POINTER < Z.of_nat h) then None
    else
      let table := Z.of_nat <$> seq 0 GL_MAX_PALETTE_COLORS in
      Some (Some
        {| width := w; height := h;
           vram := replicate (Z.to_nat (vram_bytes `div` SIZEOF_GL_COLOR)) uninitialised;
           vram_rows := (λ i : nat, size_mul (Z.of_nat w) (Z.of_nat i)) <$> seq 0 h;
           vram_size := Z.to_nat (size_mul (Z.of_nat w) (Z.of_nat h));
           background := 0;
           shifting := table;
           transparent := <[0%nat := GL_BOOL_TRUE]> (const GL_BOOL_FALSE <$> table);
           palette := GL_palette_greyscale GL_MAX_PALETTE_COLORS |}).
End GL_context.

(** [GL_context_clear]: the loop stores [color] through [dst++],
    [vram_size] times. *)
Fixpoint clear_loop (i : nat) (dst : Z) (color : GL_Color_t)
  (m : list GL_Color_t) : option (list GL_Color_t) :=
  match i with
  | O => Some m
  | S i' => m' ← store m dst color; clear_loop i' (dst + 1) color m'
  end.

Definition GL_context_clear (gl : GL_Context_t) : option GL_Context_t :=
  color ← load (colors (palette gl)) (background gl);
  m ← clear_loop (vram_size gl) 0 color (vram gl);
  Some (set_vram gl m).

(** [GL_context_blit]: the inner [for (j ...)] loop over one tile row.
    [n] is the number of columns still to do. *)
Fixpoint blit_columns (context : GL_Context_t) (surface : GL_Surface_t)
  (n : nat) (src dst : Z) (m : list GL_Color_t)
  : option (Z * Z * list GL_Color_t) :=
  match n with
  | O => Some (src, dst, m)
  | S n' =>
      pixel ← load (data surface) src;
      index ← load (shifting context) pixel;
      flag ← load (transparent context) index;
      if decide (flag ≠ 0) then
        blit_columns context surface n' (src + 1) (dst + 1) m
      else
        color ← load (colors (palette context)) index;
        m' ← store m dst color;
        blit_columns context surface n' (src + 1) (dst + 1) m'
  end.

(** The outer [for (i ...)] loop; [n] rows still to do. *)
Fixpoint blit_rows (context : GL_Context_t) (surface : GL_Surface_t)
  (tile_width : nat) (src_skip dst_skip : Z)
  (n : nat) (src dst : Z) (m : list GL_Color_t)
  : option (list GL_Color_t) :=
  match n with
  | O => Some m
  | S n' =>
      '(src', dst', m') ← blit_columns context surface tile_width src dst m;
      blit_rows context surface tile_width src_skip dst_skip
                n' (src' + src_skip) (dst' + dst_skip) m'
  end.

Definition GL_context_blit (context : GL_Context_t) (surface : GL_Surface_t)
  (tile : GL_Rectangle_t) (position : GL_Point_t) (scale rotation : float)
  : option GL_Context_t :=
  src_row ← load (data_rows surface) (rect_y tile);
  dst_row ← load (vram_rows context) (point_y position);
  let src := src_row + rect_x tile in
  let dst := dst_row + point_x position in
  let src_skip := size_sub (surface_width surface) (rect_width tile) in
  let dst_skip := size_sub (width context) (rect_width tile) in
  m ← blit_rows context surface (rect_width tile) src_skip dst_skip
                (rect_height tile) src dst (vram context);
  Some (set_vram context m).

(** [GL_context_blit_fast] has loops of its own in the source, and so here. *)
Fixpoint blit_fast_columns (context : GL_Context_t) (surface : GL_Surface_t)
  (n : nat) (src dst : Z) (m : list GL_Color_t)
  : option (Z * Z * list GL_Color_t) :=
  match n with
  | O => Some (src, dst, m)
  | S n' =>
      pixel ← load (data surface) src;
      index ← load (shifting context) pixel;
      flag ← load (transparent context) index;
      if decide (flag ≠ 0) then
        blit_fast_columns context surface n' (src + 1) (dst + 1) m
      else
        color ← load (colors (palette context)) index;
        m' ← store m dst color;
        blit_fast_columns context surface n' (src + 1) (dst + 1) m'
  end.

Fixpoint blit_fast_rows (context : GL_Context_t) (surface : GL_Surface_t)
  (tile_width : nat) (src_skip dst_skip : Z)
  (n : nat) (src dst : Z) (m : list GL_Color_t)
  : option (list GL_Color_t) :=
  match n with
  | O => Some m
  | S n' =>
      '(src', dst', m') ← blit_fast_columns context surface tile_width src dst m;
      blit_fast_rows context surface tile_width src_skip dst_skip
                     n' (src' + src_skip) (dst' + dst_skip) m'
  end.

Definition GL_context_blit_fast (context : GL_Context_t)
  (surface : GL_Surface_t) (tile : GL_Rectangle_t) (position : GL_Point_t)
  : option GL_Context_t :=
  src_row ← load (data_rows surface) (rect_y tile);
  dst_row ← load (vram_rows context) (point_y position);
  let src := src_row + rect_x tile in
  let dst := dst_row + point_x position in
  let src_skip := size_sub (surface_width surface) (rect_width tile) in
  let dst_skip := size_sub (width context) (rect_width tile) in
  m ← blit_fast_rows context surface (rect_width tile) src_skip dst_skip
                     (rect_height tile) src dst (vram context);
  Some (set_vram context m).

(** ** gl/primitive.c *)

Definition GL_is_visible (gl : GL_Context_t) (position : GL_Point_t) : bool :=
  true.

Definition GL_primitive_point (gl : GL_Context_t) (position : GL_Point_t)
  (color : GL_Pixel_t) : option GL_Context_t :=
  if negb (GL_is_visible gl position) then Some gl
  else
    index ← load (shifting gl) color;
    flag ← load (transparent gl) index;
    if decide (flag ≠ 0) then Some gl
    else
      rgba ← load (colors (palette gl)) index;
      row ← load (vram_rows gl) (point_y position);
      m ← store (vram gl) (row + point_x position) rgba;
      Some (set_vram gl m).

(** The [for] loop of [GL_primitive_hline]: [*(dst++) = rgba], [n] times. *)
Fixpoint hline_loop (n : nat) (dst : Z) (rgba : GL_Color_t)
  (m : list GL_Color_t) : option (list GL_Color_t) :=
  match n with
  | O => Some m
  | S n' => m' ← store m dst rgba; hline_loop n' (dst + 1) rgba m'
  end.

Definition GL_primitive_hline (gl : GL_Context_t) (origin : GL_Point_t)
  (w : nat) (color : GL_Pixel_t) : option GL_Context_t :=
  if negb (GL_is_visible gl origin) then Some gl
  else
    index ← load (shifting gl) color;
    flag ← load (transparent gl) index;
    if decide (flag ≠ 0) then Some gl
    else
      rgba ← load (colors (palette gl)) index;
      row ← load (vram_rows gl) (point_y origin);
      m ← hline_loop w (row + point_x origin) rgba (vram gl);
      Some (set_vram gl m).

(** The [for] loop of [GL_primitive_vline]: every turn takes [dst] afresh
    from [vram_rows[origin.y] + origin.x] and stores through it. *)
Fixpoint vline_loop (n : nat) (gl : GL_Context_t) (origin : GL_Point_t)
  (rgba : GL_Color_t) (m : list GL_Color_t) : option (list GL_Color_t) :=
  match n with
  | O => Some m
  | S n' =>
      row ← load (vram_rows gl) (point_y origin);
      m' ← store m (row + point_x origin) rgba;
      vline_loop n' gl origin rgba m'
  end.

Definition GL_primitive_vline (gl : GL_Context_t) (origin : GL_Point_t)
  (h : nat) (color : GL_Pixel_t) : option GL_Context_t :=
  if negb (GL_is_visible gl origin) then Some gl
  else
    index ← load (shifting gl) color;
    flag ← load (transparent gl) index;
    if decide (flag ≠ 0) then Some gl
    else
      rgba ← load (colors (palette gl)) index;
      m ← vline_loop h gl origin rgba (vram gl);
      Some (set_vram gl m).

(** ** The outside world: GLFW, the GL driver, the allocator, the log

    The code below talks to libraries whose answers it cannot control.  A
    [Platform] fixes those answers; every externally visible effect is
    appended to a trace, from which the set of live resources is read. *)

Inductive Resource :=
| RES_GLFW
| RES_WINDOW
| RES_GL_CONTEXT
| RES_VRAM
| RES_STRING
| RES_TEXTURE (id : Z)
| RES_SHADER (id : Z)
| RES_PROGRAM (id : Z)
| RES_FILE_SYSTEM
| RES_CHUNK (name : string)
| RES_ENVIRONMENT
| RES_INPUT
| RES_AUDIO
| RES_INTERPRETER.

#[global] Instance Resource_eq_dec : EqDecision Resource.
Proof. solve_decision. Defined.

Inductive Log_Levels_t :=
| LOG_LEVELS_TRACE | LOG_LEVELS_DEBUG | LOG_LEVELS_INFO
| LOG_LEVELS_WARNING | LOG_LEVELS_ERROR | LOG_LEVELS_FATAL.

#[global] Instance Log_Levels_eq_dec : EqDecision Log_Levels_t.
Proof. solve_decision. Defined.

Inductive Event :=
| EV_ACQUIRE (r : Resource)
| EV_RELEASE (r : Resource)
| EV_LOG (level : Log_Levels_t) (message : string)
| EV_USE_PROGRAM (id : Z)
| EV_UPLOAD (pixels : list GL_Color_t)
| EV_CALL (name : string).

Record Platform := {
  glfwInit_ok : bool;
  glfwCreateWindow_ok : bool;
  gladLoadGLLoader_ok : bool;
  GL_context_create_ok : bool;
  monitor_workarea : Z * Z;
  malloc_ok : bool;
  glGenTextures_name : Z;
  glCreateProgram_ok : bool;
  glCreateShader_ok : bool;
  shader_compiles : string → bool;
  program_links : string → bool
}.

Record World := {
  trace : list Event;
  fresh : Z;                  (* the last object name the driver handed out *)
  attached : list (Z * Z)     (* (program, shader) pairs *)
}.

Definition World_empty : World := {| trace := []; fresh := 0; attached := [] |}.

(** State over [World]; [None] is undefined behaviour. *)
Definition M (A : Type) : Type := World → option (A * World).

#[global] Instance M_ret : MRet M := λ A (x : A) w, Some (x, w).
#[global] Instance M_bind : MBind M := λ A B (f : A → M B) (m : M A) w,
  match m w with Some (x, w') => f x w' | None => None end.

Definition undefined_behaviour {A} : M A := λ _, None.

Definition emit (e : Event) : M unit := λ w,
  Some (tt, {| trace := trace w ++ [e]; fresh := fresh w; attached := attached w |}).

Definition Log_write (level : Log_Levels_t) (message : string) : M unit :=
  emit (EV_LOG level message).

Definition gen_name : M Z := λ w,
  Some (fresh w + 1,
        {| trace := trace w; fresh := fresh w + 1; attached := attached w |}).

Definition get_attached (program : Z) : M (list Z) := λ w,
  Some (snd <$> filter (λ ps, fst ps = program) (attached w), w).

Definition glAttachShader (program shader : Z) : M unit := λ w,
  Some (tt, {| trace := trace w; fresh := fresh w;
               attached := attached w ++ [(program, shader)] |}).

Definition glDetachShader (program shader : Z) : M unit := λ w,
  Some (tt, {| trace := trace w; fresh := fresh w;
               attached := filter (λ ps, ps ≠ (program, shader)) (attached w) |}).

(** How many more times [r] was acquired than released. *)
Fixpoint balance (r : Resource) (tr : list Event) : Z :=
  match tr with
  | [] => 0
  | EV_ACQUIRE r' :: tr' => (if decide (r' = r) then 1 else 0) + balance r tr'
  | EV_RELEASE r' :: tr' => (if decide (r' = r) then -1 else 0) + balance r tr'
  | _ :: tr' => balance r tr'
  end.

Definition live (r : Resource) (w : World) : bool := bool_decide (0 < balance r (trace w)).

Definition is_acquire (e : Event) : bool :=
  match e with EV_ACQUIRE _ => true | _ => false end.

Definition is_release (e : Event) : bool :=
  match e with EV_RELEASE _ => true | _ => false end.

(** [for] over the elements of a list, threading a value. *)
Fixpoint for_each {A B} (l : list A) (body : A → B → M B) (acc : B) : M B :=
  match l with
  | [] => mret acc
  | x :: l' => acc' ← body x acc; for_each l' body acc'
  end.

(** ** gl/program.c *)

Inductive GL_Program_Shaders_t := GL_PROGRAM_SHADER_VERTEX | GL_PROGRAM_SHADER_FRAGMENT.

Record GL_Program_t := GL_Program { program_id : Z }.

Section Program.
Variable platform : Platform.

Definition glCreateProgram : M Z :=
  if glCreateProgram_ok platform
  then id ← gen_name; emit (EV_ACQUIRE (RES_PROGRAM id));; mret id
  else mret 0.

Definition glCreateShader : M Z :=
  if glCreateShader_ok platform
  then id ← gen_name; emit (EV_ACQUIRE (RES_SHADER id));; mret id
  else mret 0.

Definition GL_program_create (program : GL_Program_t) : M (bool * GL_Program_t) :=
  id ← glCreateProgram;
  if decide (id = 0) then
    Log_write LOG_LEVELS_ERROR "<GL> can't create shader program";;
    mret (false, program)
  else
    Log_write LOG_LEVELS_DEBUG "<GL> shader program #%d created";;
    mret (true, GL_Program id).

Definition GL_program_delete (program : GL_Program_t) : M GL_Program_t :=
  shaders ← get_attached (program_id program);
  for_each shaders (λ shader _,
    glDetachShader (program_id program) shader;;
    Log_write LOG_LEVELS_DEBUG "<GL> shader #%d detached from program #%d") tt;;
  emit (EV_RELEASE (RES_PROGRAM (program_id program)));;
  Log_write LOG_LEVELS_DEBUG "<GL> shader program #%d deleted";;
  mret (GL_Program 0).

Definition GL_program_attach (program : GL_Program_t) (shader_code : string)
  (shader_type : GL_Program_Shaders_t) : M bool :=
  shader_id ← glCreateShader;
  if decide (shader_id = 0) then
    Log_write LOG_LEVELS_ERROR "<GL> can't create shader";;
    mret false
  else
    Log_write LOG_LEVELS_TRACE "<GL> compiling shader";;
    success ←
      (if negb (shader_compiles platform shader_code) then
         Log_write LOG_LEVELS_ERROR "<GL> shader compile error: %s";;
         mret false
       else
         glAttachShader (program_id program) shader_id;;
         if negb (program_links platform shader_code) then
           Log_write LOG_LEVELS_ERROR "<GL> program link error: %s";;
           glDetachShader (program_id program) shader_id;;
           mret false
         else
           Log_write LOG_LEVELS_DEBUG "<GL> shader #%d compiled into program #%d";;
           mret true);
    emit (EV_RELEASE (RES_SHADER shader_id));;
    mret success.

Definition GL_program_use (program : GL_Program_t) : M unit :=
  emit (EV_USE_PROGRAM (program_id program)).
End Program.

(** ** core/io/display.c *)

Definition VERTEX_SHADER : string :=
"#version 120

varying vec2 v_texture_coords;

void main()
{
   gl_Position = gl_ModelViewProjectionMatrix * gl_Vertex;
   gl_FrontColor = gl_Color; // Pass the vertex drawing color.

   v_texture_coords = gl_MultiTexCoord0.st; // Retain texture 2D position.
}
".

Definition FRAGMENT_SHADER_PASSTHRU : string :=
"#version 120

varying vec2 v_texture_coords;

uniform sampler2D u_texture0;
uniform vec2 u_resolution;
uniform float u_time;

vec4 passthru(vec4 color, sampler2D texture, vec2 texture_coords, vec2 screen_coords) {
    return texture2D(texture, texture_coords) * color;
}

void main()
{
    gl_FragColor = passthru(gl_Color, u_texture0, v_texture_coords, gl_FragCoord.xy);
}
".

Definition FRAGMENT_SHADER_CUSTOM : string :=
"#version 120

varying vec2 v_texture_coords;

uniform sampler2D u_texture0;
uniform vec2 u_resolution;
uniform float u_time;

vec4 effect(vec4 color, sampler2D texture, vec2 texture_coords, vec2 screen_coords);

void main()
{
    gl_FragColor = effect(gl_Color, u_texture0, v_texture_coords, gl_FragCoord.xy);
}

".

Inductive Display_Programs_t := DISPLAY_PROGRAM_PASSTHRU | DISPLAY_PROGRAM_CUSTOM.

#[global] Instance Display_Programs_eq_dec : EqDecision Display_Programs_t.
Proof. solve_decision. Defined.

Record Program_Data_t := Program_Data {
  vertex_shader : option string;
  fragment_shader : option string
}.

(** [_programs_data], each entry with the slot it initialises. *)
Definition _programs_data : list (Display_Programs_t * Program_Data_t) :=
  [ (DISPLAY_PROGRAM_PASSTHRU,
     Program_Data (Some VERTEX_SHADER) (Some FRAGMENT_SHADER_PASSTHRU));
    (DISPLAY_PROGRAM_CUSTOM, Program_Data None None) ].

Record Display_Configuration_t := {
  cfg_width : Z;
  cfg_height : Z;
  cfg_fullscreen : bool;
  cfg_vertical_sync : bool;
  cfg_scale : Z;
  cfg_hide_cursor : bool
}.

(** The context as [display.c] sees it: an indexed [buffer]. *)
Record Display_GL_t := { buffer : GL_Surface_t }.

Record Display_t := {
  display_configuration : Display_Configuration_t;
  window : bool;                              (* a non-NULL [GLFWwindow *] *)
  gl : Display_GL_t;
  display_palette : GL_Palette_t;
  window_width : Z;
  window_height : Z;
  window_scale : Z;
  physical_width : Z;
  physical_height : Z;
  vram_destination : GL_Quad_t;
  display_vram : option (list GL_Color_t);    (* [None] is NULL *)
  vram_texture : Z;
  programs : GL_Program_t * GL_Program_t;     (* passthru, custom *)
  active_program : option Display_Programs_t; (* [None] is NULL *)
  time : Q
}.

Definition Display_zero (configuration : Display_Configuration_t) : Display_t := {|
  display_configuration := configuration;
  window := false;
  gl := {| buffer := GL_Surface 0 0 [] [] |};
  display_palette := GL_Palette [];
  window_width := 0; window_height := 0; window_scale := 0;
  physical_width := 0; physical_height := 0;
  vram_destination := GL_Quad 0 0 0 0;
  display_vram := None;
  vram_texture := 0;
  programs := (GL_Program 0, GL_Program 0);
  active_program := None;
  time := 0%Q
|}.

Definition program_slot (d : Display_t) (i : Display_Programs_t) : GL_Program_t :=
  match i with
  | DISPLAY_PROGRAM_PASSTHRU => fst (programs d)
  | DISPLAY_PROGRAM_CUSTOM => snd (programs d)
  end.

Definition set_window (d : Display_t) (v : bool) : Display_t :=
  {| display_configuration := display_configuration d; window := v; gl := gl d;
     display_palette := display_palette d; window_width := window_width d;
     window_height := window_height d; window_scale := window_scale d;
     physical_width := physical_width d; physical_height := physical_height d;
     vram_destination := vram_destination d; display_vram := display_vram d;
     vram_texture := vram_texture d; programs := programs d;
     active_program := active_program d; time := time d |}.

Definition set_gl (d : Display_t) (v : Display_GL_t) : Display_t :=
  {| display_configuration := display_configuration d; window := window d; gl := v;
     display_palette := display_palette d; window_width := window_width d;
     window_height := window_height d; window_scale := window_scale d;
     physical_width := physical_width d; physical_height := physical_height d;
     vram_destination := vram_destination d; display_vram := display_vram d;
     vram_texture := vram_texture d; programs := programs d;
     active_program := active_program d; time := time d |}.

Definition set_palette (d : Display_t) (v : GL_Palette_t) : Display_t :=
  {| display_configuration := display_configuration d; window := window d; gl := gl d;
     display_palette := v; window_width := window_width d;
     window_height := window_height d; window_scale := window_scale d;
     physical_width := physical_width d; physical_height := physical_height d;
     vram_destination := vram_destination d; display_vram := display_vram d;
     vram_texture := vram_texture d; programs := programs d;
     active_program := active_program d; time := time d |}.

Definition set_window_size (d : Display_t) (w h s : Z) : Display_t :=
  {| display_configuration := display_configuration d; window := window d; gl := gl d;
     display_palette := display_palette d; window_width := w;
     window_height := h; window_scale := s;
     physical_width := physical_width d; physical_height := physical_height d;
     vram_destination := vram_destination d; display_vram := display_vram d;
     vram_texture := vram_texture d; programs := programs d;
     active_program := active_program d; time := time d |}.

Definition set_destination (d : Display_t) (q : GL_Quad_t) (pw ph : Z) : Display_t :=
  {| display_configuration := display_configuration d; window := window d; gl := gl d;
     display_palette := display_palette d; window_width := window_width d;
     window_height := window_height d; window_scale := window_scale d;
     physical_width := pw; physical_height := ph;
     vram_destination := q; display_vram := display_vram d;
     vram_texture := vram_texture d; programs := programs d;
     active_program := active_program d; time := time d |}.

Definition set_display_vram (d : Display_t) (v : option (list GL_Color_t)) : Display_t :=
  {| display_configuration := display_configuration d; window := window d; gl := gl d;
     display_palette := display_palette d; window_width := window_width d;
     window_height := window_height d; window_scale := window_scale d;
     physical_width := physical_width d; physical_height := physical_height d;
     vram_destination := vram_destination d; display_vram := v;
     vram_texture := vram_texture d; programs := programs d;
     active_program := active_program d; time := time d |}.

Definition set_vram_texture (d : Display_t) (v : Z) : Display_t :=
  {| display_configuration := display_configuration d; window := window d; gl := gl d;
     display_palette := display_palette d; window_width := window_width d;
     window_height := window_height d; window_scale := window_scale d;
     physical_width := physical_width d; physical_height := physical_height d;
     vram_destination := vram_destination d; display_vram := display_vram d;
     vram_texture := v; programs := programs d;
     active_program := active_program d; time := time d |}.

Definition set_program (d : Display_t) (i : Display_Programs_t) (p : GL_Program_t)
  : Display_t :=
  {| display_configuration := display_configuration d; window := window d; gl := gl d;
     display_palette := display_palette d; window_width := window_width d;
     window_height := window_height d; window_scale := window_scale d;
     physical_width := physical_width d; physical_height := physical_height d;
     vram_destination := vram_destination d; display_vram := display_vram d;
     vram_texture := vram_texture d;
     programs := match i with
                 | DISPLAY_PROGRAM_PASSTHRU => (p, snd (programs d))
                 | DISPLAY_PROGRAM_CUSTOM => (fst (programs d), p)
                 end;
     active_program := active_program d; time := time d |}.

Definition set_active_program (d : Display_t) (v : option Display_Programs_t)
  : Display_t :=
  {| display_configuration := display_configuration d; window := window d; gl := gl d;
     display_palette := display_palette d; window_width := window_width d;
     window_height := window_height d; window_scale := window_scale d;
     physical_width := physical_width d; physical_height := physical_height d;
     vram_destination := vram_destination d; display_vram := display_vram d;
     vram_texture := vram_texture d; programs := programs d;
     active_program := v; time := time d |}.

Definition set_time (d : Display_t) (v : Q) : Display_t :=
  {| display_configuration := display_configuration d; window := window d; gl := gl d;
     display_palette := display_palette d; window_width := window_width d;
     window_height := window_height d; window_scale := window_scale d;
     physical_width := physical_width d; physical_height := physical_height d;
     vram_destination := vram_destination d; display_vram := display_vram d;
     vram_texture := vram_texture d; programs := programs d;
     active_program := active_program d; time := v |}.

(** [libs/imath.h] is not part of the sources at hand; [imin] is the lesser
    of two [int]s. *)
Definition imin (a b : Z) : Z := if decide (a < b) then a else b.

(** [a / b] on [int]: truncation towards zero; dividing by zero is undefined. *)
Definition int_div (a b : Z) : M Z :=
  if decide (b = 0) then undefined_behaviour else mret (a ÷ b).

(** Modelled from the spec: [GL_surface_to_rgba], whose source file
    (surface.c) is not at hand.  It is a direct palette look-up per pixel,
    in row-major order, over width × height entries of the indexed buffer,
    written to the true-colour buffer it is given. *)
Fixpoint surface_to_rgba_loop (n : nat) (surface : GL_Surface_t)
  (palette : GL_Palette_t) (src dst : Z) (out : list GL_Color_t)
  : option (list GL_Color_t) :=
  match n with
  | O => Some out
  | S n' =>
      pixel ← load (data surface) src;
      color ← load (colors palette) pixel;
      out' ← store out dst color;
      surface_to_rgba_loop n' surface palette (src + 1) (dst + 1) out'
  end.

Definition GL_surface_to_rgba (surface : GL_Surface_t) (palette : GL_Palette_t)
  (out : option (list GL_Color_t)) : option (list GL_Color_t) :=
  m ← out;
  surface_to_rgba_loop (surface_width surface * surface_height surface)
                       surface palette 0 0 m.

Section Display.
Variable platform : Platform.
(** From [palette.h], which is not at hand. *)
Variable GL_MAX_PALETTE_COLORS : nat.
Variable GL_palette_greyscale : nat → GL_Palette_t.
Variable uninitialised : GL_Color_t.

Definition glfwInit : M bool :=
  if glfwInit_ok platform then emit (EV_ACQUIRE RES_GLFW);; mret true
  else mret false.
Definition glfwTerminate : M unit := emit (EV_RELEASE RES_GLFW).
Definition glfwCreateWindow : M bool :=
  if glfwCreateWindow_ok platform then emit (EV_ACQUIRE RES_WINDOW);; mret true
  else mret false.
Definition glfwDestroyWindow : M unit := emit (EV_RELEASE RES_WINDOW).

(** Modelled from the spec: [GL_context_create] and [GL_context_delete],
    the context interface [display.c] is written against ([context.c] at
    hand has [GL_context_initialize]).  Creation fails, or yields a
    width × height buffer of indexed pixels with its row table. *)
Definition GL_context_create (w h : Z) : M (bool * Display_GL_t) :=
  if GL_context_create_ok platform then
    emit (EV_ACQUIRE RES_GL_CONTEXT);;
    mret (true, {| buffer :=
      GL_Surface (Z.to_nat w) (Z.to_nat h)
                 (replicate (Z.to_nat w * Z.to_nat h) 0)
                 (row_offsets (Z.to_nat w) (Z.to_nat h)) |})
  else mret (false, {| buffer := GL_Surface 0 0 [] [] |}).
Definition GL_context_delete : M unit := emit (EV_RELEASE RES_GL_CONTEXT).

(** [malloc(count * sizeof(GL_Color_t))]. *)
Definition malloc_colors (count : Z) : M (option (list GL_Color_t)) :=
  if malloc_ok platform then
    emit (EV_ACQUIRE RES_VRAM);;
    mret (Some (replicate (Z.to_nat count) uninitialised))
  else mret None.
(** [free(p)]; [free(NULL)] does nothing. *)
Definition free_colors (p : option (list GL_Color_t)) : M unit :=
  match p with Some _ => emit (EV_RELEASE RES_VRAM) | None => mret tt end.

Definition glGenTextures (current : Z) : M Z :=
  let name := glGenTextures_name platform in
  if decide (name = 0) then mret current
  else emit (EV_ACQUIRE (RES_TEXTURE name));; mret name.
Definition glDeleteBuffers (name : Z) : M unit :=
  emit (EV_RELEASE (RES_TEXTURE name)).

(** [display.c] calls the functions of [program.c] without their [GL_]
    prefix.  Modelled from the spec: [program_prepare] and the
    uniform-index [program_send], which are not at hand; they look up and
    set the uniforms of the program they are given, and dereference it. *)
Definition program_prepare (program : GL_Program_t) : M unit :=
  emit (EV_CALL "program_prepare").
Definition program_send (program : option GL_Program_t) (uniform : string) : M unit :=
  match program with
  | Some _ => emit (EV_CALL ("program_send " +:+ uniform))
  | None => undefined_behaviour
  end.
Definition program_use (program : option GL_Program_t) : M unit :=
  match program with
  | Some p => GL_program_use p
  | None => undefined_behaviour
  end.

Definition active (display : Display_t) : option GL_Program_t :=
  program_slot display <$> active_program display.

Definition compute_size (display : Display_t)
  (configuration : Display_Configuration_t) (position : GL_Point_t)
  : M (bool * Display_t * GL_Point_t) :=
  let '(display_width, display_height) := monitor_workarea platform in
  Log_write LOG_LEVELS_DEBUG "<DISPLAY> display size is %dx%d";;
  let display := set_window_size display (cfg_width configuration)
                                 (cfg_height configuration) 1 in
  across ← int_div display_width (cfg_width configuration);
  down ← int_div display_height (cfg_height configuration);
  let max_scale := imin across down in
  let scale := if decide (cfg_scale configuration ≠ 0)
               then cfg_scale configuration else max_scale in
  if decide (max_scale = 0) then
    Log_write LOG_LEVELS_FATAL "<DISPLAY> requested display size can't fit display!";;
    mret (false, display, position)
  else
    scale ← (if decide (scale > max_scale) then
               Log_write LOG_LEVELS_WARNING
                 "<DISPLAY> requested scaling x%d too big, forcing to x%d";;
               mret max_scale
             else mret scale);
    let display := set_window_size display (cfg_width configuration * scale)
                                   (cfg_height configuration * scale) scale in
    Log_write LOG_LEVELS_DEBUG "<DISPLAY> window size is %dx%d (%dx)";;
    let x := (display_width - window_width display) ÷ 2 in
    let y := (display_height - window_height display) ÷ 2 in
    if negb (cfg_fullscreen configuration) then
      mret (true,
            set_destination display
              (GL_Quad 0 0 (window_width display) (window_height display))
              (window_width display) (window_height display),
            GL_Point x y)
    else
      mret (true,
            set_destination display
              (GL_Quad x y (x + window_width display) (y + window_height display))
              display_width display_height,
            GL_Point 0 0).

Definition Display_shader (display : Display_t) (effect : option string)
  : M Display_t :=
  let is_passthru :=
    bool_decide (active_program display = Some DISPLAY_PROGRAM_PASSTHRU) in
  if is_passthru && bool_decide (effect = None) then
    Log_write LOG_LEVELS_INFO "<DISPLAY> pass-thru shader already active, bailing out";;
    mret display
  else
    display ←
      (if negb is_passthru then
         match active_program display with
         | Some slot =>
             p ← GL_program_delete (program_slot display slot);
             mret (set_program display slot p)
         | None => mret display
         end
       else mret display);
    display ←
      match effect with
      | None =>
          Log_write LOG_LEVELS_DEBUG "<DISPLAY> loading pass-thru shader";;
          p ← GL_program_delete (program_slot display DISPLAY_PROGRAM_CUSTOM);
          mret (set_active_program (set_program display DISPLAY_PROGRAM_CUSTOM p)
                                   (Some DISPLAY_PROGRAM_PASSTHRU))
      | Some effect =>
          Log_write LOG_LEVELS_DEBUG "<DISPLAY> loading custom shader";;
          emit (EV_ACQUIRE RES_STRING);;
          let code := FRAGMENT_SHADER_CUSTOM +:+ effect in
          '(created, program) ←
            GL_program_create platform (program_slot display DISPLAY_PROGRAM_CUSTOM);
          let display := set_program display DISPLAY_PROGRAM_CUSTOM program in
          attached_vertex ←
            (if (created : bool)
             then GL_program_attach platform program VERTEX_SHADER
                                    GL_PROGRAM_SHADER_VERTEX
             else mret false);
          attached_fragment ←
            (if (attached_vertex : bool)
             then GL_program_attach platform program code
                                    GL_PROGRAM_SHADER_FRAGMENT
             else mret false);
          display ←
            (if (attached_fragment : bool) then
               program_prepare program;;
               mret (set_active_program display (Some DISPLAY_PROGRAM_CUSTOM))
             else
               p ← GL_program_delete program;
               Log_write LOG_LEVELS_WARNING "<DISPLAY> can't load custom shader";;
               mret (set_program display DISPLAY_PROGRAM_CUSTOM p)) : M Display_t;
          emit (EV_RELEASE RES_STRING);;
          mret display
      end;
    Log_write LOG_LEVELS_DEBUG "<DISPLAY> switched to program #%p";;
    program_use (active display);;
    Log_write LOG_LEVELS_DEBUG "<DISPLAY> program #%p active";;
    program_send (active display) "u_texture0";;
    program_send (active display) "u_resolution";;
    Log_write LOG_LEVELS_DEBUG "<DISPLAY> program #%p initialized";;
    mret display.

(** The unwinding that [Display_initialize] does when a shader program
    cannot be set up: the programs of the slots done so far, then the
    texture, the buffer, the context, the window and GLFW. *)
Definition unwind_programs (display : Display_t) (done : list Display_Programs_t)
  : M Display_t :=
  display ← for_each done (λ slot display,
               p ← GL_program_delete (program_slot display slot);
               mret (set_program display slot p)) display;
  glDeleteBuffers (vram_texture display);;
  free_colors (display_vram display);;
  GL_context_delete;;
  glfwDestroyWindow;;
  glfwTerminate;;
  mret display.

(** The [for (i ...)] loop over [_programs_data]; [done] lists the slots
    of the turns already taken.  [false] is the [return false] from inside
    the loop. *)
Fixpoint initialize_programs (todo : list (Display_Programs_t * Program_Data_t))
  (done : list Display_Programs_t) (display : Display_t) : M (bool * Display_t) :=
  match todo with
  | [] => mret (true, display)
  | (slot, Program_Data (Some vertex) (Some fragment)) :: todo' =>
      '(created, program) ← GL_program_create platform (program_slot display slot);
      let display := set_program display slot program in
      attached_vertex ←
        (if (created : bool)
         then GL_program_attach platform program vertex GL_PROGRAM_SHADER_VERTEX
         else mret false);
      attached_fragment ←
        (if (attached_vertex : bool)
         then GL_program_attach platform program fragment GL_PROGRAM_SHADER_FRAGMENT
         else mret false);
      if (attached_fragment : bool) then
        program_prepare program;;
        Log_write LOG_LEVELS_DEBUG "<DISPLAY> program #%p prepared w/ id #%d";;
        initialize_programs todo' (done ++ [slot]) display
      else
        Log_write LOG_LEVELS_FATAL "<DISPLAY> can't initialize shaders";;
        display ← unwind_programs display done;
        mret (false, display)
  | (slot, _) :: todo' =>
      initialize_programs todo' (done ++ [slot]) display
  end.

Definition Display_initialize (configuration : Display_Configuration_t)
  (title : string) : M (bool * Display_t) :=
  let display := Display_zero configuration in
  initialised ← glfwInit;
  if negb initialised then
    Log_write LOG_LEVELS_FATAL "<DISPLAY> can't initialize GLFW";;
    mret (false, display)
  else
  created ← glfwCreateWindow;
  let display := set_window display created in
  if negb created then
    Log_write LOG_LEVELS_FATAL "<DISPLAY> can't create window";;
    glfwTerminate;;
    mret (false, display)
  else
  Log_write LOG_LEVELS_DEBUG "<DISPLAY> %sabling vertical synchronization";;
  if negb (gladLoadGLLoader_ok platform) then
    Log_write LOG_LEVELS_FATAL "<DISPLAY> can't initialize GLAD";;
    glfwDestroyWindow;;
    glfwTerminate;;
    mret (false, display)
  else
  Log_write LOG_LEVELS_INFO "<DISPLAY> Vendor: %s";;
  Log_write LOG_LEVELS_INFO "<DISPLAY> Renderer: %s";;
  Log_write LOG_LEVELS_INFO "<DISPLAY> Version: %s";;
  Log_write LOG_LEVELS_INFO "<DISPLAY> GLSL: %s";;
  '(ok, context) ← GL_context_create (cfg_width configuration) (cfg_height configuration);
  let display := set_gl display context in
  if negb ok then
    Log_write LOG_LEVELS_FATAL "<DISPLAY> can't initialize GL";;
    glfwDestroyWindow;;
    glfwTerminate;;
    mret (false, display)
  else
  let display := set_palette display (GL_palette_greyscale GL_MAX_PALETTE_COLORS) in
  Log_write LOG_LEVELS_DEBUG "<DISPLAY> calculating greyscale palette of #%d entries";;
  '(fits, display, position) ← compute_size display configuration (GL_Point 0 0);
  if negb fits then
    glfwDestroyWindow;;
    glfwTerminate;;
    mret (false, display)
  else
  (if negb (cfg_fullscreen configuration) then
     emit (EV_CALL "glfwSetWindowMonitor");;
     emit (EV_CALL "glfwShowWindow")
   else
     Log_write LOG_LEVELS_INFO "<DISPLAY> entering full-screen mode";;
     emit (EV_CALL "glfwSetWindowMonitor"));;
  buffer ← malloc_colors (cfg_width (display_configuration display)
                          * cfg_width (display_configuration display));
  let display := set_display_vram display buffer in
  (if bool_decide (display_vram display = None) then
     Log_write LOG_LEVELS_FATAL "<DISPLAY> can't allocate VRAM buffer";;
     GL_context_delete;;
     glfwDestroyWindow;;
     glfwTerminate
   else mret tt);;
  Log_write LOG_LEVELS_DEBUG "<DISPLAY> VRAM allocated at #%p (%dx%d)";;
  name ← glGenTextures (vram_texture display);
  let display := set_vram_texture display name in
  if decide (vram_texture display = 0) then
    Log_write LOG_LEVELS_FATAL "<DISPLAY> can't allocate VRAM texture";;
    free_colors (display_vram display);;
    GL_context_delete;;
    glfwDestroyWindow;;
    glfwTerminate;;
    mret (false, display)
  else
  emit (EV_CALL "glTexImage2D");;
  Log_write LOG_LEVELS_DEBUG "<DISPLAY> texture created w/ id #%d (%dx%d)";;
  '(ok, display) ← initialize_programs _programs_data [] display;
  if negb ok then mret (false, display)
  else
  display ← Display_shader display None;
  mret (true, display).

Definition Display_terminate (display : Display_t) : M Display_t :=
  display ← for_each [DISPLAY_PROGRAM_PASSTHRU; DISPLAY_PROGRAM_CUSTOM]
    (λ slot display,
       if decide (program_id (program_slot display slot) = 0) then mret display
       else p ← GL_program_delete (program_slot display slot);
            mret (set_program display slot p)) display;
  glDeleteBuffers (vram_texture display);;
  Log_write LOG_LEVELS_DEBUG "<DISPLAY> texture w/ id #%d deleted";;
  free_colors (display_vram display);;
  Log_write LOG_LEVELS_DEBUG "<DISPLAY> VRAM buffer #%p deallocated";;
  GL_context_delete;;
  glfwDestroyWindow;;
  Log_write LOG_LEVELS_DEBUG "<DISPLAY> windows #%p destroyed";;
  glfwTerminate;;
  Log_write LOG_LEVELS_DEBUG "<DISPLAY> terminated";;
  mret display.

Definition Display_update (display : Display_t) (delta_time : Q) : M Display_t :=
  let display := set_time display (time display + delta_time)%Q in
  program_send (active display) "u_time";;
  mret display.

Definition Display_present (display : Display_t) : M Display_t :=
  match GL_surface_to_rgba (buffer (gl display)) (display_palette display)
                           (display_vram display) with
  | None => undefined_behaviour
  | Some pixels =>
      emit (EV_UPLOAD pixels);;
      emit (EV_CALL "glBegin .. glEnd");;
      emit (EV_CALL "glfwSwapBuffers");;
      mret (set_display_vram display (Some pixels))
  end.

Definition Display_palette (display : Display_t) (palette : GL_Palette_t)
  : M Display_t :=
  Log_write LOG_LEVELS_DEBUG "<DISPLAY> palette updated";;
  mret (set_palette display palette).
End Display.

(** ** core/engine.c, in exact arithmetic *)

(** The loop with [float] and [double] read as exact rationals.  This
    reading serves the properties that rounding cannot touch: which calls
    a turn makes and in which order, and the guards on the pacing wait.
    What the arithmetic itself computes is settled on the binary32 reading
    that follows it. *)

(** The three statics of [_calculate_fps]. *)
Record Fps_t := {
  samples : list Q;
  index : nat;
  sum : Q
}.

Section Fps.
(** From [config.h], which is not at hand. *)
Variable FPS_AVERAGE_SAMPLES : nat.

Definition Fps_initial : Fps_t :=
  {| samples := replicate FPS_AVERAGE_SAMPLES 0%Q; index := 0%nat; sum := 0%Q |}.

Definition _calculate_fps (st : Fps_t) (elapsed : Q) : Q * Fps_t :=
  let sum1 := (sum st - default 0 (samples st !! index st))%Q in
  let sum2 := (sum1 + elapsed)%Q in
  let samples' := <[index st := elapsed]> (samples st) in
  let index' := ((index st + 1) `mod` FPS_AVERAGE_SAMPLES)%nat in
  ((inject_Z (Z.of_nat FPS_AVERAGE_SAMPLES) / sum2)%Q,
   {| samples := samples'; index := index'; sum := sum2 |}).

(** The statics after a sequence of calls, one per frame. *)
Definition feed (st : Fps_t) (frames : list Q) : Fps_t :=
  fold_left (λ st elapsed, snd (_calculate_fps st elapsed)) frames st.
End Fps.

Record Configuration_t := {
  cfg_fps : Z;
  cfg_skippable_frames : nat;
  cfg_fps_cap : Q
}.

(** What the loop asks of the other subsystems, in order. *)
Inductive Call :=
| CALL_INPUT_PROCESS
| CALL_INTERPRETER_PROCESS
| CALL_INTERPRETER_UPDATE (delta_time : Q)
| CALL_AUDIO_UPDATE (elapsed : Q)
| CALL_INPUT_UPDATE (elapsed : Q)
| CALL_DISPLAY_UPDATE (elapsed : Q)
| CALL_INTERPRETER_RENDER (ratio : Q)
| CALL_DISPLAY_PRESENT
| CALL_WAIT_FOR (seconds : Q).

Definition is_update (c : Call) : bool :=
  match c with CALL_INTERPRETER_UPDATE _ => true | _ => false end.

Definition is_render (c : Call) : bool :=
  match c with CALL_INTERPRETER_RENDER _ => true | _ => false end.

(** What one turn of the loop reads from outside: the clock at its start,
    the window's close flag, and the clock at its end. *)
Record Frame := {
  frame_current : Q;
  frame_should_close : bool;
  frame_end : Q
}.

Section Engine.
Variable FPS_AVERAGE_SAMPLES : nat.
Context {Interpreter_t : Type}.
(** The scripting host: each entry point answers continue / stop. *)
Variable Interpreter_process : Interpreter_t → bool * Interpreter_t.
Variable Interpreter_update : Interpreter_t → Q → bool * Interpreter_t.
Variable Interpreter_render : Interpreter_t → Q → bool * Interpreter_t.
(** [engine->environment.quit], which the script sets. *)
Variable environment_quit : Interpreter_t → bool.

Record Loop_t := {
  interpreter : Interpreter_t;
  environment_fps : Q;
  environment_time : Q;
  fps_statics : Fps_t;
  running : bool;
  previous : Q;
  lag : Q;
  calls : list Call
}.

Definition call (c : Call) (st : Loop_t) : Loop_t :=
  {| interpreter := interpreter st; environment_fps := environment_fps st;
     environment_time := environment_time st; fps_statics := fps_statics st;
     running := running st; previous := previous st; lag := lag st;
     calls := calls st ++ [c] |}.

(** [running = running && f(&engine->interpreter, ...)]: [f] is not called
    once [running] is false. *)
Definition and_then (f : Interpreter_t → bool * Interpreter_t) (c : Call)
  (st : Loop_t) : Loop_t :=
  if running st then
    let '(ok, i) := f (interpreter st) in
    {| interpreter := i; environment_fps := environment_fps st;
       environment_time := environment_time st; fps_statics := fps_statics st;
       running := ok; previous := previous st; lag := lag st;
       calls := calls st ++ [c] |}
  else st.

Definition set_clock (st : Loop_t) (current : Q) (fps : Q) (statics : Fps_t)
  : Loop_t :=
  {| interpreter := interpreter st; environment_fps := fps;
     environment_time := environment_time st; fps_statics := statics;
     running := running st; previous := current; lag := lag st;
     calls := calls st |}.

Definition set_lag (st : Loop_t) (v : Q) : Loop_t :=
  {| interpreter := interpreter st; environment_fps := environment_fps st;
     environment_time := environment_time st; fps_statics := fps_statics st;
     running := running st; previous := previous st; lag := v;
     calls := calls st |}.

Definition advance_time (st : Loop_t) (delta_time : Q) : Loop_t :=
  {| interpreter := interpreter st; environment_fps := environment_fps st;
     environment_time := (environment_time st + delta_time)%Q;
     fps_statics := fps_statics st;
     running := running st; previous := previous st; lag := lag st;
     calls := calls st |}.

(** [for (size_t frames = skippable_frames; frames && (lag >= delta_time); --frames)] *)
Fixpoint fixed_updates (delta_time : Q) (frames : nat) (st : Loop_t) : Loop_t :=
  match frames with
  | O => st
  | S frames' =>
      if Qle_bool delta_time (lag st) then
        let st := advance_time st delta_time in
        let st := and_then (λ i, Interpreter_update i delta_time)
                           (CALL_INTERPRETER_UPDATE delta_time) st in
        let st := set_lag st (lag st - delta_time)%Q in
        fixed_updates delta_time frames' st
      else st
  end.

(** The body of the loop of [Engine_run]. *)
Definition Engine_iteration (delta_time : Q) (skippable_frames : nat)
  (reference_time : Q) (frame : Frame) (st : Loop_t) : Loop_t :=
  let current := frame_current frame in
  let elapsed := (current - previous st)%Q in
  let '(fps, statics) := _calculate_fps FPS_AVERAGE_SAMPLES (fps_statics st) elapsed in
  let st := set_clock st current fps statics in
  let st := call CALL_INPUT_PROCESS st in
  let st := and_then Interpreter_process CALL_INTERPRETER_PROCESS st in
  let st := set_lag st (lag st + elapsed)%Q in
  let st := fixed_updates delta_time skippable_frames st in
  let st := call (CALL_AUDIO_UPDATE elapsed) st in
  let st := call (CALL_INPUT_UPDATE elapsed) st in
  let st := call (CALL_DISPLAY_UPDATE elapsed) st in
  let ratio := (lag st / delta_time)%Q in
  let st := and_then (λ i, Interpreter_render i ratio)
                     (CALL_INTERPRETER_RENDER ratio) st in
  let st := call CALL_DISPLAY_PRESENT st in
  let frame_time := (frame_end frame - current)%Q in
  let leftover := (reference_time - frame_time)%Q in
  if Qlt_le_dec 0 leftover then call (CALL_WAIT_FOR leftover) st else st.

(** The loop itself, over the frames the clock and the window provide. *)
Fixpoint Engine_loop (delta_time : Q) (skippable_frames : nat)
  (reference_time : Q) (frames : list Frame) (st : Loop_t) : Loop_t :=
  match frames with
  | [] => st
  | frame :: frames' =>
      if running st && negb (environment_quit (interpreter st))
         && negb (frame_should_close frame)
      then Engine_loop delta_time skippable_frames reference_time frames'
             (Engine_iteration delta_time skippable_frames reference_time frame st)
      else st
  end.

Definition Engine_run (configuration : Configuration_t) (interpreter : Interpreter_t)
  (start : Q) (frames : list Frame) : Loop_t :=
  let delta_time := (1 / inject_Z (cfg_fps configuration))%Q in
  let skippable_frames := cfg_skippable_frames configuration in
  let reference_time := (1 / cfg_fps_cap configuration)%Q in
  Engine_loop delta_time skippable_frames reference_time frames
    {| interpreter := interpreter; environment_fps := 0; environment_time := 0;
       fps_statics := Fps_initial FPS_AVERAGE_SAMPLES;
       running := true; previous := start; lag := 0; calls := [] |}.
End Engine.

(** ** core/engine.c in binary32 arithmetic *)

(** The loop of [engine.c] once more, with [float] as IEEE 754 binary32 and
    [double] as binary64, every operation rounding to nearest, ties to
    even, as [SpecFloat] specifies them. *)
Module Binary32.

Definition FLT_MANT_DIG : Z := 24.
Definition FLT_MAX_EXP : Z := 128.
Definition DBL_MANT_DIG : Z := 53.
Definition DBL_MAX_EXP : Z := 1024.

(** [x + y], [x - y] and [x / y] on [float]. *)
Definition fadd : spec_float → spec_float → spec_float := SFadd FLT_MANT_DIG FLT_MAX_EXP.
Definition fsub : spec_float → spec_float → spec_float := SFsub FLT_MANT_DIG FLT_MAX_EXP.
Definition fdiv : spec_float → spec_float → spec_float := SFdiv FLT_MANT_DIG FLT_MAX_EXP.
(** [x <= y] and [x < y]: false when either is a NaN. *)
Definition fle (x y : spec_float) : bool := SFleb x y.
Definition flt (x y : spec_float) : bool := SFltb x y.
(** [(float)i] for an integer [i]. *)
Definition float_of_int (i : Z) : spec_float :=
  binary_normalize FLT_MANT_DIG FLT_MAX_EXP i 0 false.
(** [x - y] on [double], and [(float)x] for a [double]. *)
Definition dsub : spec_float → spec_float → spec_float := SFsub DBL_MANT_DIG DBL_MAX_EXP.
Definition float_of_double (x : spec_float) : spec_float :=
  match x with
  | S754_finite s m e => binary_round FLT_MANT_DIG FLT_MAX_EXP s m e
  | _ => x
  end.

Definition zero : spec_float := S754_zero false.
Definition one : spec_float := float_of_int 1.

(** The three statics of [_calculate_fps]. *)
Record Fps_t := {
  samples : list spec_float;
  index : nat;
  sum : spec_float
}.

Section Fps.
Variable FPS_AVERAGE_SAMPLES : nat.

Definition Fps_initial : Fps_t :=
  {| samples := replicate FPS_AVERAGE_SAMPLES zero; index := 0%nat; sum := zero |}.

Definition _calculate_fps (st : Fps_t) (elapsed : spec_float) : spec_float * Fps_t :=
  let sum1 := fsub (sum st) (default zero (samples st !! index st)) in
  let sum2 := fadd sum1 elapsed in
  let samples' := <[index st := elapsed]> (samples st) in
  let index' := ((index st + 1) `mod` FPS_AVERAGE_SAMPLES)%nat in
  (fdiv (float_of_int (Z.of_nat FPS_AVERAGE_SAMPLES)) sum2,
   {| samples := samples'; index := index'; sum := sum2 |}).

Definition feed (st : Fps_t) (frames : list spec_float) : Fps_t :=
  fold_left (λ st elapsed, snd (_calculate_fps st elapsed)) frames st.
End Fps.

Record Configuration_t := {
  cfg_fps : Z;
  cfg_skippable_frames : nat;
  cfg_fps_cap : spec_float
}.

Inductive Call :=
| CALL_INPUT_PROCESS
| CALL_INTERPRETER_PROCESS
| CALL_INTERPRETER_UPDATE (delta_time : spec_float)
| CALL_AUDIO_UPDATE (elapsed : spec_float)
| CALL_INPUT_UPDATE (elapsed : spec_float)
| CALL_DISPLAY_UPDATE (elapsed : spec_float)
| CALL_INTERPRETER_RENDER (ratio : spec_float)
| CALL_DISPLAY_PRESENT
| CALL_WAIT_FOR (seconds : spec_float).

Definition is_update (c : Call) : bool :=
  match c with CALL_INTERPRETER_UPDATE _ => true | _ => false end.

Definition is_render (c : Call) : bool :=
  match c with CALL_INTERPRETER_RENDER _ => true | _ => false end.

(** What one turn reads from outside: [glfwGetTime()] at its start, the
    window's close flag, and [glfwGetTime()] at its end; both times are
    [double]. *)
Record Frame := {
  frame_current : spec_float;
  frame_should_close : bool;
  frame_end : spec_float
}.

Section Engine.
Variable FPS_AVERAGE_SAMPLES : nat.
Context {Interpreter_t : Type}.
Variable Interpreter_process : Interpreter_t → bool * Interpreter_t.
Variable Interpreter_update : Interpreter_t → spec_float → bool * Interpreter_t.
Variable Interpreter_render : Interpreter_t → spec_float → bool * Interpreter_t.
Variable environment_quit : Interpreter_t → bool.
(** [Environment_t] is not under [src/]: the type of its [time] field and
    what [time += delta_time] does to it are parameters. *)
Context {Time : Type}.
Variable time_add : Time → spec_float → Time.

Record Loop_t := {
  interpreter : Interpreter_t;
  environment_fps : spec_float;
  environment_time : Time;
  fps_statics : Fps_t;
  running : bool;
  previous : spec_float;        (* a [double] *)
  lag : spec_float;
  calls : list Call
}.

Definition call (c : Call) (st : Loop_t) : Loop_t :=
  {| interpreter := interpreter st; environment_fps := environment_fps st;
     environment_time := environment_time st; fps_statics := fps_statics st;
     running := running st; previous := previous st; lag := lag st;
     calls := calls st ++ [c] |}.

Definition and_then (f : Interpreter_t → bool * Interpreter_t) (c : Call)
  (st : Loop_t) : Loop_t :=
  if running st then
    let '(ok, i) := f (interpreter st) in
    {| interpreter := i; environment_fps := environment_fps st;
       environment_time := environment_time st; fps_statics := fps_statics st;
       running := ok; previous := previous st; lag := lag st;
       calls := calls st ++ [c] |}
  else st.

Definition set_clock (st : Loop_t) (current : spec_float) (fps : spec_float)
  (statics : Fps_t) : Loop_t :=
  {| interpreter := interpreter st; environment_fps := fps;
     environment_time := environment_time st; fps_statics := statics;
     running := running st; previous := current; lag := lag st;
     calls := calls st |}.

Definition set_lag (st : Loop_t) (v : spec_float) : Loop_t :=
  {| interpreter := interpreter st; environment_fps := environment_fps st;
     environment_time := environment_time st; fps_statics := fps_statics st;
     running := running st; previous := previous st; lag := v;
     calls := calls st |}.

Definition advance_time (st : Loop_t) (delta_time : spec_float) : Loop_t :=
  {| interpreter := interpreter st; environment_fps := environment_fps st;
     environment_time := time_add (environment_time st) delta_time;
     fps_statics := fps_statics st;
     running := running st; previous := previous st; lag := lag st;
     calls := calls st |}.

(** [for (size_t frames = skippable_frames; frames && (lag >= delta_time); --frames)] *)
Fixpoint fixed_updates (delta_time : spec_float) (frames : nat) (st : Loop_t) : Loop_t :=
  match frames with
  | O => st
  | S frames' =>
      if fle delta_time (lag st) then
        let st := advance_time st delta_time in
        let st := and_then (λ i, Interpreter_update i delta_time)
                           (CALL_INTERPRETER_UPDATE delta_time) st in
        let st := set_lag st (fsub (lag st) delta_time) in
        fixed_updates delta_time frames' st
      else st
  end.

Definition Engine_iteration (delta_time : spec_float) (skippable_frames : nat)
  (reference_time : spec_float) (frame : Frame) (st : Loop_t) : Loop_t :=
  let current := frame_current frame in
  let elapsed := float_of_double (dsub current (previous st)) in
  let '(fps, statics) := _calculate_fps FPS_AVERAGE_SAMPLES (fps_statics st) elapsed in
  let st := set_clock st current fps statics in
  let st := call CALL_INPUT_PROCESS st in
  let st := and_then Interpreter_process CALL_INTERPRETER_PROCESS st in
  let st := set_lag st (fadd (lag st) elapsed) in
  let st := fixed_updates delta_time skippable_frames st in
  let st := call (CALL_AUDIO_UPDATE elapsed) st in
  let st := call (CALL_INPUT_UPDATE elapsed) st in
  let st := call (CALL_DISPLAY_UPDATE elapsed) st in
  let ratio := fdiv (lag st) delta_time in
  let st := and_then (λ i, Interpreter_render i ratio)
                     (CALL_INTERPRETER_RENDER ratio) st in
  let st := call CALL_DISPLAY_PRESENT st in
  let frame_time := float_of_double (dsub (frame_end frame) current) in
  let leftover := fsub reference_time frame_time in
  if flt zero leftover then call (CALL_WAIT_FOR leftover) st else st.

Fixpoint Engine_loop (delta_time : spec_float) (skippable_frames : nat)
  (reference_time : spec_float) (frames : list Frame) (st : Loop_t) : Loop_t :=
  match frames with
  | [] => st
  | frame :: frames' =>
      if running st && negb (environment_quit (interpreter st))
         && negb (frame_should_close frame)
      then Engine_loop delta_time skippable_frames reference_time frames'
             (Engine_iteration delta_time skippable_frames reference_time frame st)
      else st
  end.

(** [time] is what the environment's clock reads when the loop starts. *)
Definition Engine_run (configuration : Configuration_t) (interpreter : Interpreter_t)
  (time : Time) (start : spec_float) (frames : list Frame) : Loop_t :=
  let delta_time := fdiv one (float_of_int (cfg_fps configuration)) in
  let skippable_frames := cfg_skippable_frames configuration in
  let reference_time := fdiv one (cfg_fps_cap configuration) in
  Engine_loop delta_time skippable_frames reference_time frames
    {| interpreter := interpreter; environment_fps := zero; environment_time := time;
       fps_statics := Fps_initial FPS_AVERAGE_SAMPLES;
       running := true; previous := start; lag := zero; calls := [] |}.
End Engine.



End Binary32.

(** [Engine_initialize] and [Engine_terminate].  The file system, the
    input, audio and scripting subsystems are known here by the outcome of
    their initialisers only. *)
Record Subsystems := {
  FS_initialize_ok : bool;
  has_configuration : bool;     (* [tofu.config] exists *)
  has_icon : bool;              (* the configured icon exists *)
  Input_initialize_ok : bool;
  Audio_initialize_ok : bool;
  Interpreter_initialize_ok : bool
}.

Section Engine_initialize.
Variable platform : Platform.
Variable subsystems : Subsystems.
Variable GL_MAX_PALETTE_COLORS : nat.
Variable GL_palette_greyscale : nat → GL_Palette_t.
Variable uninitialised : GL_Color_t.
(** What [Configuration_load] yields. *)
Variable configuration : Display_Configuration_t.
Variable title : string.

Definition FS_load (name : string) (present : bool) : M bool :=
  if present then emit (EV_ACQUIRE (RES_CHUNK name));; mret true else mret false.
Definition FS_release (name : string) (present : bool) : M unit :=
  if present then emit (EV_RELEASE (RES_CHUNK name)) else mret tt.

Definition _configure : M unit :=
  loaded ← FS_load "tofu.config" (has_configuration subsystems);
  if negb loaded then mret tt
  else emit (EV_CALL "Configuration_load");; FS_release "tofu.config" loaded.

Definition _load_icon : M bool := FS_load "icon" (has_icon subsystems).

Definition Engine_initialize (base_path : string) : M (bool * option Display_t) :=
  emit (EV_CALL "Log_initialize");;
  if negb (FS_initialize_ok subsystems) then
    Log_write LOG_LEVELS_FATAL "can't initialize I/O at path `%s`";;
    mret (false, None)
  else
  emit (EV_ACQUIRE RES_FILE_SYSTEM);;
  _configure;;
  emit (EV_CALL "Log_configure");;
  emit (EV_ACQUIRE RES_ENVIRONMENT);;
  Log_write LOG_LEVELS_INFO "version %s";;
  icon ← _load_icon;
  '(result, display) ←
    Display_initialize platform GL_MAX_PALETTE_COLORS GL_palette_greyscale
                       uninitialised configuration title;
  if negb result then
    Log_write LOG_LEVELS_FATAL "can't initialize display";;
    emit (EV_RELEASE RES_FILE_SYSTEM);;
    mret (false, Some display)
  else
  mappings ← FS_load "gamecontrollerdb.txt" true;
  (if Input_initialize_ok subsystems then emit (EV_ACQUIRE RES_INPUT) else mret tt);;
  FS_release "gamecontrollerdb.txt" mappings;;
  if negb (Input_initialize_ok subsystems) then
    Log_write LOG_LEVELS_FATAL "can't initialize input";;
    display ← Display_terminate display;
    emit (EV_RELEASE RES_FILE_SYSTEM);;
    mret (false, Some display)
  else
  if negb (Audio_initialize_ok subsystems) then
    Log_write LOG_LEVELS_FATAL "can't initialize audio";;
    emit (EV_RELEASE RES_INPUT);;
    display ← Display_terminate display;
    emit (EV_RELEASE RES_FILE_SYSTEM);;
    mret (false, Some display)
  else
  emit (EV_ACQUIRE RES_AUDIO);;
  if negb (Interpreter_initialize_ok subsystems) then
    Log_write LOG_LEVELS_FATAL "can't initialize interpreter";;
    emit (EV_RELEASE RES_AUDIO);;
    emit (EV_RELEASE RES_INPUT);;
    display ← Display_terminate display;
    emit (EV_RELEASE RES_FILE_SYSTEM);;
    mret (false, Some display)
  else
  emit (EV_ACQUIRE RES_INTERPRETER);;
  mret (true, Some display).

Definition Engine_terminate (display : Display_t) : M Display_t :=
  emit (EV_RELEASE RES_INTERPRETER);;
  emit (EV_RELEASE RES_AUDIO);;
  display ← Display_terminate display;
  emit (EV_RELEASE RES_INPUT);;
  emit (EV_RELEASE RES_ENVIRONMENT);;
  FS_release "icon" (has_icon subsystems);;
  emit (EV_RELEASE RES_FILE_SYSTEM);;
  mret display.
End Engine_initialize.


(** * Vocabulary of the properties *)

(** ** Graphics context *)

(** What [GL_context_initialize] establishes, and what drawing keeps. *)
Definition context_wf (gl : GL_Context_t) : Prop :=
  vram_rows gl = row_offsets (width gl) (height gl)
  ∧ length (vram gl) = (width gl * height gl)%nat
  ∧ Z.of_nat (width gl) < SIZE_MODULUS.

Definition surface_wf (s : GL_Surface_t) : Prop :=
  data_rows s = row_offsets (surface_width s) (surface_height s)
  ∧ length (data s) = (surface_width s * surface_height s)%nat
  ∧ Z.of_nat (surface_width s) < SIZE_MODULUS.

(** Index look-ups never leave the tables: every shifted index has a
    transparency flag and a colour. *)
Definition tables_wf (gl : GL_Context_t) : Prop :=
  Forall (λ index, 0 ≤ index < Z.of_nat (length (transparent gl))
                   ∧ 0 ≤ index < Z.of_nat (length (colors (palette gl))))
         (shifting gl).

(** A raw pixel value the shifting table has an entry for. *)
Definition pixel_ok (gl : GL_Context_t) (p : GL_Pixel_t) : Prop :=
  0 ≤ p < Z.of_nat (length (shifting gl)).

(** The tile lies inside the surface.  Its first row is looked up in the
    row table even when the tile has no row at all. *)
Definition tile_inside (s : GL_Surface_t) (tile : GL_Rectangle_t) : Prop :=
  0 ≤ rect_x tile ∧ 0 ≤ rect_y tile < Z.of_nat (surface_height s)
  ∧ rect_x tile + Z.of_nat (rect_width tile) ≤ Z.of_nat (surface_width s)
  ∧ rect_y tile + Z.of_nat (rect_height tile) ≤ Z.of_nat (surface_height s).

(** A [w] × [h] rectangle at [position] lies inside the framebuffer. *)
Definition target_inside (gl : GL_Context_t) (position : GL_Point_t) (w h : nat) : Prop :=
  0 ≤ point_x position ∧ 0 ≤ point_y position < Z.of_nat (height gl)
  ∧ point_x position + Z.of_nat w ≤ Z.of_nat (width gl)
  ∧ point_y position + Z.of_nat h ≤ Z.of_nat (height gl).

(** The framebuffer cell and the surface texel at column [x] of row [y]. *)
Definition cell (gl : GL_Context_t) (x y : Z) : option GL_Color_t :=
  load (vram gl) (Z.of_nat (width gl) * y + x).

Definition texel (s : GL_Surface_t) (x y : Z) : option GL_Pixel_t :=
  load (data s) (Z.of_nat (surface_width s) * y + x).

(** What drawing raw pixel [p] leaves in a cell that held [old]: the
    shifting table, then the transparency table, then the palette. *)
Definition drawn (gl : GL_Context_t) (p : GL_Pixel_t) (old : option GL_Color_t)
  : option GL_Color_t :=
  index ← load (shifting gl) p;
  flag ← load (transparent gl) index;
  if decide (flag ≠ 0) then old else load (colors (palette gl)) index.

(** Drawing raw pixel [P] at cell ([x], [y]) followed the resolution order:
    with [index = S[P]], the cell holds [C[index]] when [T[index]] is false
    and what it held before when [T[index]] is true. *)
Definition resolves_at (before after : GL_Context_t) (P : GL_Pixel_t) (x y : Z) : Prop :=
  ∃ index flag color,
    load (shifting before) P = Some index
    ∧ load (transparent before) index = Some flag
    ∧ load (colors (palette before)) index = Some color
    ∧ (flag = 0 → cell after x y = Some color)
    ∧ (flag ≠ 0 → cell after x y = cell before x y).

(** Every cell under the tile was drawn from the texel above it. *)
Definition tile_resolved (before after : GL_Context_t) (surface : GL_Surface_t)
  (tile : GL_Rectangle_t) (position : GL_Point_t) : Prop :=
  ∀ i j, 0 ≤ i < Z.of_nat (rect_height tile) → 0 ≤ j < Z.of_nat (rect_width tile) →
    ∃ P, texel surface (rect_x tile + j) (rect_y tile + i) = Some P
         ∧ resolves_at before after P (point_x position + j) (point_y position + i).

(** ** Display *)

(** [s] is the greatest integer scale at which a [w] × [h] canvas fits a
    [W] × [H] display. *)
Definition is_max_scale (w h W H s : Z) : Prop :=
  w * s ≤ W ∧ h * s ≤ H ∧ ∀ s', w * s' ≤ W → h * s' ≤ H → s' ≤ s.

(** The world after one more event. *)
Definition log (w : World) (e : Event) : World :=
  {| trace := trace w ++ [e]; fresh := fresh w; attached := attached w |}.

(** [m], whenever it returns, returns a value that satisfies [Q]. *)
Definition ensures {A} (m : M A) (Q : A → Prop) : Prop :=
  ∀ w x w', m w = Some (x, w') → Q x.

(** Two displays that agree on the presentation buffer and the canvas. *)
Definition same_buffer (d d' : Display_t) : Prop :=
  display_vram d' = display_vram d
  ∧ display_configuration d' = display_configuration d.

(** How often the trace allocates the presentation buffer. *)
Definition is_allocation (e : Event) : bool :=
  match e with EV_ACQUIRE RES_VRAM => true | _ => false end.

Definition allocations (w : World) : nat :=
  length (filter is_allocation (trace w)).

(** The program [glUseProgram] was last called with. *)
Definition program_in_use (w : World) : option Z :=
  last (omap (λ e, match e with EV_USE_PROGRAM id => Some id | _ => None end)
             (trace w)).

(** ** Engine *)

(** What the statics of [_calculate_fps] satisfy between two calls: the
    ring buffer has its size and the index is inside it. *)
Definition ring_wf (N : nat) (st : Binary32.Fps_t) : Prop :=
  length (Binary32.samples st) = N ∧ (Binary32.index st < N)%nat.

(** The ring buffer in age order, the oldest sample first. *)
Definition fps_window (st : Binary32.Fps_t) : list spec_float :=
  drop (Binary32.index st) (Binary32.samples st)
  ++ take (Binary32.index st) (Binary32.samples st).




(** ** Further vocabulary *)

(** The calls into the script, and the presentations. *)
Definition is_script (c : Call) : bool :=
  match c with
  | CALL_INTERPRETER_PROCESS | CALL_INTERPRETER_UPDATE _ | CALL_INTERPRETER_RENDER _ => true
  | _ => false
  end.

Definition is_present (c : Call) : bool :=
  match c with CALL_DISPLAY_PRESENT => true | _ => false end.



(** [m], run from [w], returns, and the value and the world it returns
    satisfy [Q]. *)
Definition after {A} (m : M A) (w : World) (Q : A → World → Prop) : Prop :=
  ∃ x w', m w = Some (x, w') ∧ Q x w'.

(** The names in the attachment table are names the driver has handed
    out. *)
Definition shaders_known (w : World) : Prop :=
  0 ≤ fresh w ∧ Forall (λ ps, snd ps ≤ fresh w) (attached w).

(** The resources of the engine, as opposed to those of the display. *)
Definition engine_resource (r : Resource) : Prop :=
  match r with
  | RES_FILE_SYSTEM | RES_CHUNK _ | RES_ENVIRONMENT | RES_INPUT | RES_AUDIO
  | RES_INTERPRETER => True
  | _ => False
  end.

(** The resources [Display_initialize] acquires one of and
    [Display_terminate] gives back. *)
Definition display_resource (r : Resource) : Prop :=
  match r with
  | RES_GLFW | RES_WINDOW | RES_GL_CONTEXT | RES_VRAM => True
  | _ => False
  end.

Definition fit_failure : Event :=
  EV_LOG LOG_LEVELS_FATAL "<DISPLAY> requested display size can't fit display!".

(** What [Display_initialize] leaves behind, started from [w0]. *)
Definition initialized (w0 : World) (r : bool * Display_t) (w1 : World) : Prop :=
  (∀ r', engine_resource r' → balance r' (trace w1) = balance r' (trace w0))
  ∧ (fst r = true →
     (∀ r', display_resource r' → balance r' (trace w1) = balance r' (trace w0) + 1)
     ∧ display_vram (snd r) ≠ None)
  ∧ (fst r = false →
     balance RES_GLFW (trace w1) = balance RES_GLFW (trace w0)
     ∧ balance RES_WINDOW (trace w1) = balance RES_WINDOW (trace w0)
     ∧ balance RES_VRAM (trace w1) = balance RES_VRAM (trace w0)
     ∧ (balance RES_GL_CONTEXT (trace w1) = balance RES_GL_CONTEXT (trace w0)
        ∨ (balance RES_GL_CONTEXT (trace w1) = balance RES_GL_CONTEXT (trace w0) + 1
           ∧ fit_failure ∈ trace w1))).

(** How many of engine resource [r] a running engine holds: one of each,
    and of the chunks the icon only, when there is one. *)
Definition engine_holds (subsystems : Subsystems) (r : Resource) : Z :=
  match r with
  | RES_CHUNK name =>
      if bool_decide (name = "icon") && has_icon subsystems then 1 else 0
  | _ => 1
  end.

(** What [Engine_initialize] leaves behind, started from [w0]. *)
Definition engine_initialized (subsystems : Subsystems) (w0 : World)
  (r : bool * option Display_t) (w1 : World) : Prop :=
  (fst r = true →
   FS_initialize_ok subsystems = true ∧ Input_initialize_ok subsystems = true
   ∧ Audio_initialize_ok subsystems = true
   ∧ Interpreter_initialize_ok subsystems = true
   ∧ (∀ r', engine_resource r' →
            balance r' (trace w1) = balance r' (trace w0) + engine_holds subsystems r')
   ∧ (∀ r', display_resource r' → balance r' (trace w1) = balance r' (trace w0) + 1)
   ∧ ∃ display, snd r = Some display ∧ display_vram display ≠ None)
  ∧ (fst r = false →
     balance RES_FILE_SYSTEM (trace w1) = balance RES_FILE_SYSTEM (trace w0)
     ∧ balance RES_INPUT (trace w1) = balance RES_INPUT (trace w0)
     ∧ balance RES_AUDIO (trace w1) = balance RES_AUDIO (trace w0)
     ∧ balance RES_INTERPRETER (trace w1) = balance RES_INTERPRETER (trace w0)
     ∧ balance RES_GLFW (trace w1) = balance RES_GLFW (trace w0)
     ∧ balance RES_WINDOW (trace w1) = balance RES_WINDOW (trace w0)
     ∧ balance RES_VRAM (trace w1) = balance RES_VRAM (trace w0)
     ∧ balance RES_ENVIRONMENT (trace w1)
       = balance RES_ENVIRONMENT (trace w0)
         + (if FS_initialize_ok subsystems then 1 else 0)
     ∧ balance (RES_CHUNK "icon") (trace w1)
       = balance (RES_CHUNK "icon") (trace w0)
         + (if FS_initialize_ok subsystems && has_icon subsystems then 1 else 0)).

(** ** Concrete inputs *)

Definition example_colors : list GL_Color_t :=
  [GL_Color 0 0 0 255; GL_Color 85 85 85 255;
   GL_Color 170 170 170 255; GL_Color 255 255 255 255].

(** A 3 × 2 framebuffer, all black, with palette index 0 transparent and
    indices 1 and 2 swapped by the shifting table. *)
Definition example_context : GL_Context_t := {|
  width := 3; height := 2;
  vram := replicate 6 (GL_Color 0 0 0 255);
  vram_rows := row_offsets 3 2;
  vram_size := 6;
  background := 0;
  shifting := [0; 2; 1; 3];
  transparent := [1; 0; 0; 0];
  palette := GL_Palette example_colors
|}.

Definition example_surface : GL_Surface_t :=
  GL_Surface 2 2 [0; 1; 2; 3] (row_offsets 2 2).

Definition example_greyscale (n : nat) : GL_Palette_t :=
  GL_Palette ((λ i : nat, GL_Color (Z.of_nat i) (Z.of_nat i) (Z.of_nat i) 255) <$> seq 0 n).

(** A machine on which everything works, with a 1920 × 1080 work area. *)
Definition example_platform : Platform := {|
  glfwInit_ok := true;
  glfwCreateWindow_ok := true;
  gladLoadGLLoader_ok := true;
  GL_context_create_ok := true;
  monitor_workarea := (1920, 1080);
  malloc_ok := true;
  glGenTextures_name := 1;
  glCreateProgram_ok := true;
  glCreateShader_ok := true;
  shader_compiles := λ _, true;
  program_links := λ _, true
|}.

(** The same machine, out of memory. *)
Definition platform_without_memory : Platform := {|
  glfwInit_ok := true;
  glfwCreateWindow_ok := true;
  gladLoadGLLoader_ok := true;
  GL_context_create_ok := true;
  monitor_workarea := (1920, 1080);
  malloc_ok := false;
  glGenTextures_name := 1;
  glCreateProgram_ok := true;
  glCreateShader_ok := true;
  shader_compiles := λ _, true;
  program_links := λ _, true
|}.

Definition broken_effect : string := "vec4 effect(".

Definition working_effect : string :=
  "vec4 effect(vec4 color, sampler2D texture, vec2 texture_coords, vec2 screen_coords) { return color; }".

(** The same machine again, with a compiler that rejects [broken_effect]. *)
Definition platform_with_compiler : Platform := {|
  glfwInit_ok := true;
  glfwCreateWindow_ok := true;
  gladLoadGLLoader_ok := true;
  GL_context_create_ok := true;
  monitor_workarea := (1920, 1080);
  malloc_ok := true;
  glGenTextures_name := 1;
  glCreateProgram_ok := true;
  glCreateShader_ok := true;
  shader_compiles := λ code,
    negb (String.eqb code (FRAGMENT_SHADER_CUSTOM +:+ broken_effect));
  program_links := λ _, true
|}.

Definition example_configuration (w h scale : Z) : Display_Configuration_t := {|
  cfg_width := w; cfg_height := h;
  cfg_fullscreen := false; cfg_vertical_sync := true;
  cfg_scale := scale; cfg_hide_cursor := false
|}.

Definition example_subsystems : Subsystems := {|
  FS_initialize_ok := true;
  has_configuration := true;
  has_icon := true;
  Input_initialize_ok := true;
  Audio_initialize_ok := true;
  Interpreter_initialize_ok := true
|}.

(** [Display_initialize] on a platform, for a canvas and a requested scale. *)
Definition example_initialize (platform : Platform) (w h scale : Z)
  : M (bool * Display_t) :=
  Display_initialize platform 4 example_greyscale (GL_Color 0 0 0 0)
                     (example_configuration w h scale) "zest".

(** A display is brought up, a custom effect is loaded, and then one that
    does not compile is requested.  The displays before and after that
    last request are returned. *)
Definition custom_then_broken : M (Display_t * Display_t) :=
  '(_, display) ← example_initialize platform_with_compiler 8 6 0;
  before ← Display_shader platform_with_compiler display (Some working_effect);
  after ← Display_shader platform_with_compiler before (Some broken_effect);
  mret (before, after).

(** The same, without the custom effect in between: the pass-through
    program is the active one when the broken effect is requested. *)
Definition passthru_then_broken : M (Display_t * Display_t) :=
  '(_, before) ← example_initialize platform_with_compiler 8 6 0;
  after ← Display_shader platform_with_compiler before (Some broken_effect);
  mret (before, after).

(** A display is brought up and a first frame is presented. *)
Definition initialize_then_present (w h : Z) : M (bool * Display_t) :=
  '(ok, display) ← example_initialize example_platform w h 0;
  display ← Display_present display;
  mret (ok, display).

(** What is read off a finished run: the result, the length of the
    presentation buffer, and how often it was allocated. *)
Definition buffer_report (r : option (bool * Display_t * World))
  : option (bool * option nat * nat) :=
  (λ '(ok, display, w), (ok, length <$> display_vram display, allocations w)) <$> r.

(** The result and which of GLFW, the window and the context are live. *)
Definition resource_report (r : option (bool * Display_t * World))
  : option (bool * bool * bool * bool * bool) :=
  (λ '(ok, display, w),
     (ok, bool_decide (display_vram display = None),
      live RES_GLFW w, live RES_WINDOW w, live RES_GL_CONTEXT w)) <$> r.

Definition script_continue_at (i : unit) (t : Q) : bool * unit := (true, i).

Definition example_loop (lag : Q) : @Loop_t unit := {|
  interpreter := tt;
  environment_fps := 0; environment_time := 0;
  fps_statics := Fps_initial 2;
  running := true; previous := 0; lag := lag; calls := []
|}.

(** One late frame: the clock reads 3 seconds when the first turn starts. *)
Definition late_frame : Frame :=
  {| frame_current := 3; frame_should_close := false; frame_end := 3 |}.


(** [Engine_initialize] on a platform, every other subsystem being fine. *)
Definition example_engine_initialize (platform : Platform)
  : M (bool * option Display_t) :=
  Engine_initialize platform example_subsystems 4 example_greyscale
                    (GL_Color 0 0 0 0) (example_configuration 8 6 0) "zest" ".".

(** What is read off a shader scenario: the program that was active before
    the last request, the one that is active after it, the program the
    driver was last told to use, and whether the program that was active
    before is still live. *)
Definition shader_report (r : option (Display_t * Display_t * World))
  : option (option GL_Program_t * option GL_Program_t * option Z * option bool) :=
  (λ '(before, after, w),
     (active before, active after, program_in_use w,
      (λ p, live (RES_PROGRAM (program_id p)) w) <$> active before)) <$> r.

(** A script whose per-frame processing answers "stop". *)
Definition script_stop (i : unit) : bool * unit := (false, i).

(** A display with no program loaded, the pass-through one being the
    active one. *)
Definition example_display : Display_t :=
  set_active_program (Display_zero (example_configuration 8 6 0))
                     (Some DISPLAY_PROGRAM_PASSTHRU).

(** [example_context] after [example_surface] has been drawn at (1, 0). *)
Definition example_context_drawn : GL_Context_t :=
  set_vram example_context
    [GL_Color 0 0 0 255; GL_Color 0 0 0 255; GL_Color 170 170 170 255;
     GL_Color 0 0 0 255; GL_Color 85 85 85 255; GL_Color 255 255 255 255].

(** ** Binary32 inputs *)

(** A stall of 2^24 seconds. *)
Definition stall : spec_float := Binary32.float_of_int 16777216.






(** * Properties *)

(** ** Flat memory *)

Section Memory_facts.
Context {A : Type}.
Implicit Types (m : list A) (off : Z) (v : A).

Lemma load_Some m off v :
  load m off = Some v ↔ 0 ≤ off ∧ m !! Z.to_nat off = Some v.
Proof.
  unfold load. destruct (decide (0 ≤ off)) as [Hoff|Hoff].
  - tauto.
  - split; [done | intros [? _]; lia].
Qed.

Lemma load_is_Some m off :
  is_Some (load m off) ↔ 0 ≤ off < Z.of_nat (length m).
Proof.
  unfold load. case_decide.
  - rewrite lookup_lt_is_Some. lia.
  - split; [intros [? ?]; discriminate | lia].
Qed.

Lemma store_Some m off v :
  0 ≤ off < Z.of_nat (length m) →
  store m off v = Some (<[Z.to_nat off := v]> m).
Proof. intros. unfold store. by rewrite decide_True. Qed.

Lemma store_inv m off v m' :
  store m off v = Some m' →
  0 ≤ off < Z.of_nat (length m) ∧ m' = <[Z.to_nat off := v]> m.
Proof.
  unfold store. destruct (decide _) as [Hoff|Hoff]; [|done].
  intros [= <-]. done.
Qed.

Lemma store_length m off v m' :
  store m off v = Some m' → length m' = length m.
Proof. intros [_ ->]%store_inv. apply length_insert. Qed.

Lemma load_store_same m off v m' :
  store m off v = Some m' → load m' off = Some v.
Proof.
  intros [Hr ->]%store_inv. apply load_Some. split; [lia|].
  apply list_lookup_insert_eq. lia.
Qed.

Lemma load_store_other m off v m' off' :
  store m off v = Some m' → off' ≠ off → load m' off' = load m off'.
Proof.
  intros [Hr ->]%store_inv Hne. unfold load. case_decide; [|done].
  apply list_lookup_insert_ne. lia.
Qed.
End Memory_facts.

Lemma row_offsets_load w h (y : Z) :
  0 ≤ y < Z.of_nat h → load (row_offsets w h) y = Some (Z.of_nat w * y).
Proof.
  intros Hy. apply load_Some. split; [lia|].
  unfold row_offsets. rewrite list_lookup_fmap.
  rewrite lookup_seq_lt by lia. simpl. f_equal. lia.
Qed.

Lemma row_offsets_load_inv w h (y row : Z) :
  load (row_offsets w h) y = Some row → 0 ≤ y < Z.of_nat h ∧ row = Z.of_nat w * y.
Proof.
  intros H. assert (0 ≤ y < Z.of_nat h) as Hrange.
  { assert (is_Some (load (row_offsets w h) y)) as Hs by eauto.
    apply load_is_Some in Hs. unfold row_offsets in Hs.
    rewrite length_fmap, length_seq in Hs. done. }
  rewrite row_offsets_load in H by done. injection H as <-. done.
Qed.

Lemma size_mul_small (a b : Z) : 0 ≤ a → 0 ≤ b → a * b < SIZE_MODULUS → size_mul a b = a * b.
Proof. intros. unfold size_mul. apply Z.mod_small. nia. Qed.

(** [GL_context_initialize] hands over a well-formed context, with tables
    that cover the whole palette, when the sizes it computes do not wrap. *)
Lemma GL_context_initialize_wf N greyscale uninitialised (w h : nat) gl :
  Z.of_nat w < SIZE_MODULUS →
  Z.of_nat w * Z.of_nat h * SIZEOF_GL_COLOR < SIZE_MODULUS →
  Z.of_nat h * SIZEOF_POINTER < SIZE_MODULUS →
  length (colors (greyscale N)) = N →
  GL_context_initialize N greyscale uninitialised true true w h = Some (Some gl) →
  context_wf gl ∧ tables_wf gl ∧ vram_size gl = length (vram gl)
  ∧ ∀ p, 0 ≤ p < Z.of_nat N → pixel_ok gl p.
Proof.
  intros Hw Hwh Hh Hpalette. unfold GL_context_initialize. cbn [negb].
  unfold SIZEOF_GL_COLOR, SIZEOF_POINTER in *.
  rewrite (size_mul_small (Z.of_nat h) 8) by lia.
  rewrite Z.div_mul by lia. rewrite decide_False by lia.
  rewrite (size_mul_small (Z.of_nat w) (Z.of_nat h)) by lia.
  rewrite (size_mul_small (Z.of_nat w * Z.of_nat h) 4) by lia.
  rewrite Z.div_mul by lia.
  intros [= <-].
  assert (Z.to_nat (Z.of_nat w * Z.of_nat h) = (w * h)%nat) as Hcells by lia.
  split; [|split; [|split]].
  - unfold context_wf. cbn. rewrite length_replicate. split; [|done].
    unfold row_offsets. apply list_fmap_ext. intros i j Hj.
    apply lookup_seq in Hj as [-> Hj]. cbn. rewrite size_mul_small by nia. lia.
  - unfold tables_wf. cbn. rewrite length_insert, length_fmap, length_fmap.
    rewrite length_seq, Hpalette. apply Forall_fmap, Forall_seq.
    intros i Hi. cbn. lia.
  - cbn. by rewrite length_replicate.
  - intros p Hp. unfold pixel_ok. cbn. by rewrite length_fmap, length_seq.
Qed.

Lemma size_sub_le (a b : nat) :
  (b ≤ a)%nat → Z.of_nat a < SIZE_MODULUS → size_sub a b = Z.of_nat a - Z.of_nat b.
Proof. intros. unfold size_sub. apply Z.mod_small. lia. Qed.

Lemma tables_wf_lookup gl p :
  tables_wf gl → pixel_ok gl p →
  ∃ index flag color,
    load (shifting gl) p = Some index
    ∧ load (transparent gl) index = Some flag
    ∧ load (colors (palette gl)) index = Some color.
Proof.
  intros Ht Hp.
  destruct (proj2 (load_is_Some (shifting gl) p) Hp) as [index Hi].
  assert (index ∈ shifting gl) as Hin.
  { apply load_Some in Hi as [_ Hi]. by eapply list_elem_of_lookup_2. }
  unfold tables_wf in Ht. rewrite Forall_forall in Ht.
  destruct (Ht _ Hin) as [H1 H2].
  destruct (proj2 (load_is_Some _ _) H1) as [flag Hf].
  destruct (proj2 (load_is_Some _ _) H2) as [color Hc].
  eauto 10.
Qed.

(** ** The blit loops *)

Section Blit.
Variables (context : GL_Context_t) (surface : GL_Surface_t).
Hypothesis tables : tables_wf context.
Hypothesis pixels : Forall (pixel_ok context) (data surface).

Lemma drawn_defined p old :
  pixel_ok context p → is_Some old → is_Some (drawn context p old).
Proof.
  intros Hp Ho.
  destruct (tables_wf_lookup _ _ tables Hp) as (index & flag & color & Hi & Hf & Hc).
  unfold drawn. rewrite Hi. cbn [mbind option_bind]. rewrite Hf.
  cbn [mbind option_bind].
  destruct (decide (flag ≠ 0)); [done | rewrite Hc; eauto].
Qed.

Lemma data_pixel_ok src p : load (data surface) src = Some p → pixel_ok context p.
Proof.
  intros [_ H]%load_Some. rewrite Forall_forall in pixels.
  apply pixels. by eapply list_elem_of_lookup_2.
Qed.

(** One tile row: the run [dst .. dst + n) is redrawn from the run
    [src .. src + n), and nothing else changes. *)
Lemma blit_columns_spec (n : nat) : ∀ (src dst : Z) (m : list GL_Color_t),
  0 ≤ src → src + Z.of_nat n ≤ Z.of_nat (length (data surface)) →
  0 ≤ dst → dst + Z.of_nat n ≤ Z.of_nat (length m) →
  ∃ m',
    blit_columns context surface n src dst m
      = Some (src + Z.of_nat n, dst + Z.of_nat n, m')
    ∧ length m' = length m
    ∧ (∀ off, ¬ (dst ≤ off < dst + Z.of_nat n) → load m' off = load m off)
    ∧ (∀ j, 0 ≤ j < Z.of_nat n →
         ∃ p, load (data surface) (src + j) = Some p
              ∧ load m' (dst + j) = drawn context p (load m (dst + j))).
Proof.
  induction n as [|n IH]; intros src dst m Hs0 Hs1 Hd0 Hd1.
  - exists m. simpl. rewrite !Z.add_0_r. repeat split. intros; lia.
  - cbn [blit_columns].
    destruct (proj2 (load_is_Some (data surface) src)) as [p Hp]; [lia|].
    pose proof (data_pixel_ok _ _ Hp) as Hok.
    destruct (tables_wf_lookup _ _ tables Hok)
      as (index & flag & color & Hi & Hf & Hc).
    rewrite Hp. cbn [mbind option_bind]. rewrite Hi. cbn [mbind option_bind].
    rewrite Hf. cbn [mbind option_bind].
    assert (∀ p' old, p' = p → drawn context p' old
              = if decide (flag ≠ 0) then old else Some color) as Hdrawn.
    { intros p' old ->. unfold drawn. rewrite Hi. cbn. rewrite Hf. cbn.
      by rewrite Hc. }
    destruct (decide (flag ≠ 0)) as [Hflag|Hflag].
    + destruct (IH (src + 1) (dst + 1) m) as (m' & Hrun & Hlen & Hout & Hin);
        [lia..|].
      exists m'. rewrite Hrun. repeat split.
      * replace (src + Z.of_nat (S n)) with (src + 1 + Z.of_nat n) by lia.
        by replace (dst + Z.of_nat (S n)) with (dst + 1 + Z.of_nat n) by lia.
      * done.
      * intros off Hoff. apply Hout. lia.
      * intros j Hj. destruct (decide (j = 0)) as [->|Hne].
        -- exists p. rewrite !Z.add_0_r. split; [done|].
           rewrite Hdrawn by done. apply Hout. lia.
        -- destruct (Hin (j - 1)) as (p' & Hp' & Hcell); [lia|].
           exists p'. replace (src + j) with (src + 1 + (j - 1)) by lia.
           replace (dst + j) with (dst + 1 + (j - 1)) by lia. done.
    + rewrite Hc. cbn [mbind option_bind].
      rewrite store_Some by lia. cbn [mbind option_bind].
      set (m1 := <[Z.to_nat dst := color]> m).
      assert (store m dst color = Some m1) as Hstore
        by (apply store_Some; lia).
      assert (length m1 = length m) as Hlen1 by apply length_insert.
      destruct (IH (src + 1) (dst + 1) m1) as (m' & Hrun & Hlen & Hout & Hin);
        [lia..|].
      exists m'. rewrite Hrun. repeat split.
      * replace (src + Z.of_nat (S n)) with (src + 1 + Z.of_nat n) by lia.
        by replace (dst + Z.of_nat (S n)) with (dst + 1 + Z.of_nat n) by lia.
      * lia.
      * intros off Hoff. rewrite Hout by lia.
        eapply load_store_other; [done|lia].
      * intros j Hj. destruct (decide (j = 0)) as [->|Hne].
        -- exists p. rewrite !Z.add_0_r. split; [done|].
           rewrite Hdrawn by done. rewrite Hout by lia.
           by eapply load_store_same.
        -- destruct (Hin (j - 1)) as (p' & Hp' & Hcell); [lia|].
           exists p'. replace (src + j) with (src + 1 + (j - 1)) by lia.
           replace (dst + j) with (dst + 1 + (j - 1)) by lia.
           split; [done|]. rewrite Hcell. f_equal.
           eapply load_store_other; [done|lia].
Qed.

(** All the tile rows: row [r] of the tile lands on the run that starts
    [r] framebuffer rows below [dst]. *)
Lemma blit_rows_spec (tw : nat) (SW W : Z) (rows : nat) :
  ∀ (src dst : Z) (m : list GL_Color_t),
  Z.of_nat tw ≤ SW → Z.of_nat tw ≤ W → 0 ≤ src → 0 ≤ dst →
  (∀ r, 0 ≤ r < Z.of_nat rows →
     src + r * SW + Z.of_nat tw ≤ Z.of_nat (length (data surface))) →
  (∀ r, 0 ≤ r < Z.of_nat rows →
     dst + r * W + Z.of_nat tw ≤ Z.of_nat (length m)) →
  ∃ m',
    blit_rows context surface tw (SW - Z.of_nat tw) (W - Z.of_nat tw)
              rows src dst m = Some m'
    ∧ length m' = length m
    ∧ (∀ off,
         (∀ r, 0 ≤ r < Z.of_nat rows →
            ¬ (dst + r * W ≤ off < dst + r * W + Z.of_nat tw)) →
         load m' off = load m off)
    ∧ (∀ r j, 0 ≤ r < Z.of_nat rows → 0 ≤ j < Z.of_nat tw →
         ∃ p, load (data surface) (src + r * SW + j) = Some p
              ∧ load m' (dst + r * W + j)
                = drawn context p (load m (dst + r * W + j))).
Proof.
  induction rows as [|rows IH]; intros src dst m Hsw Hw Hs0 Hd0 Hsrc Hdst.
  - exists m. simpl. repeat split. intros; lia.
  - cbn [blit_rows].
    destruct (blit_columns_spec tw src dst m) as (m1 & Hrun & Hlen1 & Hout1 & Hin1).
    { done. } { specialize (Hsrc 0). lia. } { done. } { specialize (Hdst 0). lia. }
    rewrite Hrun. cbn [mbind option_bind].
    replace (src + Z.of_nat tw + (SW - Z.of_nat tw)) with (src + SW) by lia.
    replace (dst + Z.of_nat tw + (W - Z.of_nat tw)) with (dst + W) by lia.
    destruct (IH (src + SW) (dst + W) m1) as (m' & Hrows & Hlen & Hout & Hin).
    { done. } { done. } { lia. } { lia. }
    { intros r Hr. specialize (Hsrc (r + 1)). lia. }
    { intros r Hr. specialize (Hdst (r + 1)). lia. }
    exists m'. rewrite Hrows. repeat split.
    + lia.
    + intros off Hoff. rewrite Hout.
      * apply Hout1. specialize (Hoff 0). lia.
      * intros r Hr. specialize (Hoff (r + 1)). lia.
    + intros r j Hr Hj. destruct (decide (r = 0)) as [->|Hne].
      * destruct (Hin1 j Hj) as (p & Hp & Hcell). exists p.
        replace (src + 0 * SW + j) with (src + j) by lia.
        replace (dst + 0 * W + j) with (dst + j) by lia.
        split; [done|]. rewrite Hout; [done|].
        intros r' Hr'. assert (0 ≤ r' * W) by (apply Z.mul_nonneg_nonneg; lia).
        lia.
      * destruct (Hin (r - 1) j) as (p & Hp & Hcell); [lia..|]. exists p.
        replace (src + r * SW + j) with (src + SW + (r - 1) * SW + j) by lia.
        replace (dst + r * W + j) with (dst + W + (r - 1) * W + j) by lia.
        split; [done|]. rewrite Hcell. f_equal. apply Hout1.
        assert (0 ≤ (r - 1) * W) by (apply Z.mul_nonneg_nonneg; lia). lia.
Qed.

(** The two blit paths run the same loops. *)
Lemma blit_fast_columns_eq n src dst m :
  blit_fast_columns context surface n src dst m
  = blit_columns context surface n src dst m.
Proof.
  revert src dst m. induction n as [|n IH]; intros src dst m; [done|].
  cbn [blit_fast_columns blit_columns].
  destruct (load (data surface) src) as [p|]; [|done]. cbn [mbind option_bind].
  destruct (load (shifting context) p) as [index|]; [|done]. cbn [mbind option_bind].
  destruct (load (transparent context) index) as [flag|]; [|done].
  cbn [mbind option_bind].
  destruct (decide (flag ≠ 0)); [apply IH|].
  destruct (load (colors (palette context)) index) as [color|]; [|done].
  cbn [mbind option_bind].
  destruct (store m dst color) as [m'|]; [|done]. apply IH.
Qed.

Lemma blit_fast_rows_eq tw src_skip dst_skip n src dst m :
  blit_fast_rows context surface tw src_skip dst_skip n src dst m
  = blit_rows context surface tw src_skip dst_skip n src dst m.
Proof.
  revert src dst m. induction n as [|n IH]; intros src dst m; [done|].
  cbn [blit_fast_rows blit_rows]. rewrite blit_fast_columns_eq.
  destruct (blit_columns context surface tw src dst m) as [[[src' dst'] m']|];
    [|done].
  apply IH.
Qed.
End Blit.

Lemma drawn_resolves before after P x y :
  tables_wf before → pixel_ok before P →
  cell after x y = drawn before P (cell before x y) →
  resolves_at before after P x y.
Proof.
  intros Ht Hp Hcell.
  destruct (tables_wf_lookup _ _ Ht Hp) as (index & flag & color & Hi & Hf & Hc).
  exists index, flag, color. repeat split; try done.
  - intros ->. rewrite Hcell. unfold drawn. rewrite Hi. cbn [mbind option_bind].
    rewrite Hf. cbn [mbind option_bind]. by rewrite decide_False by lia.
  - intros Hne. rewrite Hcell. unfold drawn. rewrite Hi. cbn [mbind option_bind].
    rewrite Hf. cbn [mbind option_bind]. by rewrite decide_True.
Qed.

Lemma rectangle_fits (w h x y tw : Z) (r : Z) :
  0 ≤ x → 0 ≤ y → x + tw ≤ w → 0 ≤ r → y + r + 1 ≤ h → 0 ≤ tw →
  w * y + x + r * w + tw ≤ w * h.
Proof.
  intros. assert (w * (y + r + 1) ≤ w * h) by (apply Z.mul_le_mono_nonneg_l; lia).
  lia.
Qed.

Lemma offset_inj (w x y x' y' : Z) :
  0 ≤ x < w → 0 ≤ x' < w → w * y + x = w * y' + x' → x = x' ∧ y = y'.
Proof.
  intros Hx Hx' Heq.
  assert (y = y') as ->; [|lia].
  destruct (Z.lt_trichotomy y y') as [Hlt|[->|Hgt]]; [exfalso|done|exfalso].
  - assert (w * (y + 1) ≤ w * y') by (apply Z.mul_le_mono_nonneg_l; lia). lia.
  - assert (w * (y' + 1) ≤ w * y) by (apply Z.mul_le_mono_nonneg_l; lia). lia.
Qed.

Lemma run_offset (w x y px py n : Z) :
  0 ≤ x < w → 0 ≤ px → px + n ≤ w →
  w * py + px ≤ w * y + x < w * py + px + n →
  px ≤ x < px + n ∧ y = py.
Proof.
  intros Hx Hpx Hn Hrun.
  assert (y = py) as ->; [|lia].
  destruct (Z.lt_trichotomy y py) as [Hlt|[->|Hgt]]; [exfalso|done|exfalso].
  - assert (w * (y + 1) ≤ w * py) by (apply Z.mul_le_mono_nonneg_l; lia). lia.
  - assert (w * (py + 1) ≤ w * y) by (apply Z.mul_le_mono_nonneg_l; lia). lia.
Qed.

Lemma GL_context_blit_spec context surface tile position scale rotation :
  context_wf context → surface_wf surface → tables_wf context →
  Forall (pixel_ok context) (data surface) →
  tile_inside surface tile →
  target_inside context position (rect_width tile) (rect_height tile) →
  ∃ after,
    GL_context_blit context surface tile position scale rotation = Some after
    ∧ context_wf after
    ∧ shifting after = shifting context
    ∧ transparent after = transparent context
    ∧ palette after = palette context
    ∧ (∀ i j, 0 ≤ i < Z.of_nat (rect_height tile) →
              0 ≤ j < Z.of_nat (rect_width tile) →
         ∃ P, texel surface (rect_x tile + j) (rect_y tile + i) = Some P
              ∧ cell after (point_x position + j) (point_y position + i)
                = drawn context P
                    (cell context (point_x position + j) (point_y position + i)))
    ∧ (∀ x y, ¬ (point_x position ≤ x < point_x position + Z.of_nat (rect_width tile)
                 ∧ point_y position ≤ y < point_y position + Z.of_nat (rect_height tile)) →
              0 ≤ x < Z.of_nat (width context) →
              cell after x y = cell context x y).
Proof.
  intros (Hrows & Hlen & Hmax) (Hsrows & Hslen & Hsmax) Ht Hpix
         (Htx & Hty & Htw & Hth) (Hpx & Hpy & Hpw & Hph).
  unfold GL_context_blit.
  rewrite Hsrows, row_offsets_load by lia. cbn [mbind option_bind].
  rewrite Hrows, row_offsets_load by lia. cbn [mbind option_bind].
  rewrite !size_sub_le by lia.
  destruct (blit_rows_spec context surface Ht Hpix (rect_width tile)
              (Z.of_nat (surface_width surface)) (Z.of_nat (width context))
              (rect_height tile)
              (Z.of_nat (surface_width surface) * rect_y tile + rect_x tile)
              (Z.of_nat (width context) * point_y position + point_x position)
              (vram context))
    as (m' & Hrun & Hlen' & Hout & Hin).
  { lia. } { lia. } { nia. } { nia. }
  { intros r Hr. rewrite Hslen, Nat2Z.inj_mul. apply rectangle_fits; lia. }
  { intros r Hr. rewrite Hlen, Nat2Z.inj_mul. apply rectangle_fits; lia. }
  rewrite Hrun. cbn [mbind option_bind]. eexists. split; [done|].
  repeat split; try done.
  - simpl. lia.
  - intros i j Hi Hj. destruct (Hin i j Hi Hj) as (P & HP & Hcell).
    exists P. unfold texel, cell. simpl. split.
    + rewrite <- HP. f_equal. lia.
    + match goal with |- load m' ?a = drawn _ _ (load _ ?b) =>
        replace a with (Z.of_nat (width context) * point_y position
                        + point_x position + i * Z.of_nat (width context) + j) by lia
      end.
      done.
  - intros x y Hxy Hx. unfold cell. simpl. apply Hout.
    intros r Hr Hoff. apply Hxy.
    assert (y = point_y position + r) as -> by nia. lia.
Qed.

Lemma blit_paths_agree context surface tile position scale rotation :
  GL_context_blit context surface tile position scale rotation
  = GL_context_blit_fast context surface tile position.
Proof.
  unfold GL_context_blit, GL_context_blit_fast.
  destruct (load (data_rows surface) (rect_y tile)) as [src_row|]; [|done].
  destruct (load (vram_rows context) (point_y position)) as [dst_row|]; [|done].
  cbn [mbind option_bind]. by rewrite <- blit_fast_rows_eq.
Qed.

(** ** Primitives *)

Lemma GL_primitive_point_spec gl position color :
  context_wf gl → tables_wf gl → pixel_ok gl color →
  target_inside gl position 1 1 →
  ∃ after,
    GL_primitive_point gl position color = Some after
    ∧ cell after (point_x position) (point_y position)
      = drawn gl color (cell gl (point_x position) (point_y position))
    ∧ (∀ x y, ¬ (x = point_x position ∧ y = point_y position) →
              0 ≤ x < Z.of_nat (width gl) → cell after x y = cell gl x y).
Proof.
  intros (Hrows & Hlen & Hmax) Ht Hp (Hpx & Hpy & Hpw & Hph).
  destruct (tables_wf_lookup _ _ Ht Hp) as (index & flag & color' & Hi & Hf & Hc).
  unfold GL_primitive_point, drawn. cbn [GL_is_visible negb].
  rewrite Hi. cbn [mbind option_bind]. rewrite Hf. cbn [mbind option_bind].
  destruct (decide (flag ≠ 0)).
  - exists gl. done.
  - rewrite Hc. cbn [mbind option_bind].
    rewrite Hrows, row_offsets_load by lia. cbn [mbind option_bind].
    assert (0 ≤ Z.of_nat (width gl) * point_y position + point_x position
            < Z.of_nat (length (vram gl))) as Hin.
    { rewrite Hlen, Nat2Z.inj_mul. nia. }
    pose proof (store_Some (vram gl) _ color' Hin) as Hstore.
    rewrite Hstore. cbn [mbind option_bind]. eexists. split; [done|]. split.
    + unfold cell. simpl. by eapply load_store_same.
    + intros x y Hxy Hx. unfold cell. simpl.
      eapply load_store_other; [done|]. intros Heq. apply Hxy.
      apply (offset_inj (Z.of_nat (width gl))); [lia..|done].
Qed.

Lemma hline_loop_spec (n : nat) rgba : ∀ (dst : Z) (m : list GL_Color_t),
  0 ≤ dst → dst + Z.of_nat n ≤ Z.of_nat (length m) →
  ∃ m',
    hline_loop n dst rgba m = Some m'
    ∧ length m' = length m
    ∧ (∀ off, dst ≤ off < dst + Z.of_nat n → load m' off = Some rgba)
    ∧ (∀ off, ¬ (dst ≤ off < dst + Z.of_nat n) → load m' off = load m off).
Proof.
  induction n as [|n IH]; intros dst m Hd0 Hd1.
  - exists m. simpl. repeat split. intros; lia.
  - cbn [hline_loop].
    assert (store m dst rgba = Some (<[Z.to_nat dst := rgba]> m)) as Hstore
      by (apply store_Some; lia).
    rewrite Hstore. cbn [mbind option_bind].
    destruct (IH (dst + 1) (<[Z.to_nat dst := rgba]> m))
      as (m' & Hrun & Hlen & Hin & Hout); [lia | rewrite length_insert; lia |].
    exists m'. rewrite Hrun. repeat split.
    + rewrite Hlen. apply length_insert.
    + intros off Hoff. destruct (decide (off = dst)) as [->|Hne].
      * rewrite Hout by lia. by eapply load_store_same.
      * apply Hin. lia.
    + intros off Hoff. rewrite Hout by lia.
      eapply load_store_other; [done|lia].
Qed.

(** A horizontal run: [w] consecutive cells of row [origin.y] from column
    [origin.x] take the resolved colour, every other cell keeps its own. *)
Lemma GL_primitive_hline_spec gl origin (w : nat) color index rgba :
  context_wf gl →
  load (shifting gl) color = Some index →
  load (transparent gl) index = Some 0 →
  load (colors (palette gl)) index = Some rgba →
  target_inside gl origin w 1 →
  ∃ after,
    GL_primitive_hline gl origin w color = Some after
    ∧ (∀ x, point_x origin ≤ x < point_x origin + Z.of_nat w →
            cell after x (point_y origin) = Some rgba)
    ∧ (∀ x y, ¬ (point_x origin ≤ x < point_x origin + Z.of_nat w
                 ∧ y = point_y origin) →
              0 ≤ x < Z.of_nat (width gl) → cell after x y = cell gl x y).
Proof.
  intros (Hrows & Hlen & Hmax) Hi Hf Hc (Hpx & Hpy & Hpw & Hph).
  unfold GL_primitive_hline. cbn [GL_is_visible negb].
  rewrite Hi. cbn [mbind option_bind]. rewrite Hf. cbn [mbind option_bind].
  rewrite decide_False by lia. rewrite Hc. cbn [mbind option_bind].
  rewrite Hrows, row_offsets_load by lia. cbn [mbind option_bind].
  destruct (hline_loop_spec w rgba
              (Z.of_nat (width gl) * point_y origin + point_x origin) (vram gl))
    as (m' & Hrun & Hlen' & Hin & Hout).
  { nia. } { rewrite Hlen, Nat2Z.inj_mul. nia. }
  rewrite Hrun. cbn [mbind option_bind]. eexists. split; [done|]. split.
  - intros x Hx. unfold cell. simpl. apply Hin. lia.
  - intros x y Hxy Hx. unfold cell. simpl. apply Hout. intros Hoff.
    apply Hxy. eapply run_offset; [done..|]. lia.
Qed.

(** The loop of [GL_primitive_vline] stores to one and the same cell at
    every turn: a vertical line of any positive height is a single point. *)
Lemma vline_loop_once (n : nat) gl origin rgba row m :
  load (vram_rows gl) (point_y origin) = Some row →
  vline_loop (S n) gl origin rgba m = store m (row + point_x origin) rgba.
Proof.
  intros Hrow. cbn [vline_loop]. rewrite Hrow. cbn [mbind option_bind].
  destruct (store m (row + point_x origin) rgba) as [m1|] eqn:Hstore; [|done].
  cbn [mbind option_bind].
  assert (∀ k, vline_loop k gl origin rgba m1 = Some m1) as Hfix; [|apply Hfix].
  apply store_inv in Hstore as [Hr ->].
  induction k as [|k IH]; [done|].
  cbn [vline_loop]. rewrite Hrow. cbn [mbind option_bind].
  rewrite store_Some by (rewrite length_insert; lia). cbn [mbind option_bind].
  rewrite list_insert_insert_eq. apply IH.
Qed.

Lemma GL_primitive_vline_is_point gl origin (h : nat) color :
  GL_primitive_vline gl origin (S h) color = GL_primitive_point gl origin color.
Proof.
  unfold GL_primitive_vline, GL_primitive_point. cbn [GL_is_visible negb].
  destruct (load (shifting gl) color) as [index|]; [|done]. cbn [mbind option_bind].
  destruct (load (transparent gl) index) as [flag|]; [|done]. cbn [mbind option_bind].
  destruct (decide (flag ≠ 0)); [done|].
  destruct (load (colors (palette gl)) index) as [rgba|]; [|done].
  cbn [mbind option_bind].
  destruct (load (vram_rows gl) (point_y origin)) as [row|] eqn:Hrow.
  - by rewrite (vline_loop_once h gl origin rgba row).
  - cbn [vline_loop mbind option_bind]. by rewrite Hrow.
Qed.

(** C10.  For every context, surface, tile and position, [GL_context_blit],
    whatever scale and rotation it is given, returns exactly what
    [GL_context_blit_fast] returns on the same inputs: the same framebuffer
    when the blit is defined, and undefined together. *)
Theorem GL_context_blit_ignores_scale_and_rotation
  (context : GL_Context_t) (surface : GL_Surface_t) (tile : GL_Rectangle_t)
  (position : GL_Point_t) (scale rotation : float) :
  GL_context_blit context surface tile position scale rotation
  = GL_context_blit_fast context surface tile position.
Proof.
  unfold GL_context_blit, GL_context_blit_fast.
  destruct (load (data_rows surface) (rect_y tile)) as [src_row|]; [|done].
  destruct (load (vram_rows context) (point_y position)) as [dst_row|]; [|done].
  cbn [mbind option_bind].
  rewrite <- (blit_fast_rows_eq context surface (rect_width tile)).
  done.
Qed.

(** C1.  Shifting, then transparency, then palette.  For a well-formed
    context and surface whose look-ups stay inside the tables, a tile inside
    the surface, a target inside the framebuffer and a point inside it:
    [GL_context_blit], [GL_context_blit_fast] and [GL_primitive_point] are
    defined, and every cell they draw raw pixel [P] on holds [C[S[P]]]
    afterwards when [T[S[P]]] is false and is unchanged when it is true. *)
Theorem resolution_order
  (context : GL_Context_t) (surface : GL_Surface_t) (tile : GL_Rectangle_t)
  (position : GL_Point_t) (scale rotation : float)
  (point : GL_Point_t) (color : GL_Pixel_t) :
  context_wf context → surface_wf surface → tables_wf context →
  Forall (pixel_ok context) (data surface) →
  tile_inside surface tile →
  target_inside context position (rect_width tile) (rect_height tile) →
  target_inside context point 1 1 → pixel_ok context color →
  (∃ after,
     GL_context_blit context surface tile position scale rotation = Some after
     ∧ tile_resolved context after surface tile position)
  ∧ (∃ after,
       GL_context_blit_fast context surface tile position = Some after
       ∧ tile_resolved context after surface tile position)
  ∧ (∃ after,
       GL_primitive_point context point color = Some after
       ∧ resolves_at context after color (point_x point) (point_y point)).
Proof.
  intros Hc Hs Ht Hpix Htile Htarget Hpoint Hcolor.
  assert (∃ after,
            GL_context_blit context surface tile position scale rotation = Some after
            ∧ tile_resolved context after surface tile position) as Hblit.
  { destruct (GL_context_blit_spec context surface tile position scale rotation)
      as (after & Hrun & _ & _ & _ & _ & Hin & _); [done..|].
    exists after. split; [done|]. intros i j Hi Hj.
    destruct (Hin i j Hi Hj) as (P & HP & Hcell). exists P. split; [done|].
    apply drawn_resolves; [done| |done].
    apply (data_pixel_ok context surface Hpix _ P HP). }
  split; [done|]. split.
  - by rewrite <- (blit_paths_agree context surface tile position scale rotation).
  - destruct (GL_primitive_point_spec context point color)
      as (after & Hrun & Hcell & _); [done..|].
    exists after. split; [done|]. by apply drawn_resolves.
Qed.

(** The whole 2 × 2 surface blitted at column 1 of row 0, and a point of
    raw colour 3 at column 0 of row 1. *)
Lemma resolution_order_witness :
  (∃ after,
     GL_context_blit example_context example_surface (GL_Rectangle 0 0 2 2)
                     (GL_Point 1 0) 1%Q 0%Q = Some after
     ∧ tile_resolved example_context after example_surface
                     (GL_Rectangle 0 0 2 2) (GL_Point 1 0))
  ∧ (∃ after,
       GL_context_blit_fast example_context example_surface (GL_Rectangle 0 0 2 2)
                            (GL_Point 1 0) = Some after
       ∧ tile_resolved example_context after example_surface
                       (GL_Rectangle 0 0 2 2) (GL_Point 1 0))
  ∧ (∃ after,
       GL_primitive_point example_context (GL_Point 0 1) 3 = Some after
       ∧ resolves_at example_context after 3 0 1).
Proof.
  apply (resolution_order example_context example_surface (GL_Rectangle 0 0 2 2)
           (GL_Point 1 0) 1%Q 0%Q (GL_Point 0 1) 3).
  - repeat split.
  - repeat split.
  - unfold tables_wf. simpl. repeat constructor; simpl; lia.
  - unfold pixel_ok. simpl. repeat constructor; simpl; lia.
  - unfold tile_inside. simpl. lia.
  - unfold target_inside. simpl. lia.
  - unfold target_inside. simpl. lia.
  - unfold pixel_ok. simpl. lia.
Defined.

(** C9.  The vertical run.  On the 3 × 2 example framebuffer, a vertical
    line of height 2 from column 1 of row 0, in the opaque raw colour 3, is
    defined and colours the cell at row 0 only: the cell below it, at row 1,
    still holds what it held before. *)
Theorem GL_primitive_vline_single_cell :
  ∃ after,
    GL_primitive_vline example_context (GL_Point 1 0) 2 3 = Some after
    ∧ cell after 1 0 = Some (GL_Color 255 255 255 255)
    ∧ cell after 1 1 = cell example_context 1 1
    ∧ cell example_context 1 1 = Some (GL_Color 0 0 0 255).
Proof. eexists. split; [reflexivity|]. repeat split. Qed.

(** ** The FPS estimator *)

Section Fps32_facts.
Import Binary32.
Variable N : nat.
Hypothesis N_pos : (0 < N)%nat.

Lemma ring_wf_initial : ring_wf N (Fps_initial N).
Proof. split; cbn; [by rewrite length_replicate|done]. Qed.

Lemma ring_wf_step st e : ring_wf N st → ring_wf N (snd (_calculate_fps N st e)).
Proof.
  intros [Hlen Hidx]. split; cbn [_calculate_fps snd samples index].
  - by rewrite length_insert.
  - apply Nat.mod_upper_bound. lia.
Qed.

Lemma feed32_snoc st l e :
  feed N st (l ++ [e]) = snd (_calculate_fps N (feed N st l) e).
Proof. unfold feed. by rewrite fold_left_app. Qed.

Lemma ring_wf_feed st l : ring_wf N st → ring_wf N (feed N st l).
Proof.
  intros Hwf. induction l as [|e l IH] using rev_ind; [done|].
  rewrite feed32_snoc. by apply ring_wf_step.
Qed.

(** The sample a call evicts is the oldest of the window. *)
Lemma evicted_oldest st :
  ring_wf N st → samples st !! index st = head (fps_window st).
Proof.
  intros [Hlen Hidx]. unfold fps_window.
  destruct (lookup_lt_is_Some_2 (samples st) (index st)) as [x Hx]; [lia|].
  by rewrite (drop_S _ x _ Hx), Hx.
Qed.

(** A call drops the oldest sample of the window and appends the new one. *)
Lemma fps_window_step st e :
  ring_wf N st →
  fps_window (snd (_calculate_fps N st e)) = drop 1 (fps_window st) ++ [e].
Proof.
  intros (Hlen & Hidx). unfold fps_window, _calculate_fps. cbn [snd samples index].
  destruct (lookup_lt_is_Some_2 (samples st) (index st)) as [x Hx]; [lia|].
  rewrite (drop_S _ x _ Hx). cbn [drop app].
  destruct (decide (S (index st) = N)) as [Hlast|Hmore].
  - replace ((index st + 1) `mod` N)%nat with 0%nat
      by (replace (index st + 1)%nat with N by lia; by rewrite Nat.Div0.mod_same).
    cbn [drop take app]. rewrite app_nil_r.
    rewrite (drop_ge (samples st)) by lia. cbn [app].
    rewrite <- (take_drop (index st) (samples st)) at 1.
    rewrite (drop_S _ x _ Hx), (drop_ge _ (S (index st))) by lia.
    rewrite insert_app_r_alt by (rewrite length_take; lia).
    rewrite length_take, Nat.min_l, Nat.sub_diag by lia. done.
  - rewrite Nat.mod_small by lia. replace (index st + 1)%nat with (S (index st)) by lia.
    rewrite drop_insert_lt by lia.
    rewrite take_insert_lt by lia.
    rewrite (take_S_r _ _ x Hx).
    rewrite insert_app_r_alt by (rewrite length_take; lia).
    rewrite length_take, Nat.min_l, Nat.sub_diag by lia. cbn [insert list_insert].
    rewrite drop_0. by rewrite <- app_assoc.
Qed.

Lemma fps_window_length st : ring_wf N st → length (fps_window st) = N.
Proof.
  intros (Hlen & Hidx). unfold fps_window.
  rewrite length_app, length_drop, length_take. lia.
Qed.

Lemma fps_window_feed st l :
  ring_wf N st → fps_window (feed N st l) = drop (length l) (fps_window st ++ l).
Proof.
  intros Hwf. induction l as [|e l IH] using rev_ind.
  - cbn. by rewrite app_nil_r.
  - rewrite feed32_snoc, fps_window_step by (by apply ring_wf_feed).
    rewrite IH, length_app. cbn [length]. rewrite drop_drop.
    rewrite app_assoc.
    rewrite (drop_app_le (fps_window st ++ l));
      [|rewrite length_app, fps_window_length by done; lia].
    done.
Qed.

(** The running sum after a call, from the window before it. *)
Lemma sum_step st e :
  ring_wf N st →
  sum (snd (_calculate_fps N st e))
  = fadd (fsub (sum st) (default zero (head (fps_window st)))) e.
Proof. intros Hwf. cbn. by rewrite evicted_oldest. Qed.

(** A window of one value is a buffer of that value. *)
Lemma fps_window_constant st x :
  ring_wf N st → fps_window st = replicate N x → samples st = replicate N x.
Proof.
  intros [Hlen Hidx] Hw.
  assert (Forall (λ y, y = x) (fps_window st)) as Hall
    by (rewrite Hw; by apply Forall_replicate).
  unfold fps_window in Hall. rewrite Forall_app in Hall. destruct Hall as [Hd Ht].
  symmetry. apply replicate_as_Forall. split; [done|].
  rewrite <- (take_drop (index st) (samples st)).
  apply Forall_app. split; (eapply Forall_impl; [eassumption|by intros y ->]).
Qed.
End Fps32_facts.

Section Fps32_drift.
Import Binary32.
Variable N : nat.
Hypothesis N_big : (2 ≤ N)%nat.

(** While the stall is in the window, frames of one second leave the
    running sum where it is. *)
Lemma stall_absorbs (j : nat) : (j < N)%nat →
  let st := feed N (Fps_initial N) (stall :: replicate j one) in
  ring_wf N st
  ∧ fps_window st = replicate (N - 1 - j) zero ++ stall :: replicate j one
  ∧ sum st = stall.
Proof.
  intros Hj st. unfold st.
  assert (ring_wf N (feed N (Fps_initial N) (stall :: replicate j one))) as Hwf
    by (apply ring_wf_feed, ring_wf_initial; lia).
  split; [done|]. clear st Hwf.
  induction j as [|j IH].
  - cbn [replicate feed fold_left]. split.
    + rewrite fps_window_step by first [lia|apply ring_wf_initial; lia].
      unfold fps_window. cbn [Fps_initial index samples drop take]. rewrite app_nil_r.
      rewrite Nat.sub_0_r. destruct N as [|n]; [lia|]. cbn [replicate drop].
      rewrite Nat.sub_succ, Nat.sub_0_r, drop_0. done.
    + change (feed N (Fps_initial N) [stall])
        with (snd (_calculate_fps N (Fps_initial N) stall)).
      rewrite sum_step by first [lia|apply ring_wf_initial; lia].
      unfold fps_window. cbn [Fps_initial index samples sum drop take].
      rewrite app_nil_r. destruct N as [|n]; [lia|]. reflexivity.
  - destruct IH as [Hw Hs]; [lia|].
    replace (stall :: replicate (S j) one) with ((stall :: replicate j one) ++ [one])
      by (cbn [app]; f_equal; by rewrite <- replicate_S_end).
    assert (ring_wf N (feed N (Fps_initial N) (stall :: replicate j one))) as Hwf
      by (apply ring_wf_feed, ring_wf_initial; lia).
    rewrite feed32_snoc. split.
    + rewrite fps_window_step, Hw by first [done|lia].
      replace (N - 1 - j)%nat with (S (N - 1 - S j)) by lia.
      cbn [replicate app drop]. rewrite drop_0, <- app_assoc. cbn [app].
      by rewrite <- replicate_S_end.
    + rewrite sum_step, Hw, Hs by first [done|lia].
      replace (N - 1 - j)%nat with (S (N - 1 - S j)) by lia. done.
Qed.

(** Once the stall has left the window, the running sum is one second,
    and stays there. *)
Lemma stall_leaves (m : nat) : (N ≤ m)%nat →
  let st := feed N (Fps_initial N) (stall :: replicate m one) in
  ring_wf N st ∧ fps_window st = replicate N one ∧ sum st = one.
Proof.
  intros Hm st. unfold st.
  assert (ring_wf N (feed N (Fps_initial N) (stall :: replicate m one))) as Hwf
    by (apply ring_wf_feed, ring_wf_initial; lia).
  split; [done|]. clear st Hwf.
  induction m as [|m IH]; [lia|].
  replace (stall :: replicate (S m) one) with ((stall :: replicate m one) ++ [one])
    by (cbn [app]; f_equal; by rewrite <- replicate_S_end).
  assert (ring_wf N (feed N (Fps_initial N) (stall :: replicate m one))) as Hwf
    by (apply ring_wf_feed, ring_wf_initial; lia).
  rewrite feed32_snoc, fps_window_step, sum_step by first [done|lia].
  destruct (decide (N ≤ m)%nat) as [Hle|Hlast].
  - destruct (IH Hle) as [-> ->].
    destruct N as [|n]; [lia|]. cbn [replicate head default drop]. rewrite drop_0.
    split; [by rewrite <- replicate_S_end|done].
  - assert (m = N - 1)%nat as -> by lia.
    destruct (stall_absorbs (N - 1)) as (_ & -> & ->); [lia|].
    replace (N - 1 - (N - 1))%nat with 0%nat by lia.
    cbn [replicate app head default drop]. rewrite drop_0.
    split; [|done]. rewrite <- replicate_S_end. f_equal. lia.
Qed.
End Fps32_drift.

Section Fps32_claims.
Import Binary32.

(** C8.  The FPS estimator after a stall, in binary32.  Whatever
    [FPS_AVERAGE_SAMPLES] is, from 2 on: after one frame of 2^24 seconds and
    then at least [FPS_AVERAGE_SAMPLES] frames of one second, the ring
    buffer holds one second in every slot, and yet the running sum is one
    second, not [FPS_AVERAGE_SAMPLES] seconds; the next frame of one second
    is answered with [(float)FPS_AVERAGE_SAMPLES / 1.0f], where [1 / e] is
    1.  The sum lost every second it was given while the stall was in the
    window, and nothing ever gives them back. *)
Theorem fps_running_sum_drifts (FPS_AVERAGE_SAMPLES m : nat) :
  (2 ≤ FPS_AVERAGE_SAMPLES)%nat → (FPS_AVERAGE_SAMPLES ≤ m)%nat →
  let st := feed FPS_AVERAGE_SAMPLES (Fps_initial FPS_AVERAGE_SAMPLES)
                 (stall :: replicate m one) in
  samples st = replicate FPS_AVERAGE_SAMPLES one
  ∧ sum st = one
  ∧ fst (_calculate_fps FPS_AVERAGE_SAMPLES st one)
    = fdiv (float_of_int (Z.of_nat FPS_AVERAGE_SAMPLES)) one.
Proof.
  intros HN Hm st.
  destruct (stall_leaves FPS_AVERAGE_SAMPLES HN m Hm) as (Hwf & Hw & Hs).
  fold st in Hwf, Hw, Hs.
  split; [apply (fps_window_constant FPS_AVERAGE_SAMPLES); first [done|lia]|]. split; [done|].
  unfold _calculate_fps. cbn [fst]. rewrite Hs.
  rewrite (evicted_oldest FPS_AVERAGE_SAMPLES), Hw by first [done|lia].
  destruct FPS_AVERAGE_SAMPLES as [|n]; [lia|]. reflexivity.
Qed.

(** Two samples: the rate reported is 2 for ever, where the frames last
    one second. *)
Lemma fps_running_sum_drifts_witness :
  (let st := feed 2 (Fps_initial 2) (stall :: replicate 2 one) in
   samples st = replicate 2 one
   ∧ sum st = one
   ∧ fst (_calculate_fps 2 st one) = fdiv (float_of_int (Z.of_nat 2)) one)
  ∧ fdiv (float_of_int (Z.of_nat 2)) one = float_of_int 2
  ∧ fdiv one one = one.
Proof.
  split; [apply (fps_running_sum_drifts 2 2); lia|]. split; reflexivity.
Defined.
End Fps32_claims.

(** ** The loop in exact arithmetic *)



Section Engine_facts.
Variable FPS_AVERAGE_SAMPLES : nat.
Context {Interpreter_t : Type}.
Variable Interpreter_process : Interpreter_t → bool * Interpreter_t.
Variable Interpreter_update : Interpreter_t → Q → bool * Interpreter_t.
Variable Interpreter_render : Interpreter_t → Q → bool * Interpreter_t.

Abbreviation Loop := (@Loop_t Interpreter_t).
Abbreviation drain := (fixed_updates Interpreter_update).
Abbreviation turn :=
  (Engine_iteration FPS_AVERAGE_SAMPLES Interpreter_process
                    Interpreter_update Interpreter_render).

Lemma and_then_lag f c (st : Loop) : lag (and_then f c st) = lag st.
Proof. unfold and_then. destruct (running st); [|done]. by destruct (f _). Qed.

Lemma and_then_time f c (st : Loop) :
  environment_time (and_then f c st) = environment_time st.
Proof. unfold and_then. destruct (running st); [|done]. by destruct (f _). Qed.

Lemma and_then_calls f c (st : Loop) :
  calls (and_then f c st) = calls st ++ (if running st then [c] else []).
Proof.
  unfold and_then. destruct (running st); [|by rewrite app_nil_r].
  by destruct (f _).
Qed.

Lemma and_then_running f c (st : Loop) :
  running (and_then f c st) = running st && fst (f (interpreter st)).
Proof.
  unfold and_then. destruct (running st) eqn:E; [|done]. by destruct (f _).
Qed.

Lemma and_then_previous f c (st : Loop) : previous (and_then f c st) = previous st.
Proof. unfold and_then. destruct (running st); [|done]. by destruct (f _). Qed.

Lemma fixed_updates_previous d k (st : Loop) :
  previous (drain d k st) = previous st.
Proof.
  revert st. induction k as [|k IH]; intros st; [done|].
  cbn [fixed_updates].
  destruct (Qle_bool d (lag st)); [|done].
  rewrite IH. cbn [previous set_lag]. by rewrite and_then_previous.
Qed.
End Engine_facts.

(** ** Binary floating point: digits, shifts and rounding *)











Section Rounding.
Variables prec emax : Z.
Hypothesis prec_pos : 0 < prec.

#[local] Abbreviation emin := (emin prec emax).
#[local] Abbreviation fexp := (fexp prec emax).
















Hypothesis prec_lt_emax : prec < emax.






End Rounding.

(** ** Binary32: what the subtraction and the division of the loop keep *)

Section Binary32_facts.
Import Binary32.








End Binary32_facts.

(** ** The fixed-step loop in binary32 *)

Section Engine32_facts.
Import Binary32.
Variable FPS_AVERAGE_SAMPLES : nat.
Context {Interpreter_t : Type}.
Variable Interpreter_process : Interpreter_t → bool * Interpreter_t.
Variable Interpreter_update : Interpreter_t → spec_float → bool * Interpreter_t.
Variable Interpreter_render : Interpreter_t → spec_float → bool * Interpreter_t.
Context {Time : Type}.
Variable time_add : Time → spec_float → Time.

Abbreviation Loop32 := (@Loop_t Interpreter_t Time).
Abbreviation drain32 := (fixed_updates Interpreter_update time_add).
Abbreviation turn32 :=
  (Engine_iteration FPS_AVERAGE_SAMPLES Interpreter_process
                    Interpreter_update Interpreter_render time_add).









End Engine32_facts.

Section Engine32_examples.
Import Binary32.




End Engine32_examples.

(** ** The display *)

Lemma imin_min a b : imin a b = Z.min a b.
Proof. unfold imin. destruct (decide (a < b)); lia. Qed.

Lemma quot_greatest (w W s : Z) : 0 < w → 0 ≤ W → (w * s ≤ W ↔ s ≤ W ÷ w).
Proof.
  intros Hw HW. rewrite Z.quot_div_nonneg by lia.
  split; intros H.
  - apply Z.div_le_lower_bound; lia.
  - pose proof (Z.mul_div_le W w Hw).
    assert (w * s ≤ w * (W / w)) by (apply Z.mul_le_mono_nonneg_l; lia). lia.
Qed.

Lemma max_scale_greatest (w h W H : Z) :
  0 < w → 0 < h → 0 ≤ W → 0 ≤ H →
  is_max_scale w h W H (imin (W ÷ w) (H ÷ h)).
Proof.
  intros Hw Hh HW HH. rewrite imin_min. unfold is_max_scale.
  split; [apply quot_greatest; lia|]. split; [apply quot_greatest; lia|].
  intros s' H1 H2. apply quot_greatest in H1; [|lia..].
  apply quot_greatest in H2; [|lia..]. lia.
Qed.

Lemma is_max_scale_unique w h W H s1 s2 :
  is_max_scale w h W H s1 → is_max_scale w h W H s2 → s1 = s2.
Proof.
  intros (A1 & B1 & C1) (A2 & B2 & C2).
  specialize (C1 _ A2 B2). specialize (C2 _ A1 B1). lia.
Qed.

(** Running the state monad. *)
Lemma bind_run {A B} (m : M A) (f : A → M B) (w : World) :
  (m ≫= f) w = match m w with Some (x, w') => f x w' | None => None end.
Proof. done. Qed.

Lemma int_div_run (a b : Z) (w : World) :
  b ≠ 0 → int_div a b w = Some (a ÷ b, w).
Proof. intros. unfold int_div. by rewrite decide_False. Qed.

Lemma emit_run (e : Event) (w : World) : emit e w = Some (tt, log w e).
Proof. done. Qed.

Lemma Log_write_run level message (w : World) :
  Log_write level message w = Some (tt, log w (EV_LOG level message)).
Proof. done. Qed.

Lemma balance_app r tr1 tr2 : balance r (tr1 ++ tr2) = balance r tr1 + balance r tr2.
Proof.
  induction tr1 as [|e tr1 IH]; [done|].
  cbn [app balance]. destruct e; rewrite ?IH; lia.
Qed.

Ltac balanced :=
  cbn [trace log]; rewrite ?balance_app; cbn [balance];
  repeat match goal with
         | |- context [decide ?P] => destruct (decide P); try congruence
         end;
  lia.

Ltac run :=
  repeat first
    [ rewrite bind_run
    | rewrite Log_write_run
    | rewrite emit_run
    | rewrite int_div_run by lia
    | progress cbn [mret M_ret negb] ].

Lemma bind_inv {A B} (m : M A) (f : A → M B) (w : World) r :
  (m ≫= f) w = Some r → ∃ x w', m w = Some (x, w') ∧ f x w' = Some r.
Proof.
  rewrite bind_run. destruct (m w) as [[x w']|]; [|done]. eauto.
Qed.

Lemma same_buffer_refl d : same_buffer d d.
Proof. done. Qed.

Lemma same_buffer_trans d1 d2 d3 :
  same_buffer d1 d2 → same_buffer d2 d3 → same_buffer d1 d3.
Proof. intros [? ?] [? ?]. split; congruence. Qed.

Lemma ensures_ret {A} (x : A) (Q : A → Prop) : Q x → ensures (mret x) Q.
Proof. intros HQ w y w' [= <- _]. done. Qed.

Lemma ensures_bind {A B} (m : M A) (f : A → M B) (P : A → Prop) (Q : B → Prop) :
  ensures m P → (∀ x, P x → ensures (f x) Q) → ensures (m ≫= f) Q.
Proof.
  intros Hm Hf w y w' Hrun. apply bind_inv in Hrun as (x & w1 & H1 & H2).
  eapply Hf; [by eapply Hm|done].
Qed.

Lemma ensures_any {A} (m : M A) : ensures m (λ _, True).
Proof. by intros w x w' _. Qed.

Lemma ensures_then {A B} (m : M A) (f : A → M B) (Q : B → Prop) :
  (∀ x, ensures (f x) Q) → ensures (m ≫= f) Q.
Proof. intros Hf. eapply ensures_bind; [apply ensures_any|]. intros x _. apply Hf. Qed.

Lemma ensures_undefined {A} (Q : A → Prop) : ensures undefined_behaviour Q.
Proof. by intros w x w' H. Qed.

Lemma ensures_weaken {A} (m : M A) (P Q : A → Prop) :
  ensures m P → (∀ x, P x → Q x) → ensures m Q.
Proof. intros Hm HPQ w x w' Hrun. apply HPQ. by eapply Hm. Qed.

Create HintDb ensures.

Ltac same :=
  first
    [ assumption
    | repeat match goal with H : same_buffer _ _ |- _ => destruct H end;
      split; cbn; congruence ].

(** Syntax-directed: every path through a computation that returns a
    display returns one with the same buffer as [d0]. *)
Ltac ensure d0 :=
  repeat match goal with
  | |- ensures (mret _) _ => apply ensures_ret; cbn [fst snd]; try same
  | |- ensures undefined_behaviour _ => apply ensures_undefined
  | |- ensures (?m ≫= _) _ =>
      lazymatch type of m with
      | M Display_t =>
          apply (ensures_bind _ _ (same_buffer d0));
          [try solve [eauto with ensures]|intros ? ?]
      | M (bool * Display_t) =>
          apply (ensures_bind _ _ (λ r, same_buffer d0 (snd r)));
          [try solve [eauto with ensures]|intros [? ?] ?; cbn [fst snd] in *]
      | M (bool * Display_t * GL_Point_t) =>
          apply (ensures_bind _ _ (λ r, same_buffer d0 (snd (fst r))));
          [try solve [eauto with ensures]|intros [[? ?] ?] ?; cbn [fst snd] in *]
      | _ => apply ensures_then; intros ?
      end
  | |- ensures (if ?b then _ else _) _ => destruct b
  | |- ensures (match ?x with _ => _ end) _ => destruct x
  | |- ensures (let '(_, _) := ?x in _) _ => destruct x
  end.

Section Display_facts.
Variable platform : Platform.
Variable GL_MAX_PALETTE_COLORS : nat.
Variable GL_palette_greyscale : nat → GL_Palette_t.
Variable uninitialised : GL_Color_t.

Lemma compute_size_fits display configuration position w0 W H :
  monitor_workarea platform = (W, H) →
  0 < cfg_width configuration → 0 < cfg_height configuration →
  cfg_width configuration ≤ W → cfg_height configuration ≤ H →
  let max_scale := imin (W ÷ cfg_width configuration) (H ÷ cfg_height configuration) in
  let scale := if decide (cfg_scale configuration = 0) then max_scale
               else if decide (cfg_scale configuration > max_scale) then max_scale
               else cfg_scale configuration in
  ∃ display' position' w1,
    compute_size platform display configuration position w0
      = Some (true, display', position', w1)
    ∧ window_scale display' = scale
    ∧ window_width display' = cfg_width configuration * scale
    ∧ window_height display' = cfg_height configuration * scale
    ∧ display_vram display' = display_vram display
    ∧ display_configuration display' = display_configuration display.
Proof.
  intros HWH Hw Hh HW HH max_scale scale.
  assert (1 ≤ max_scale) as Hmax.
  { destruct (max_scale_greatest (cfg_width configuration) (cfg_height configuration)
                W H) as (_ & _ & Hgreatest); [lia..|].
    apply Hgreatest; lia. }
  unfold compute_size. rewrite HWH. run. fold max_scale.
  rewrite decide_False by lia.
  destruct (decide (cfg_scale configuration = 0)) as [Hauto|Hreq].
  - rewrite (decide_False (P := cfg_scale configuration ≠ 0)) by lia.
    rewrite decide_False by lia. run.
    destruct (cfg_fullscreen configuration); cbn [negb]; run;
      eexists _, _, _; (split; [reflexivity|]); by repeat split.
  - rewrite (decide_True (P := cfg_scale configuration ≠ 0)) by lia.
    destruct (decide (cfg_scale configuration > max_scale)); run;
      destruct (cfg_fullscreen configuration); cbn [negb]; run;
      eexists _, _, _; (split; [reflexivity|]); by repeat split.
Qed.

Lemma compute_size_fails display configuration position w0 W H :
  monitor_workarea platform = (W, H) →
  0 < cfg_width configuration → 0 < cfg_height configuration →
  0 ≤ W → 0 ≤ H →
  W < cfg_width configuration ∨ H < cfg_height configuration →
  compute_size platform display configuration position w0
    = Some (false,
            set_window_size display (cfg_width configuration)
                            (cfg_height configuration) 1,
            position,
            log (log w0 (EV_LOG LOG_LEVELS_DEBUG "<DISPLAY> display size is %dx%d"))
                (EV_LOG LOG_LEVELS_FATAL
                   "<DISPLAY> requested display size can't fit display!")).
Proof.
  intros HWH Hw Hh HW HH Hsmall.
  assert (imin (W ÷ cfg_width configuration) (H ÷ cfg_height configuration) = 0)
    as Hzero.
  { rewrite imin_min. rewrite !Z.quot_div_nonneg by lia.
    pose proof (Z.div_pos W (cfg_width configuration)).
    pose proof (Z.div_pos H (cfg_height configuration)).
    destruct Hsmall.
    - rewrite (Z.div_small W) by lia. lia.
    - rewrite (Z.div_small H) by lia. lia. }
  unfold compute_size. rewrite HWH. run. rewrite Hzero.
  rewrite decide_True by done. by run.
Qed.

Abbreviation initialize :=
  (Display_initialize platform GL_MAX_PALETTE_COLORS GL_palette_greyscale uninitialised).

(** A canvas that does not fit at scale 1: the initialiser gives up, and
    by then the window, if it was ever created, is destroyed again. *)
Lemma Display_initialize_no_fit configuration title w0 W H :
  monitor_workarea platform = (W, H) →
  0 < cfg_width configuration → 0 < cfg_height configuration →
  0 ≤ W → 0 ≤ H →
  W < cfg_width configuration ∨ H < cfg_height configuration →
  ∃ display w1,
    initialize configuration title w0 = Some (false, display, w1)
    ∧ balance RES_WINDOW (trace w1) = balance RES_WINDOW (trace w0)
    ∧ balance RES_GLFW (trace w1) = balance RES_GLFW (trace w0)
    ∧ (glfwInit_ok platform = true → glfwCreateWindow_ok platform = true →
       gladLoadGLLoader_ok platform = true → GL_context_create_ok platform = true →
       EV_LOG LOG_LEVELS_FATAL "<DISPLAY> requested display size can't fit display!"
         ∈ trace w1).
Proof.
  intros HWH Hw Hh HW HH Hsmall.
  unfold Display_initialize, glfwInit, glfwCreateWindow, glfwTerminate,
    glfwDestroyWindow, GL_context_create.
  destruct (glfwInit_ok platform); cbn [negb]; run;
    [|eexists _, _; split; [reflexivity|]; split; [by balanced|];
      split; [by balanced|done]].
  destruct (glfwCreateWindow_ok platform); cbn [negb]; run;
    [|eexists _, _; split; [reflexivity|]; split; [by balanced|];
      split; [by balanced|done]].
  destruct (gladLoadGLLoader_ok platform); cbn [negb]; run;
    [|eexists _, _; split; [reflexivity|]; split; [by balanced|];
      split; [by balanced|done]].
  destruct (GL_context_create_ok platform); cbn [negb]; run;
    [|eexists _, _; split; [reflexivity|]; split; [by balanced|];
      split; [by balanced|done]].
  rewrite (compute_size_fails _ _ _ _ W H) by done. run.
  eexists _, _; split; [reflexivity|]. split; [by balanced|].
  split; [by balanced|]. intros _ _ _ _. cbn [trace log].
  rewrite !elem_of_app, !list_elem_of_singleton. tauto.
Qed.

Lemma for_each_same_buffer {A} (l : list A) (body : A → Display_t → M Display_t) d0 :
  (∀ x d, same_buffer d0 d → ensures (body x d) (same_buffer d0)) →
  ∀ d, same_buffer d0 d → ensures (for_each l body d) (same_buffer d0).
Proof.
  intros Hbody. induction l as [|x l IH]; intros d Hd; cbn [for_each].
  - by apply ensures_ret.
  - eapply ensures_bind; [by apply Hbody|]. intros d1 Hd1. by apply IH.
Qed.

Lemma Display_shader_same_buffer d0 display effect :
  same_buffer d0 display →
  ensures (Display_shader platform display effect) (same_buffer d0).
Proof. intros Hd. unfold Display_shader. ensure d0. Qed.

Lemma compute_size_same_buffer d0 display configuration position :
  same_buffer d0 display →
  ensures (compute_size platform display configuration position)
          (λ r, same_buffer d0 (snd (fst r))).
Proof. intros Hd. unfold compute_size. ensure d0. Qed.

Lemma unwind_programs_same_buffer d0 display done :
  same_buffer d0 display →
  ensures (unwind_programs display done) (same_buffer d0).
Proof.
  intros Hd. unfold unwind_programs.
  apply (ensures_bind _ _ (same_buffer d0)).
  - apply for_each_same_buffer; [|done]. intros slot d Hsame. ensure d0.
  - intros d Hsame. ensure d0.
Qed.

Lemma initialize_programs_same_buffer d0 todo : ∀ done display,
  same_buffer d0 display →
  ensures (initialize_programs platform todo done display)
          (λ r, same_buffer d0 (snd r)).
Proof.
  induction todo as [|[slot [[vertex|] [fragment|]]] todo IH];
    intros done display Hd; cbn [initialize_programs];
    [by apply ensures_ret| |by apply IH..].
  pose proof unwind_programs_same_buffer as Hunwind.
  ensure d0. apply IH. same.
Qed.

(** The buffer [Display_initialize] hands over: one colour entry per
    cell of a width × width square. *)
Lemma Display_initialize_buffer configuration title :
  ensures (initialize configuration title)
    (λ r, fst r = true →
          display_configuration (snd r) = configuration
          ∧ display_vram (snd r)
            = if malloc_ok platform
              then Some (replicate
                           (Z.to_nat (cfg_width configuration * cfg_width configuration))
                           uninitialised)
              else None).
Proof.
  unfold Display_initialize.
  unfold glfwInit, glfwCreateWindow, GL_context_create.
  apply ensures_then; intros initialised.
  destruct (negb initialised);
    [apply ensures_then; intros _; by apply ensures_ret|].
  apply ensures_then; intros created.
  destruct (negb created);
    [do 2 (apply ensures_then; intros _); by apply ensures_ret|].
  apply ensures_then; intros _.
  destruct (negb (gladLoadGLLoader_ok platform));
    [do 3 (apply ensures_then; intros _); by apply ensures_ret|].
  do 4 (apply ensures_then; intros _).
  apply ensures_then; intros [ok context].
  destruct (negb ok);
    [do 3 (apply ensures_then; intros _); by apply ensures_ret|].
  apply ensures_then; intros _.
  set (d1 := set_palette _ _).
  apply (ensures_bind _ _ (λ r, same_buffer d1 (snd (fst r))));
    [by apply compute_size_same_buffer|].
  intros [[fits display] position] Hsame. cbn [fst snd] in Hsame.
  destruct (negb fits);
    [do 2 (apply ensures_then; intros _); by apply ensures_ret|].
  apply ensures_then; intros _.
  destruct Hsame as [Hvram Hcfg]. rewrite Hcfg. cbn [d1 display_configuration
    set_palette set_gl set_window Display_zero].
  unfold malloc_colors.
  apply (ensures_bind _ _
           (λ b, b = if malloc_ok platform
                     then Some (replicate
                                  (Z.to_nat (cfg_width configuration
                                             * cfg_width configuration))
                                  uninitialised)
                     else None)).
  { destruct (malloc_ok platform); [|by apply ensures_ret].
    apply ensures_then; intros _. by apply ensures_ret. }
  intros buffer ->.
  set (d2 := set_display_vram display _).
  apply (ensures_weaken _ (λ r, same_buffer d2 (snd r))).
  - pose proof initialize_programs_same_buffer as Hprograms.
    pose proof Display_shader_same_buffer as Hshader.
    assert (same_buffer d2 d2) as Hrefl by done.
    apply ensures_then; intros _. apply ensures_then; intros _.
    apply ensures_then; intros name.
    ensure d2.
  - intros [ok' display'] [Hv Hc] _. cbn [fst snd] in *.
    rewrite Hv, Hc. unfold d2. cbn. rewrite Hcfg. done.
Qed.
End Display_facts.

Lemma allocations_log w e :
  allocations (log w e) = (allocations w + if is_allocation e then 1 else 0)%nat.
Proof.
  unfold allocations. cbn [trace log]. rewrite filter_app, length_app. f_equal.
  rewrite filter_cons, filter_nil.
  destruct (is_allocation e);
    destruct (decide _) as [Hyes|Hno]; cbn in *; tauto || done.
Qed.

(** [Display_present] allocates nothing: it converts into the buffer it
    was given at initialisation. *)
Lemma Display_present_no_allocation display w display' w' :
  Display_present display w = Some (display', w') →
  allocations w' = allocations w
  ∧ (length <$> display_vram display') = (length <$> display_vram display).
Proof.
  unfold Display_present, GL_surface_to_rgba.
  destruct (display_vram display) as [m|]; [|done]. cbn [mbind option_bind].
  destruct (surface_to_rgba_loop _ _ _ _ _ m) as [pixels|] eqn:Hloop; [|done].
  run. intros [= <- <-]. split.
  - rewrite !allocations_log. cbn [is_allocation]. lia.
  - cbn. f_equal.
    assert (∀ n surface palette src dst m pixels,
              surface_to_rgba_loop n surface palette src dst m = Some pixels →
              length pixels = length m) as Hlen; [|by eapply Hlen].
    clear. induction n as [|n IH]; intros surface palette src dst m pixels Hrun.
    + by injection Hrun as <-.
    + cbn [surface_to_rgba_loop] in Hrun.
      destruct (load (data surface) src) as [p|]; [|done].
      cbn [mbind option_bind] in Hrun.
      destruct (load (colors palette) p) as [c|]; [|done].
      cbn [mbind option_bind] in Hrun.
      destruct (store m dst c) as [m1|] eqn:Hstore; [|done].
      cbn [mbind option_bind] in Hrun.
      rewrite (IH _ _ _ _ _ _ Hrun). by eapply store_length.
Qed.

(** Requesting no effect while the pass-through program is active does
    nothing but log: no program is created, deleted or switched to. *)
Lemma Display_shader_passthru_null platform display w :
  active_program display = Some DISPLAY_PROGRAM_PASSTHRU →
  Display_shader platform display None w
  = Some (display,
          log w (EV_LOG LOG_LEVELS_INFO
                   "<DISPLAY> pass-thru shader already active, bailing out")).
Proof. intros Hactive. unfold Display_shader. rewrite Hactive. by run. Qed.

(** A shader that does not compile is never attached. *)
Lemma GL_program_attach_rejects platform program code shader_type :
  shader_compiles platform code = false →
  ensures (GL_program_attach platform program code shader_type) (λ ok, ok = false).
Proof.
  intros Hbad. unfold GL_program_attach.
  apply ensures_then; intros shader_id.
  destruct (decide (shader_id = 0)).
  - apply ensures_then; intros _. by apply ensures_ret.
  - apply ensures_then; intros _. rewrite Hbad. cbn [negb].
    apply (ensures_bind _ _ (λ ok, ok = false)).
    + apply ensures_then; intros _. by apply ensures_ret.
    + intros ok ->. apply ensures_then; intros _. by apply ensures_ret.
Qed.

(** With the pass-through program active, an effect that does not compile
    leaves it active and untouched. *)
Lemma Display_shader_keeps_passthru platform display effect :
  active_program display = Some DISPLAY_PROGRAM_PASSTHRU →
  shader_compiles platform (FRAGMENT_SHADER_CUSTOM +:+ effect) = false →
  ensures (Display_shader platform display (Some effect))
    (λ display', active_program display' = Some DISPLAY_PROGRAM_PASSTHRU
                 ∧ fst (programs display') = fst (programs display)).
Proof.
  intros Hactive Hbad. unfold Display_shader. rewrite Hactive.
  rewrite bool_decide_true by done. rewrite bool_decide_false by done.
  cbn [andb negb].
  apply (ensures_bind _ _ (λ d, d = display)); [by apply ensures_ret|].
  intros ? ->.
  apply (ensures_bind _ _
           (λ d, active_program d = Some DISPLAY_PROGRAM_PASSTHRU
                 ∧ fst (programs d) = fst (programs display))).
  - apply ensures_then; intros _. apply ensures_then; intros _.
    apply ensures_then; intros [created program].
    apply ensures_then; intros attached_vertex.
    apply (ensures_bind _ _ (λ ok, ok = false)).
    { destruct attached_vertex; [|by apply ensures_ret].
      by apply GL_program_attach_rejects. }
    intros ? ->.
    apply (ensures_bind _ _
             (λ d, active_program d = Some DISPLAY_PROGRAM_PASSTHRU
                   ∧ fst (programs d) = fst (programs display))).
    + apply ensures_then; intros p. apply ensures_then; intros _.
      by apply ensures_ret.
    + intros d Hd. apply ensures_then; intros _. by apply ensures_ret.
  - intros d Hd. do 6 (apply ensures_then; intros _). by apply ensures_ret.
Qed.

(** The example of the specification: a 320 × 180 canvas on a 1920 × 1080
    work area, scale left to the engine. *)
Example compute_size_320x180 :
  (λ '(fits, display, position, _),
     (fits, window_scale display, window_width display, window_height display,
      position))
    <$> compute_size example_platform (Display_zero (example_configuration 320 180 0))
                     (example_configuration 320 180 0) (GL_Point 0 0) World_empty
  = Some (true, 6, 1920, 1080, GL_Point 0 0).
Proof. reflexivity. Qed.

(** C3.  Window geometry.  For a canvas [w] × [h] and a work area
    [W] × [H]: when the canvas fits at scale 1, [compute_size] succeeds; the
    scale it settles on is the greatest integer scale that fits when the
    requested scale is 0 or larger than that greatest scale, and the window
    is the canvas times the scale and never exceeds the work area.  When
    the canvas does not fit at scale 1, [compute_size] logs the fit failure
    and answers false, and [Display_initialize] answers false with no window
    left (and with the fit failure logged when the steps before it
    succeeded). *)
Theorem window_geometry (platform : Platform) (GL_MAX_PALETTE_COLORS : nat)
  (GL_palette_greyscale : nat → GL_Palette_t) (uninitialised : GL_Color_t)
  (display : Display_t) (configuration : Display_Configuration_t)
  (position : GL_Point_t) (title : string) (w0 : World) (W H : Z) :
  monitor_workarea platform = (W, H) →
  0 < cfg_width configuration → 0 < cfg_height configuration →
  0 ≤ W → 0 ≤ H →
  let w := cfg_width configuration in
  let h := cfg_height configuration in
  let requested := cfg_scale configuration in
  (w ≤ W → h ≤ H →
   ∃ display' position' w1 s,
     compute_size platform display configuration position w0
       = Some (true, display', position', w1)
     ∧ is_max_scale w h W H s
     ∧ (requested = 0 ∨ requested > s → window_scale display' = s)
     ∧ window_width display' = w * window_scale display'
     ∧ window_height display' = h * window_scale display'
     ∧ window_width display' ≤ W ∧ window_height display' ≤ H)
  ∧ (W < w ∨ H < h →
     (∃ display' w1,
        compute_size platform display configuration position w0
          = Some (false, display', position, w1)
        ∧ EV_LOG LOG_LEVELS_FATAL "<DISPLAY> requested display size can't fit display!"
            ∈ trace w1)
     ∧ ∃ display' w1,
         Display_initialize platform GL_MAX_PALETTE_COLORS GL_palette_greyscale
                            uninitialised configuration title World_empty
           = Some (false, display', w1)
         ∧ live RES_WINDOW w1 = false
         ∧ (glfwInit_ok platform = true → glfwCreateWindow_ok platform = true →
            gladLoadGLLoader_ok platform = true →
            GL_context_create_ok platform = true →
            EV_LOG LOG_LEVELS_FATAL
              "<DISPLAY> requested display size can't fit display!" ∈ trace w1)).
Proof.
  intros HWH Hw Hh HW HH. cbv zeta.
  set (w := cfg_width configuration) in *.
  set (h := cfg_height configuration) in *. split.
  - intros HwW HhH.
    destruct (compute_size_fits platform display configuration position w0 W H)
      as (display' & position' & w1 & Hrun & Hscale & Hwidth & Hheight & _);
      [done..|].
    pose proof (max_scale_greatest w h W H Hw Hh HW HH) as Hmax.
    fold w h in Hscale, Hwidth, Hheight.
    set (s := imin (W ÷ w) (H ÷ h)) in *.
    exists display', position', w1, s.
    split; [done|]. split; [done|].
    assert (window_scale display' ≤ s) as Hle.
    { rewrite Hscale.
      destruct (decide (cfg_scale configuration = 0)); [lia|].
      destruct (decide (cfg_scale configuration > s)); lia. }
    destruct Hmax as (HsW & HsH & _).
    split; [|split; [by rewrite Hwidth, Hscale|split; [by rewrite Hheight, Hscale|]]].
    + rewrite Hscale.
      destruct (decide (cfg_scale configuration = 0)); [done|].
      destruct (decide (cfg_scale configuration > s)); [done|]. lia.
    + rewrite Hwidth, Hheight, <- Hscale.
      assert (w * window_scale display' ≤ w * s)
        by (apply Z.mul_le_mono_nonneg_l; lia).
      assert (h * window_scale display' ≤ h * s)
        by (apply Z.mul_le_mono_nonneg_l; lia).
      lia.
  - intros Hsmall. split.
    + eexists _, _. split; [by apply (compute_size_fails platform _ _ _ _ W H)|].
      cbn [trace log]. rewrite !elem_of_app, !list_elem_of_singleton. tauto.
    + destruct (Display_initialize_no_fit platform GL_MAX_PALETTE_COLORS
                  GL_palette_greyscale uninitialised configuration title
                  World_empty W H) as (display' & w1 & Hrun & Hwindow & _ & Hlog);
        [done..|].
      exists display', w1. split; [done|]. split; [|done].
      unfold live. rewrite Hwindow. done.
Qed.

(** The 320 × 180 canvas on the 1920 × 1080 work area. *)
Lemma window_geometry_witness :
  let configuration := example_configuration 320 180 0 in
  let display := Display_zero configuration in
  (320 ≤ 1920 → 180 ≤ 1080 →
   ∃ display' position' w1 s,
     compute_size example_platform display configuration (GL_Point 0 0) World_empty
       = Some (true, display', position', w1)
     ∧ is_max_scale 320 180 1920 1080 s
     ∧ (0 = 0 ∨ 0 > s → window_scale display' = s)
     ∧ window_width display' = 320 * window_scale display'
     ∧ window_height display' = 180 * window_scale display'
     ∧ window_width display' ≤ 1920 ∧ window_height display' ≤ 1080)
  ∧ (1920 < 320 ∨ 1080 < 180 →
     (∃ display' w1,
        compute_size example_platform display configuration (GL_Point 0 0) World_empty
          = Some (false, display', GL_Point 0 0, w1)
        ∧ EV_LOG LOG_LEVELS_FATAL "<DISPLAY> requested display size can't fit display!"
            ∈ trace w1)
     ∧ ∃ display' w1,
         Display_initialize example_platform 4 example_greyscale (GL_Color 0 0 0 0)
                            configuration "zest" World_empty
           = Some (false, display', w1)
         ∧ live RES_WINDOW w1 = false
         ∧ (true = true → true = true → true = true → true = true →
            EV_LOG LOG_LEVELS_FATAL
              "<DISPLAY> requested display size can't fit display!" ∈ trace w1)).
Proof.
  apply (window_geometry example_platform 4 example_greyscale (GL_Color 0 0 0 0)
           (Display_zero (example_configuration 320 180 0))
           (example_configuration 320 180 0) (GL_Point 0 0) "zest" World_empty
           1920 1080).
  - reflexivity.
  - reflexivity.
  - reflexivity.
  - lia.
  - lia.
Defined.

(** C4.  Shader swap.  A display is brought up, a custom effect that
    compiles is made active (program 4), and an effect that does not compile
    is requested.  The custom program that was active is deleted before the
    new one is tried; afterwards the active slot holds program 0, the driver
    is told to use program 0, and program 4 is no longer live.  With the
    pass-through program active instead, the same request leaves program 1
    active, in use and live. *)
Theorem Display_shader_drops_custom_program :
  shader_report (custom_then_broken World_empty)
  = Some (Some (GL_Program 4), Some (GL_Program 0), Some 0, Some false)
  ∧ shader_report (passthru_then_broken World_empty)
    = Some (Some (GL_Program 1), Some (GL_Program 1), Some 1, Some true).
Proof. split; by vm_compute. Qed.

(** C5.  Initialisation failure.  When the allocation of the presentation
    buffer fails and every other step succeeds, [Display_initialize]
    releases the context, the window and GLFW, and then goes on: it answers
    true, with a NULL buffer and none of the three live; [Engine_initialize]
    answers true in turn. *)
Theorem Display_initialize_allocation_failure :
  resource_report (example_initialize platform_without_memory 8 6 0 World_empty)
  = Some (true, true, false, false, false)
  ∧ (λ r, fst (fst r)) <$> example_engine_initialize platform_without_memory World_empty
    = Some true.
Proof. split; by vm_compute. Qed.

(** C6.  The presentation buffer.  For a 3 × 2 canvas [Display_initialize]
    allocates, once, a buffer of 9 colour entries, not 6, and presenting a
    frame keeps that buffer and allocates nothing.  For a 2 × 3 canvas the
    buffer has 4 entries for 6 cells, and presenting the first frame writes
    past its end. *)
Theorem Display_initialize_buffer_length :
  buffer_report (example_initialize example_platform 3 2 0 World_empty)
  = Some (true, Some 9%nat, 1%nat)
  ∧ buffer_report (initialize_then_present 3 2 World_empty)
    = Some (true, Some 9%nat, 1%nat)
  ∧ buffer_report (example_initialize example_platform 2 3 0 World_empty)
    = Some (true, Some 4%nat, 1%nat)
  ∧ initialize_then_present 2 3 World_empty = None.
Proof. repeat split; by vm_compute. Qed.

(** * Further properties *)

(** ** gl/context.c and gl/primitive.c *)

Lemma set_vram_same gl : set_vram gl (vram gl) = gl.
Proof. by destruct gl. Qed.

Lemma clear_loop_hline n : ∀ dst color m, clear_loop n dst color m = hline_loop n dst color m.
Proof. induction n as [|n IH]; intros dst color m; [done|].
  cbn [clear_loop hline_loop]. destruct (store m dst color); [|done].
  cbn [mbind option_bind]. apply IH. Qed.

Lemma fill_all (m m' : list GL_Color_t) color :
  length m' = length m →
  (∀ off, 0 ≤ off < 0 + Z.of_nat (length m) → load m' off = Some color) →
  m' = replicate (length m) color.
Proof.
  intros Hlen Hall. apply list_eq. intros i.
  destruct (decide (i < length m)%nat) as [Hi|Hi].
  - rewrite lookup_replicate_2 by done.
    specialize (Hall (Z.of_nat i)). rewrite load_Some in Hall.
    rewrite Nat2Z.id in Hall. apply Hall. lia.
  - rewrite !lookup_ge_None_2; [done|rewrite length_replicate; lia|lia].
Qed.

Lemma GL_context_clear_run gl :
  vram_size gl = length (vram gl) →
  GL_context_clear gl
  = color ← load (colors (palette gl)) (background gl);
    Some (set_vram gl (replicate (length (vram gl)) color)).
Proof.
  intros Hsize. unfold GL_context_clear.
  destruct (load _ (background gl)) as [color|]; [|done]. cbn [mbind option_bind].
  rewrite clear_loop_hline, Hsize.
  destruct (hline_loop_spec (length (vram gl)) color 0 (vram gl))
    as (m' & Hrun & Hlen & Hin & _); [lia..|].
  rewrite Hrun. cbn [mbind option_bind]. do 2 f_equal. by apply fill_all.
Qed.

(** X1.  [GL_context_clear] on a context whose [vram_size] is the length of
    its framebuffer: every pixel becomes the palette colour of the background
    index, and nothing else of the context changes. *)
Theorem GL_context_clear_fills (gl : GL_Context_t) (color : GL_Color_t) :
  vram_size gl = length (vram gl) →
  load (colors (palette gl)) (background gl) = Some color →
  GL_context_clear gl = Some (set_vram gl (replicate (length (vram gl)) color)).
Proof. intros Hsize Hc. rewrite GL_context_clear_run by done. by rewrite Hc. Qed.

Lemma GL_context_clear_fills_witness :
  GL_context_clear example_context
  = Some (set_vram example_context (replicate (length (vram example_context)) (GL_Color 0 0 0 255))).
Proof. apply (GL_context_clear_fills example_context (GL_Color 0 0 0 255)); reflexivity. Defined.

Lemma blit_columns_length context surface n : ∀ src dst m src' dst' m',
  blit_columns context surface n src dst m = Some (src', dst', m') → length m' = length m.
Proof.
  induction n as [|n IH]; intros src dst m src' dst' m' Hrun.
  - by injection Hrun as _ _ <-.
  - cbn [blit_columns] in Hrun.
    destruct (load (data surface) src) as [pixel|]; [|done]. cbn [mbind option_bind] in Hrun.
    destruct (load (shifting context) pixel) as [index|]; [|done]. cbn [mbind option_bind] in Hrun.
    destruct (load (transparent context) index) as [flag|]; [|done]. cbn [mbind option_bind] in Hrun.
    destruct (decide (flag ≠ 0)); [by eapply IH|].
    destruct (load (colors (palette context)) index) as [color|]; [|done]. cbn [mbind option_bind] in Hrun.
    destruct (store m dst color) as [m1|] eqn:Hstore; [|done]. cbn [mbind option_bind] in Hrun.
    rewrite (IH _ _ _ _ _ _ Hrun). by eapply store_length.
Qed.

Lemma blit_rows_length context surface tw ss ds n : ∀ src dst m m',
  blit_rows context surface tw ss ds n src dst m = Some m' → length m' = length m.
Proof.
  induction n as [|n IH]; intros src dst m m' Hrun.
  - by injection Hrun as <-.
  - cbn [blit_rows] in Hrun.
    destruct (blit_columns context surface tw src dst m) as [[[src1 dst1] m1]|] eqn:Hcols; [|done].
    cbn [mbind option_bind] in Hrun.
    rewrite (IH _ _ _ _ Hrun). by eapply blit_columns_length.
Qed.

Lemma GL_context_blit_inv context surface tile position scale rotation after :
  GL_context_blit context surface tile position scale rotation = Some after →
  after = set_vram context (vram after) ∧ length (vram after) = length (vram context).
Proof.
  unfold GL_context_blit. intros Hrun.
  destruct (load (data_rows surface) _) as [src_row|]; [|done].
  destruct (load (vram_rows context) _) as [dst_row|]; [|done].
  cbn [mbind option_bind] in Hrun.
  destruct (blit_rows _ _ _ _ _ _ _ _ _) as [m|] eqn:Hrows; [|done].
  injection Hrun as <-. split; [done|]. cbn. by eapply blit_rows_length.
Qed.

(** X2.  Clearing wipes a blit: [GL_context_clear] after a [GL_context_blit]
    gives what it gives without the blit, whatever was drawn. *)
Theorem GL_context_clear_after_blit (context : GL_Context_t) (surface : GL_Surface_t)
  (tile : GL_Rectangle_t) (position : GL_Point_t) (scale rotation : Q) (after : GL_Context_t) :
  vram_size context = length (vram context) →
  GL_context_blit context surface tile position scale rotation = Some after →
  GL_context_clear after = GL_context_clear context.
Proof.
  intros Hsize Hblit. apply GL_context_blit_inv in Hblit as [Hafter Hlen].
  rewrite !GL_context_clear_run; [|done|rewrite Hafter; cbn; rewrite Hsize; by rewrite Hafter in Hlen].
  rewrite Hafter. cbn. rewrite Hafter in Hlen. cbn in Hlen. rewrite Hlen.
  by destruct (load _ _).
Qed.

Lemma GL_context_clear_after_blit_witness :
  GL_context_clear example_context_drawn = GL_context_clear example_context.
Proof.
  apply (GL_context_clear_after_blit example_context example_surface
           (GL_Rectangle 0 0 2 2) (GL_Point 1 0) 1%Q 0%Q).
  - reflexivity.
  - reflexivity.
Defined.

(** X7.  A horizontal line of [w + 1] pixels is the point at its origin
    followed by the line of [w] pixels one column to the right, undefined
    when either of them is. *)
Theorem GL_primitive_hline_step (gl : GL_Context_t) (x y : Z) (w : nat) (color : Z) :
  GL_primitive_hline gl (GL_Point x y) (S w) color
  = gl' ← GL_primitive_point gl (GL_Point x y) color;
    GL_primitive_hline gl' (GL_Point (x + 1) y) w color.
Proof.
  unfold GL_primitive_hline, GL_primitive_point. cbn [GL_is_visible negb point_x point_y].
  destruct (load (shifting gl) color) as [index|] eqn:Hi; [|done]. cbn [mbind option_bind].
  destruct (load (transparent gl) index) as [flag|] eqn:Hf; [|done]. cbn [mbind option_bind].
  destruct (decide (flag ≠ 0)) as [Hflag|Hflag].
  { cbn [mbind option_bind]. rewrite Hi. cbn [mbind option_bind]. rewrite Hf.
    cbn [mbind option_bind]. by rewrite decide_True. }
  destruct (load (colors (palette gl)) index) as [rgba|] eqn:Hc; [|done]. cbn [mbind option_bind].
  destruct (load (vram_rows gl) y) as [row|] eqn:Hrow; [|done]. cbn [mbind option_bind hline_loop].
  destruct (store (vram gl) (row + x) rgba) as [m1|]; [|done]. cbn [mbind option_bind].
  cbn [shifting transparent palette vram_rows vram set_vram].
  rewrite Hi. cbn [mbind option_bind]. rewrite Hf. cbn [mbind option_bind].
  rewrite decide_False by done. rewrite Hc. cbn [mbind option_bind].
  rewrite Hrow. cbn [mbind option_bind]. rewrite Z.add_assoc.
  by destruct (hline_loop w (row + x + 1) rgba m1).
Qed.

(** X8.  [GL_primitive_hline] does not clip at the right edge: as long as
    the pixels stay inside the framebuffer, pixel [k] of the line lands in
    column [(x + k) mod width] of row [y + (x + k) / width], so a line that
    is too long for its row runs on into the next one; no other pixel
    changes. *)
Theorem GL_primitive_hline_runs_on (gl : GL_Context_t) (origin : GL_Point_t) (w : nat)
  (color index : Z) (rgba : GL_Color_t) :
  context_wf gl →
  load (shifting gl) color = Some index →
  load (transparent gl) index = Some 0 →
  load (colors (palette gl)) index = Some rgba →
  0 ≤ point_y origin < Z.of_nat (height gl) →
  0 ≤ Z.of_nat (width gl) * point_y origin + point_x origin →
  Z.of_nat (width gl) * point_y origin + point_x origin + Z.of_nat w
    ≤ Z.of_nat (width gl) * Z.of_nat (height gl) →
  ∃ after,
    GL_primitive_hline gl origin w color = Some after
    ∧ (∀ k, 0 ≤ k < Z.of_nat w →
         cell after ((point_x origin + k) `mod` Z.of_nat (width gl))
                    (point_y origin + (point_x origin + k) `div` Z.of_nat (width gl))
         = Some rgba)
    ∧ (∀ off, ¬ (Z.of_nat (width gl) * point_y origin + point_x origin ≤ off
                 < Z.of_nat (width gl) * point_y origin + point_x origin + Z.of_nat w) →
         load (vram after) off = load (vram gl) off).
Proof.
  intros (Hrows & Hlen & Hmax) Hi Hf Hc Hy Hlo Hhi.
  unfold GL_primitive_hline. cbn [GL_is_visible negb].
  rewrite Hi. cbn [mbind option_bind]. rewrite Hf. cbn [mbind option_bind].
  rewrite decide_False by lia. rewrite Hc. cbn [mbind option_bind].
  rewrite Hrows, row_offsets_load by lia. cbn [mbind option_bind].
  destruct (hline_loop_spec w rgba
              (Z.of_nat (width gl) * point_y origin + point_x origin) (vram gl))
    as (m' & Hrun & Hlen' & Hin & Hout).
  { lia. } { rewrite Hlen, Nat2Z.inj_mul. lia. }
  rewrite Hrun. cbn [mbind option_bind]. eexists. split; [done|]. split.
  - intros k Hk. unfold cell. cbn [vram set_vram width].
    assert (0 < Z.of_nat (width gl)) as HW by nia.
    apply Hin.
    pose proof (Z.div_mod (point_x origin + k) (Z.of_nat (width gl))). lia.
  - intros off Hoff. cbn [vram set_vram]. by apply Hout.
Qed.

Lemma GL_primitive_hline_runs_on_witness :
  ∃ after,
    GL_primitive_hline example_context (GL_Point 2 0) 2 3 = Some after
    ∧ (∀ k, 0 ≤ k < Z.of_nat 2 →
         cell after ((2 + k) `mod` Z.of_nat 3) (0 + (2 + k) `div` Z.of_nat 3)
         = Some (GL_Color 255 255 255 255))
    ∧ (∀ off, ¬ (Z.of_nat 3 * 0 + 2 ≤ off < Z.of_nat 3 * 0 + 2 + Z.of_nat 2) →
         load (vram after) off = load (vram example_context) off).
Proof.
  apply (GL_primitive_hline_runs_on example_context (GL_Point 2 0) 2 3 3
           (GL_Color 255 255 255 255)).
  - repeat split.
  - reflexivity.
  - reflexivity.
  - reflexivity.
  - simpl. lia.
  - simpl. lia.
  - simpl. lia.
Defined.

Lemma drawn_idempotent gl P old : drawn gl P (drawn gl P old) = drawn gl P old.
Proof.
  unfold drawn. destruct (load (shifting gl) P) as [index|]; [|done].
  cbn [mbind option_bind].
  destruct (load (transparent gl) index) as [flag|]; [|done]. cbn [mbind option_bind].
  by destruct (decide (flag ≠ 0)).
Qed.

Lemma drawn_tables gl gl' P old :
  shifting gl' = shifting gl → transparent gl' = transparent gl → palette gl' = palette gl →
  drawn gl' P old = drawn gl P old.
Proof. intros H1 H2 H3. unfold drawn. by rewrite H1, H2, H3. Qed.

Lemma cells_determine gl (m1 m2 : list GL_Color_t) :
  length m1 = (width gl * height gl)%nat → length m2 = (width gl * height gl)%nat →
  (∀ x y, 0 ≤ x < Z.of_nat (width gl) →
          load m1 (Z.of_nat (width gl) * y + x) = load m2 (Z.of_nat (width gl) * y + x)) →
  m1 = m2.
Proof.
  intros H1 H2 Hcells. apply list_eq. intros i.
  destruct (decide (i < width gl * height gl)%nat) as [Hi|Hi].
  - assert (0 < Z.of_nat (width gl)) as HW by nia.
    specialize (Hcells (Z.of_nat i `mod` Z.of_nat (width gl))
                       (Z.of_nat i `div` Z.of_nat (width gl))).
    rewrite <- Z.div_mod in Hcells by lia.
    unfold load in Hcells. rewrite !decide_True in Hcells by lia.
    rewrite Nat2Z.id in Hcells. apply Hcells. by apply Z.mod_pos_bound.
  - rewrite !lookup_ge_None_2; [done|lia..].
Qed.

(** X3.  A blit inside the buffers keeps the context well formed, keeps its
    size, its three tables and its background index as they are, and leaves
    every pixel outside the target rectangle as it was. *)
Theorem GL_context_blit_frame (context : GL_Context_t) (surface : GL_Surface_t)
  (tile : GL_Rectangle_t) (position : GL_Point_t) (scale rotation : Q) :
  context_wf context → surface_wf surface → tables_wf context →
  Forall (pixel_ok context) (data surface) →
  tile_inside surface tile →
  target_inside context position (rect_width tile) (rect_height tile) →
  ∃ after,
    GL_context_blit context surface tile position scale rotation = Some after
    ∧ context_wf after ∧ tables_wf after
    ∧ width after = width context ∧ height after = height context
    ∧ shifting after = shifting context
    ∧ transparent after = transparent context
    ∧ palette after = palette context
    ∧ background after = background context
    ∧ (∀ x y, ¬ (point_x position ≤ x < point_x position + Z.of_nat (rect_width tile)
                 ∧ point_y position ≤ y < point_y position + Z.of_nat (rect_height tile)) →
              0 ≤ x < Z.of_nat (width context) →
              cell after x y = cell context x y).
Proof.
  intros Hc Hs Ht Hpix Htile Htarget.
  destruct (GL_context_blit_spec context surface tile position scale rotation)
    as (after & Hrun & Hwf & Hsh & Htr & Hpal & _ & Hout); [done..|].
  exists after. split; [done|]. split; [done|].
  apply GL_context_blit_inv in Hrun as [Hafter _].
  split; [unfold tables_wf; by rewrite Hsh, Htr, Hpal|].
  split; [by rewrite Hafter|]. split; [by rewrite Hafter|].
  split; [done|]. split; [done|]. split; [done|]. split; [by rewrite Hafter|]. done.
Qed.

(** X4.  Blitting the same tile at the same position a second time changes
    nothing, whatever scale and rotation are passed. *)
Theorem GL_context_blit_idempotent (context : GL_Context_t) (surface : GL_Surface_t)
  (tile : GL_Rectangle_t) (position : GL_Point_t) (scale rotation scale' rotation' : Q)
  (after : GL_Context_t) :
  context_wf context → surface_wf surface → tables_wf context →
  Forall (pixel_ok context) (data surface) →
  tile_inside surface tile →
  target_inside context position (rect_width tile) (rect_height tile) →
  GL_context_blit context surface tile position scale rotation = Some after →
  GL_context_blit after surface tile position scale' rotation' = Some after.
Proof.
  intros Hc Hs Ht Hpix Htile Htarget Hfirst.
  destruct (GL_context_blit_spec context surface tile position scale rotation)
    as (after1 & Hrun1 & Hwf1 & Hsh & Htr & Hpal & Hin1 & Hout1); [done..|].
  rewrite Hfirst in Hrun1. injection Hrun1 as <-.
  pose proof (GL_context_blit_inv _ _ _ _ _ _ _ Hfirst) as [Hafter Hlen].
  assert (width after = width context) as HW by (by rewrite Hafter).
  assert (height after = height context) as HH by (by rewrite Hafter).
  destruct (GL_context_blit_spec after surface tile position scale' rotation')
    as (after2 & Hrun2 & Hwf2 & _ & _ & _ & Hin2 & Hout2); [done|done| | | done| |].
  { unfold tables_wf. by rewrite Hsh, Htr, Hpal. }
  { unfold pixel_ok. by rewrite Hsh. }
  { unfold target_inside. by rewrite HW, HH. }
  rewrite Hrun2. f_equal.
  pose proof (GL_context_blit_inv _ _ _ _ _ _ _ Hrun2) as [Hafter2 Hlen2].
  rewrite Hafter2. rewrite Hafter at 2. rewrite Hafter at 1. cbn [set_vram width height
    vram_rows vram_size background shifting transparent palette]. f_equal.
  destruct Hwf1 as (_ & Hl1 & _). destruct Hwf2 as (_ & Hl2 & _).
  assert (width after2 = width after) as HW2 by (by rewrite Hafter2).
  assert (height after2 = height after) as HH2 by (by rewrite Hafter2).
  apply (cells_determine after); [by rewrite <- HW2, <- HH2|done|].
  intros x y Hx. fold (cell after x y). rewrite <- HW2. fold (cell after2 x y).
  destruct (decide (point_x position ≤ x < point_x position + Z.of_nat (rect_width tile)
                    ∧ point_y position ≤ y < point_y position + Z.of_nat (rect_height tile)))
    as [Hinside|Houtside].
  - destruct (Hin1 (y - point_y position) (x - point_x position)) as (P & HP & Hcell1); [lia..|].
    destruct (Hin2 (y - point_y position) (x - point_x position)) as (P' & HP' & Hcell2); [lia..|].
    rewrite HP in HP'. injection HP' as <-.
    replace (point_x position + (x - point_x position)) with x in * by lia.
    replace (point_y position + (y - point_y position)) with y in * by lia.
    rewrite Hcell2, (drawn_tables context after) by done.
    rewrite Hcell1. apply drawn_idempotent.
  - apply Hout2; [done|lia].
Qed.

Lemma GL_context_blit_idempotent_witness :
  GL_context_blit example_context_drawn example_surface (GL_Rectangle 0 0 2 2) (GL_Point 1 0) 2%Q 90%Q
  = Some example_context_drawn.
Proof.
  apply (GL_context_blit_idempotent example_context example_surface (GL_Rectangle 0 0 2 2)
           (GL_Point 1 0) 1%Q 0%Q 2%Q 90%Q).
  - repeat split.
  - repeat split.
  - unfold tables_wf. simpl. repeat constructor; simpl; lia.
  - unfold pixel_ok. simpl. repeat constructor; simpl; lia.
  - unfold tile_inside. simpl. lia.
  - unfold target_inside. simpl. lia.
  - reflexivity.
Defined.

Lemma GL_context_blit_frame_witness :
  ∃ after,
    GL_context_blit example_context example_surface (GL_Rectangle 0 0 2 2)
                    (GL_Point 1 0) 1%Q 0%Q = Some after
    ∧ context_wf after ∧ tables_wf after
    ∧ width after = width example_context ∧ height after = height example_context
    ∧ shifting after = shifting example_context
    ∧ transparent after = transparent example_context
    ∧ palette after = palette example_context
    ∧ background after = background example_context
    ∧ (∀ x y, ¬ (1 ≤ x < 1 + Z.of_nat 2 ∧ 0 ≤ y < 0 + Z.of_nat 2) →
              0 ≤ x < Z.of_nat (width example_context) →
              cell after x y = cell example_context x y).
Proof.
  apply (GL_context_blit_frame example_context example_surface (GL_Rectangle 0 0 2 2)
           (GL_Point 1 0) 1%Q 0%Q).
  - repeat split.
  - repeat split.
  - unfold tables_wf. simpl. repeat constructor; simpl; lia.
  - unfold pixel_ok. simpl. repeat constructor; simpl; lia.
  - unfold tile_inside. simpl. lia.
  - unfold target_inside. simpl. lia.
Defined.

(** X5.  Blitting a tile of one pixel is [GL_primitive_point] with the index
    of that pixel, as soon as the pixel is in the surface and the target row
    in the row table. *)
Theorem GL_context_blit_single_pixel (context : GL_Context_t) (surface : GL_Surface_t)
  (x y : Z) (position : GL_Point_t) (scale rotation : Q) (row P : Z) :
  load (data_rows surface) y = Some row →
  load (data surface) (row + x) = Some P →
  is_Some (load (vram_rows context) (point_y position)) →
  GL_context_blit context surface (GL_Rectangle x y 1 1) position scale rotation
  = GL_primitive_point context position P.
Proof.
  intros Hrow HP [dst_row Hdst].
  unfold GL_context_blit, GL_primitive_point.
  cbn [GL_is_visible negb rect_x rect_y rect_width rect_height].
  rewrite Hrow, Hdst. cbn [mbind option_bind blit_rows blit_columns].
  rewrite HP. cbn [mbind option_bind].
  destruct (load (shifting context) P) as [index|]; [|done]. cbn [mbind option_bind].
  destruct (load (transparent context) index) as [flag|]; [|done]. cbn [mbind option_bind].
  destruct (decide (flag ≠ 0)).
  - cbn [mbind option_bind]. by rewrite set_vram_same.
  - destruct (load (colors (palette context)) index) as [color|]; [|done].
    cbn [mbind option_bind].
    by destruct (store (vram context) _ color).
Qed.

Lemma GL_context_blit_single_pixel_witness :
  GL_context_blit example_context example_surface (GL_Rectangle 1 1 1 1) (GL_Point 2 1) 1%Q 0%Q
  = GL_primitive_point example_context (GL_Point 2 1) 3.
Proof.
  apply (GL_context_blit_single_pixel example_context example_surface 1 1 (GL_Point 2 1)
           1%Q 0%Q 2 3).
  - reflexivity.
  - reflexivity.
  - simpl. eexists. reflexivity.
Defined.

(** X6.  When the sizes [GL_context_initialize] computes do not wrap (the
    framebuffer's bytes and the row table's bytes fit a [size_t]), the
    context it builds is well formed, its [vram_size] is the length of its
    framebuffer, and a point drawn on it with an index of the palette shows
    the greyscale colour of that index, except for index 0, the one
    transparent index, which draws nothing. *)
Theorem GL_context_initialize_palette (N : nat) (greyscale : nat → GL_Palette_t)
  (uninitialised : GL_Color_t) (w h : nat) (gl : GL_Context_t)
  (position : GL_Point_t) (p : Z) :
  Z.of_nat w < SIZE_MODULUS →
  Z.of_nat w * Z.of_nat h * SIZEOF_GL_COLOR < SIZE_MODULUS →
  Z.of_nat h * SIZEOF_POINTER < SIZE_MODULUS →
  length (colors (greyscale N)) = N →
  GL_context_initialize N greyscale uninitialised true true w h = Some (Some gl) →
  0 ≤ p < Z.of_nat N →
  target_inside gl position 1 1 →
  context_wf gl ∧ tables_wf gl
  ∧ vram_size gl = length (vram gl)
  ∧ ∃ after,
      GL_primitive_point gl position p = Some after
      ∧ cell after (point_x position) (point_y position)
        = if decide (p = 0) then cell gl (point_x position) (point_y position)
          else load (colors (greyscale N)) p.
Proof.
  intros Hw Hwh Hh Hpal Hinit Hp Hpos.
  destruct (GL_context_initialize_wf N greyscale uninitialised w h gl Hw Hwh Hh Hpal Hinit)
    as (Hwf & Ht & Hsize & Hok).
  split; [done|]. split; [done|]. split; [done|].
  destruct (GL_primitive_point_spec gl position p Hwf Ht (Hok p Hp) Hpos)
    as (after & Hrun & Hcell & _).
  exists after. split; [done|]. rewrite Hcell. unfold drawn.
  assert (shifting gl = Z.of_nat <$> seq 0 N
          ∧ transparent gl
            = <[0%nat:=GL_BOOL_TRUE]> (const GL_BOOL_FALSE <$> (Z.of_nat <$> seq 0 N))
          ∧ palette gl = greyscale N) as (-> & -> & ->).
  { unfold GL_context_initialize in Hinit. cbn [negb] in Hinit.
    destruct (decide _); [done|]. by injection Hinit as <-. }
  assert (load (Z.of_nat <$> seq 0 N) p = Some p) as ->.
  { apply load_Some. split; [lia|]. rewrite list_lookup_fmap, lookup_seq_lt by lia.
    cbn. f_equal. lia. }
  cbn [mbind option_bind].
  destruct (decide (p = 0)) as [->|Hne].
  - assert (load (<[0%nat:=GL_BOOL_TRUE]> (const GL_BOOL_FALSE <$> (Z.of_nat <$> seq 0 N))) 0
            = Some GL_BOOL_TRUE) as ->.
    { apply load_Some. split; [lia|]. apply list_lookup_insert_eq.
      rewrite !length_fmap, length_seq. lia. }
    cbn [mbind option_bind]. by rewrite decide_True by (unfold GL_BOOL_TRUE; lia).
  - assert (load (<[0%nat:=GL_BOOL_TRUE]> (const GL_BOOL_FALSE <$> (Z.of_nat <$> seq 0 N))) p
            = Some GL_BOOL_FALSE) as ->.
    { apply load_Some. split; [lia|]. rewrite list_lookup_insert_ne by lia.
      rewrite !list_lookup_fmap, lookup_seq_lt by lia. done. }
    cbn [mbind option_bind]. by rewrite decide_False by (unfold GL_BOOL_FALSE; lia).
Qed.

Lemma GL_context_initialize_palette_witness :
  ∃ gl, GL_context_initialize 4 example_greyscale (GL_Color 0 0 0 0) true true 3 2
        = Some (Some gl)
  ∧ context_wf gl ∧ tables_wf gl
  ∧ vram_size gl = length (vram gl)
  ∧ ∃ after,
      GL_primitive_point gl (GL_Point 1 1) 2 = Some after
      ∧ cell after 1 1
        = if decide (2 = 0) then cell gl 1 1
          else load (colors (example_greyscale 4)) 2.
Proof.
  eexists. split; [reflexivity|].
  apply (GL_context_initialize_palette 4 example_greyscale (GL_Color 0 0 0 0) 3 2 _
           (GL_Point 1 1) 2).
  - reflexivity.
  - reflexivity.
  - reflexivity.
  - reflexivity.
  - reflexivity.
  - lia.
  - unfold target_inside. simpl. lia.
Defined.

(** ** core/engine.c: the frame rate and the loop *)

Section Fps32_window.
Import Binary32.

(** X9.  The ring buffer of [_calculate_fps] is a sliding window over the
    history, rounding or not: after any calls from the initial statics it
    has [FPS_AVERAGE_SAMPLES] slots, [index] is one of them, and from
    [index] on, wrapping around, it holds the last [FPS_AVERAGE_SAMPLES]
    elapsed values as they were passed, oldest first, those before the first
    call counting as 0. *)
Theorem fps_window_slides (FPS_AVERAGE_SAMPLES : nat) (frames : list spec_float) :
  (0 < FPS_AVERAGE_SAMPLES)%nat →
  let st := feed FPS_AVERAGE_SAMPLES (Fps_initial FPS_AVERAGE_SAMPLES) frames in
  length (samples st) = FPS_AVERAGE_SAMPLES
  ∧ (index st < FPS_AVERAGE_SAMPLES)%nat
  ∧ fps_window st
    = drop (length frames) (replicate FPS_AVERAGE_SAMPLES zero ++ frames).
Proof.
  intros HN st.
  assert (ring_wf FPS_AVERAGE_SAMPLES st) as [Hlen Hidx]
    by (apply ring_wf_feed, ring_wf_initial; done).
  split; [done|]. split; [done|]. unfold st.
  rewrite fps_window_feed by (first [done|by apply ring_wf_initial]).
  unfold fps_window at 1. cbn [Fps_initial index samples drop take].
  by rewrite app_nil_r.
Qed.

Lemma fps_window_slides_witness :
  let st := feed 2 (Fps_initial 2) [stall; one; one] in
  length (samples st) = 2%nat
  ∧ (index st < 2)%nat
  ∧ fps_window st = drop (length [stall; one; one]) (replicate 2 zero ++ [stall; one; one]).
Proof. apply (fps_window_slides 2 [stall; one; one]). lia. Defined.
End Fps32_window.

Section Engine_more.
Variable FPS_AVERAGE_SAMPLES : nat.
Context {Interpreter_t : Type}.
Variable Interpreter_process : Interpreter_t → bool * Interpreter_t.
Variable Interpreter_update : Interpreter_t → Q → bool * Interpreter_t.
Variable Interpreter_render : Interpreter_t → Q → bool * Interpreter_t.
Variable environment_quit : Interpreter_t → bool.

Abbreviation Loop' := (@Loop_t Interpreter_t).
Abbreviation drain' := (fixed_updates Interpreter_update).
Abbreviation turn' :=
  (Engine_iteration FPS_AVERAGE_SAMPLES Interpreter_process
                    Interpreter_update Interpreter_render).
Abbreviation loop' :=
  (Engine_loop FPS_AVERAGE_SAMPLES Interpreter_process
               Interpreter_update Interpreter_render environment_quit).
Abbreviation run' :=
  (Engine_run FPS_AVERAGE_SAMPLES Interpreter_process
              Interpreter_update Interpreter_render environment_quit).

Lemma fixed_updates_calls d k : ∀ st : Loop',
  ∃ u : nat,
    calls (drain' d k st) = calls st ++ replicate u (CALL_INTERPRETER_UPDATE d)
    ∧ (running st = false → u = 0%nat)
    ∧ (running st = false → running (drain' d k st) = false).
Proof.
  induction k as [|k IH]; intros st.
  - exists 0%nat. cbn. by rewrite app_nil_r.
  - cbn [fixed_updates]. destruct (Qle_bool d (lag st)).
    + match goal with |- context [drain' d k ?s] => destruct (IH s) as (u & Hc & Hu & Hr) end.
      cbn [calls running set_lag] in Hc, Hu, Hr.
      rewrite and_then_calls, and_then_running in *.
      cbn [calls running advance_time] in *.
      exists (if running st then S u else u). rewrite Hc, <- app_assoc.
      destruct (running st) eqn:Hrun; cbn [andb] in *.
      * split; [done|]. split; intros; discriminate.
      * rewrite app_nil_l. split; [done|]. split; [auto|auto].
    + exists 0%nat. cbn. by rewrite app_nil_r.
Qed.

(** One turn of the loop, field by field. *)
Lemma Engine_iteration_fields (d : Q) (k : nat) (ref : Q) (frame : Frame) (st : Loop') :
  let elapsed := (frame_current frame - previous st)%Q in
  let st1 := and_then Interpreter_process CALL_INTERPRETER_PROCESS
               (call CALL_INPUT_PROCESS
                  (set_clock st (frame_current frame)
                     (fst (_calculate_fps FPS_AVERAGE_SAMPLES (fps_statics st) elapsed))
                     (snd (_calculate_fps FPS_AVERAGE_SAMPLES (fps_statics st) elapsed)))) in
  let st2 := drain' d k (set_lag st1 (lag st1 + elapsed)%Q) in
  let leftover := (ref - (frame_end frame - frame_current frame))%Q in
  let st' := turn' d k ref frame st in
  environment_time st' = environment_time st2
  ∧ lag st' = lag st2
  ∧ previous st' = frame_current frame
  ∧ running st' = running st2 && fst (Interpreter_render (interpreter st2) (lag st2 / d)%Q)
  ∧ calls st' = calls st2
      ++ [CALL_AUDIO_UPDATE elapsed; CALL_INPUT_UPDATE elapsed;
          CALL_DISPLAY_UPDATE elapsed]
      ++ (if running st2 then [CALL_INTERPRETER_RENDER (lag st2 / d)%Q] else [])
      ++ [CALL_DISPLAY_PRESENT]
      ++ (if Qlt_le_dec 0 leftover then [CALL_WAIT_FOR leftover] else []).
Proof.
  intros elapsed st1 st2 leftover st'.
  set (ratio := (lag st2 / d)%Q).
  set (st3 := call CALL_DISPLAY_PRESENT
                (and_then (λ i, Interpreter_render i ratio)
                          (CALL_INTERPRETER_RENDER ratio)
                   (call (CALL_DISPLAY_UPDATE elapsed)
                      (call (CALL_INPUT_UPDATE elapsed)
                         (call (CALL_AUDIO_UPDATE elapsed) st2))))).
  assert (st' = if Qlt_le_dec 0 leftover
                then call (CALL_WAIT_FOR leftover) st3 else st3) as ->
    by reflexivity.
  assert (environment_time st3 = environment_time st2) as Htime.
  { unfold st3. cbn [environment_time call]. by rewrite and_then_time. }
  assert (lag st3 = lag st2) as Hlag.
  { unfold st3. cbn [lag call]. by rewrite and_then_lag. }
  assert (previous st3 = frame_current frame) as Hprev.
  { unfold st3. cbn [previous call]. rewrite and_then_previous. cbn [previous call].
    unfold st2. rewrite fixed_updates_previous. cbn [previous set_lag].
    unfold st1. by rewrite and_then_previous. }
  assert (running st3
          = running st2 && fst (Interpreter_render (interpreter st2) ratio)) as Hrun.
  { unfold st3. cbn [running call]. by rewrite and_then_running. }
  assert (calls st3 = calls st2
            ++ [CALL_AUDIO_UPDATE elapsed; CALL_INPUT_UPDATE elapsed;
                CALL_DISPLAY_UPDATE elapsed]
            ++ (if running st2 then [CALL_INTERPRETER_RENDER ratio] else [])
            ++ [CALL_DISPLAY_PRESENT]) as Hcalls.
  { unfold st3. cbn [calls call]. rewrite and_then_calls.
    cbn [calls call running]. by rewrite <- !app_assoc. }
  clearbody st3. destruct (Qlt_le_dec 0 leftover).
  - cbn [environment_time lag previous running calls call]. repeat split; try done.
    rewrite Hcalls, <- !app_assoc. done.
  - repeat split; try done.
Qed.




Lemma Engine_loop_stopped (d : Q) (k : nat) (ref : Q) (frames : list Frame) (st : Loop') :
  running st = false → loop' d k ref frames st = st.
Proof. intros Hrun. destruct frames; [done|]. cbn [Engine_loop]. by rewrite Hrun. Qed.

(** X14.  When the script's per-frame processing fails, that turn is the
    last one: it is still carried through, with no further call into the
    script (no update and no render) and with one presentation, and the
    frames that follow are not run. *)
Theorem Engine_loop_script_failure (d : Q) (k : nat) (ref : Q) (frame : Frame)
  (frames : list Frame) (st : Loop') :
  running st = true → environment_quit (interpreter st) = false →
  frame_should_close frame = false →
  fst (Interpreter_process (interpreter st)) = false →
  let st' := loop' d k ref (frame :: frames) st in
  st' = turn' d k ref frame st
  ∧ running st' = false
  ∧ ∃ new,
      calls st' = calls st ++ new
      ∧ filter is_script new = [CALL_INTERPRETER_PROCESS]
      ∧ filter is_present new = [CALL_DISPLAY_PRESENT].
Proof.
  intros Hrun Hquit Hclose Hfail st'. unfold st'. cbn [Engine_loop].
  rewrite Hrun, Hquit, Hclose. cbn [negb andb].
  destruct (Engine_iteration_fields d k ref frame st) as (_ & _ & _ & Hrun' & Hcalls).
  match type of Hcalls with context [drain' d k ?s] =>
    destruct (fixed_updates_calls d k s) as (u & Hdrain & Hu & Hstop) end.
  cbn [calls running set_lag] in Hdrain, Hu, Hstop.
  rewrite and_then_running in Hu, Hstop. rewrite and_then_calls in Hdrain.
  cbn [calls running interpreter call set_clock] in Hdrain, Hu, Hstop.
  rewrite Hrun, Hfail in Hu, Hstop. rewrite Hrun in Hdrain.
  specialize (Hu eq_refl). specialize (Hstop eq_refl). subst u.
  rewrite Hstop in Hrun', Hcalls. rewrite Hdrain in Hcalls.
  assert (running (turn' d k ref frame st) = false) as Hstopped by done.
  rewrite Engine_loop_stopped by done.
  split; [done|]. split; [done|].
  eexists. split; [rewrite Hcalls, <- !app_assoc; reflexivity|].
  cbn [replicate app].
  by destruct (Qlt_le_dec _ _).
Qed.
End Engine_more.


(** Two late frames and a script whose processing fails. *)
Lemma Engine_loop_script_failure_witness :
  let st' := Engine_loop 2 script_stop script_continue_at script_continue_at
                         (λ _, false) 1 5 1 [late_frame; late_frame] (example_loop 0) in
  st' = Engine_iteration 2 script_stop script_continue_at script_continue_at
                         1 5 1 late_frame (example_loop 0)
  ∧ running st' = false
  ∧ ∃ new,
      calls st' = calls (example_loop 0) ++ new
      ∧ filter is_script new = [CALL_INTERPRETER_PROCESS]
      ∧ filter is_present new = [CALL_DISPLAY_PRESENT].
Proof.
  apply (Engine_loop_script_failure 2 script_stop script_continue_at script_continue_at
           (λ _, false) 1 5 1 late_frame [late_frame] (example_loop 0)).
  - reflexivity.
  - reflexivity.
  - reflexivity.
  - reflexivity.
Defined.

(** ** core/io/display.c: [compute_size] *)

(** X17.  A requested scale that is not 0 and not larger than the greatest
    scale that fits is the scale of the window, which is the canvas times
    that scale. *)
Theorem compute_size_requested_scale (platform : Platform) (display : Display_t)
  (configuration : Display_Configuration_t) (position : GL_Point_t) (w0 : World) (W H : Z) :
  monitor_workarea platform = (W, H) →
  0 < cfg_width configuration → 0 < cfg_height configuration →
  cfg_width configuration ≤ W → cfg_height configuration ≤ H →
  cfg_scale configuration ≠ 0 →
  cfg_scale configuration
    ≤ imin (W ÷ cfg_width configuration) (H ÷ cfg_height configuration) →
  ∃ display' position' w1,
    compute_size platform display configuration position w0
      = Some (true, display', position', w1)
    ∧ window_scale display' = cfg_scale configuration
    ∧ window_width display' = cfg_width configuration * cfg_scale configuration
    ∧ window_height display' = cfg_height configuration * cfg_scale configuration.
Proof.
  intros HWH Hw Hh HW HH Hscale Hmax.
  destruct (compute_size_fits platform display configuration position w0 W H)
    as (display' & position' & w1 & Hrun & Hs & Hwidth & Hheight & _); [done..|].
  exists display', position', w1. split; [done|].
  rewrite decide_False in Hs, Hwidth, Hheight by done.
  rewrite decide_False in Hs, Hwidth, Hheight by lia. done.
Qed.

Lemma compute_size_requested_scale_witness :
  ∃ display' position' w1,
    compute_size example_platform (Display_zero (example_configuration 320 180 2))
                 (example_configuration 320 180 2) (GL_Point 0 0) World_empty
      = Some (true, display', position', w1)
    ∧ window_scale display' = 2
    ∧ window_width display' = 320 * 2
    ∧ window_height display' = 180 * 2.
Proof.
  apply (compute_size_requested_scale example_platform
           (Display_zero (example_configuration 320 180 2))
           (example_configuration 320 180 2) (GL_Point 0 0) World_empty 1920 1080).
  - reflexivity.
  - reflexivity.
  - reflexivity.
  - simpl. lia.
  - simpl. lia.
  - simpl. lia.
  - vm_compute. discriminate.
Defined.

Lemma centred (W ww : Z) :
  0 ≤ ww ≤ W → 0 ≤ (W - ww) ÷ 2 ∧ 0 ≤ W - ww - 2 * ((W - ww) ÷ 2) ≤ 1.
Proof.
  intros. rewrite Z.quot_div_nonneg by lia.
  pose proof (Z.div_mod (W - ww) 2). pose proof (Z.mod_pos_bound (W - ww) 2).
  pose proof (Z.div_pos (W - ww) 2). lia.
Qed.

(** X18.  When the canvas fits and the requested scale is not negative,
    the picture is centred on the work area: windowed, the window is put at
    half the room left (rounded down) and the picture fills it from (0, 0);
    full screen, the window is put at (0, 0) with the size of the work area
    and the picture is drawn at half the room left.  Either way the picture
    has the size of the scaled canvas. *)
Theorem compute_size_centres (platform : Platform) (display : Display_t)
  (configuration : Display_Configuration_t) (position : GL_Point_t) (w0 : World) (W H : Z) :
  monitor_workarea platform = (W, H) →
  0 < cfg_width configuration → 0 < cfg_height configuration →
  cfg_width configuration ≤ W → cfg_height configuration ≤ H →
  0 ≤ cfg_scale configuration →
  ∃ display' position' w1,
    compute_size platform display configuration position w0
      = Some (true, display', position', w1)
    ∧ (let quad := vram_destination display' in
       let left := if cfg_fullscreen configuration then x0 quad else point_x position' in
       let top := if cfg_fullscreen configuration then y0 quad else point_y position' in
       x1 quad - x0 quad = window_width display'
       ∧ y1 quad - y0 quad = window_height display'
       ∧ 0 ≤ left ∧ 0 ≤ W - window_width display' - 2 * left ≤ 1
       ∧ 0 ≤ top ∧ 0 ≤ H - window_height display' - 2 * top ≤ 1
       ∧ (physical_width display', physical_height display')
         = (if cfg_fullscreen configuration then (W, H)
            else (window_width display', window_height display'))
       ∧ (cfg_fullscreen configuration = true → position' = GL_Point 0 0)
       ∧ (cfg_fullscreen configuration = false → x0 quad = 0 ∧ y0 quad = 0)).
Proof.
  intros HWH Hw Hh HW HH Hscale.
  set (max_scale := imin (W ÷ cfg_width configuration) (H ÷ cfg_height configuration)).
  destruct (max_scale_greatest (cfg_width configuration) (cfg_height configuration) W H)
    as (HmW & HmH & Hgreatest); [lia..|]. fold max_scale in HmW, HmH, Hgreatest.
  assert (1 ≤ max_scale) as Hmax by (apply Hgreatest; lia).
  assert (∀ s, 1 ≤ s ≤ max_scale →
            (0 ≤ (W - cfg_width configuration * s) ÷ 2
             ∧ 0 ≤ W - cfg_width configuration * s
                   - 2 * ((W - cfg_width configuration * s) ÷ 2) ≤ 1)
            ∧ (0 ≤ (H - cfg_height configuration * s) ÷ 2
               ∧ 0 ≤ H - cfg_height configuration * s
                     - 2 * ((H - cfg_height configuration * s) ÷ 2) ≤ 1)) as Hfit.
  { intros s Hs.
    assert (cfg_width configuration * s ≤ cfg_width configuration * max_scale)
      by (apply Z.mul_le_mono_nonneg_l; lia).
    assert (cfg_height configuration * s ≤ cfg_height configuration * max_scale)
      by (apply Z.mul_le_mono_nonneg_l; lia).
    split; apply centred; nia. }
  unfold compute_size. rewrite HWH. run. fold max_scale.
  rewrite (decide_False (P := max_scale = 0)) by lia.
  clearbody max_scale.
  destruct (decide (cfg_scale configuration ≠ 0)) as [Hreq|Hauto].
  - destruct (decide (cfg_scale configuration > max_scale)); run.
    + destruct (Hfit max_scale) as [? ?]; [lia|].
      destruct (cfg_fullscreen configuration); cbn [negb]; run;
        eexists _, _, _; (split; [reflexivity|]); cbn; repeat split; try done; lia.
    + destruct (Hfit (cfg_scale configuration)) as [? ?]; [lia|].
      destruct (cfg_fullscreen configuration); cbn [negb]; run;
        eexists _, _, _; (split; [reflexivity|]); cbn; repeat split; try done; lia.
  - rewrite decide_False by lia. run.
    destruct (Hfit max_scale) as [? ?]; [lia|].
    destruct (cfg_fullscreen configuration); cbn [negb]; run;
      eexists _, _, _; (split; [reflexivity|]); cbn; repeat split; try done; lia.
Qed.

Lemma compute_size_centres_witness :
  ∃ display' position' w1,
    compute_size example_platform (Display_zero (example_configuration 320 240 0))
                 (example_configuration 320 240 0) (GL_Point 0 0) World_empty
      = Some (true, display', position', w1)
    ∧ (let quad := vram_destination display' in
       let left := if cfg_fullscreen (example_configuration 320 240 0)
                   then x0 quad else point_x position' in
       let top := if cfg_fullscreen (example_configuration 320 240 0)
                  then y0 quad else point_y position' in
       x1 quad - x0 quad = window_width display'
       ∧ y1 quad - y0 quad = window_height display'
       ∧ 0 ≤ left ∧ 0 ≤ 1920 - window_width display' - 2 * left ≤ 1
       ∧ 0 ≤ top ∧ 0 ≤ 1080 - window_height display' - 2 * top ≤ 1
       ∧ (physical_width display', physical_height display')
         = (if cfg_fullscreen (example_configuration 320 240 0) then (1920, 1080)
            else (window_width display', window_height display'))
       ∧ (cfg_fullscreen (example_configuration 320 240 0) = true
          → position' = GL_Point 0 0)
       ∧ (cfg_fullscreen (example_configuration 320 240 0) = false
          → x0 quad = 0 ∧ y0 quad = 0)).
Proof.
  apply (compute_size_centres example_platform
           (Display_zero (example_configuration 320 240 0))
           (example_configuration 320 240 0) (GL_Point 0 0) World_empty 1920 1080).
  - reflexivity.
  - reflexivity.
  - reflexivity.
  - simpl. lia.
  - simpl. lia.
  - simpl. lia.
Defined.

(** ** Walking through stateful code *)

Lemma after_ret {A} (x : A) w (Q : A → World → Prop) : Q x w → after (mret x) w Q.
Proof. intros HQ. by exists x, w. Qed.

Lemma after_bind {A B} (m : M A) (f : A → M B) w (Q : B → World → Prop) :
  after m w (λ x w1, after (f x) w1 Q) → after (m ≫= f) w Q.
Proof.
  intros (x & w1 & Hm & y & w' & Hf & HQ). exists y, w'. split; [|done].
  by rewrite bind_run, Hm.
Qed.

Lemma after_emit e w (Q : unit → World → Prop) : Q tt (log w e) → after (emit e) w Q.
Proof. intros HQ. by exists tt, (log w e). Qed.

Lemma after_log level message w (Q : unit → World → Prop) :
  Q tt (log w (EV_LOG level message)) → after (Log_write level message) w Q.
Proof. apply after_emit. Qed.

Lemma after_mono {A} (m : M A) w (P Q : A → World → Prop) :
  after m w P → (∀ x w', P x w' → Q x w') → after m w Q.
Proof. intros (x & w' & Hm & HP) HPQ. exists x, w'. auto. Qed.

Lemma after_inv {A} (m : M A) w (Q : A → World → Prop) x w' :
  after m w Q → m w = Some (x, w') → Q x w'.
Proof. intros (y & w1 & Hm & HQ) Hrun. rewrite Hm in Hrun. by injection Hrun as <- <-. Qed.

Lemma after_gen_name w (Q : Z → World → Prop) :
  Q (fresh w + 1) {| trace := trace w; fresh := fresh w + 1; attached := attached w |} →
  after gen_name w Q.
Proof. intros HQ. by eexists _, _. Qed.

Lemma after_get_attached program w (Q : list Z → World → Prop) :
  Q (snd <$> filter (λ ps, fst ps = program) (attached w)) w →
  after (get_attached program) w Q.
Proof. intros HQ. by eexists _, _. Qed.

Lemma after_attach program shader w (Q : unit → World → Prop) :
  Q tt {| trace := trace w; fresh := fresh w;
          attached := attached w ++ [(program, shader)] |} →
  after (glAttachShader program shader) w Q.
Proof. intros HQ. by eexists _, _. Qed.

Lemma after_detach program shader w (Q : unit → World → Prop) :
  Q tt {| trace := trace w; fresh := fresh w;
          attached := filter (λ ps, ps ≠ (program, shader)) (attached w) |} →
  after (glDetachShader program shader) w Q.
Proof. intros HQ. by eexists _, _. Qed.

Lemma after_int_div a b w (Q : Z → World → Prop) :
  b ≠ 0 → Q (a ÷ b) w → after (int_div a b) w Q.
Proof. intros Hb HQ. exists (a ÷ b), w. by rewrite int_div_run. Qed.

(** Walking through a computation, one call at a time. *)
Ltac walk_step :=
  match goal with
  | |- after (mret _) _ _ => apply after_ret
  | |- after (_ ≫= _) _ _ => apply after_bind
  | |- after (emit _) _ _ => apply after_emit
  | |- after (Log_write _ _) _ _ => apply after_log
  | |- after gen_name _ _ => apply after_gen_name
  | |- after (get_attached _) _ _ => apply after_get_attached
  | |- after (glAttachShader _ _) _ _ => apply after_attach
  | |- after (glDetachShader _ _) _ _ => apply after_detach
  | |- after (if ?b then _ else _) _ _ => destruct b eqn:?
  | |- after (match ?x with _ => _ end) _ _ => destruct x eqn:?
  end.

Ltac walk := repeat walk_step.

(** The balance of [r] over a world built by logging. *)
Ltac settle :=
  cbn [trace log fresh attached fst snd program_id] in *;
  rewrite ?balance_app in *; cbn [balance] in *;
  repeat match goal with
         | |- context [decide ?P] => destruct (decide P); try (intuition congruence)
         | H : context [decide ?P] |- _ => destruct (decide P); try (intuition congruence)
         end;
  try lia.

Ltac settle_at r :=
  repeat match goal with
         | H : ∀ _ : Resource, _ |- _ => pose proof (H r); clear H
         end;
  settle.

Lemma filter_ext_in {A} (P Q : A → Prop) `{∀ x, Decision (P x)} `{∀ x, Decision (Q x)}
  (l : list A) :
  (∀ x, x ∈ l → (P x ↔ Q x)) → filter P l = filter Q l.
Proof.
  induction l as [|x l IH]; intros Hext; [done|].
  rewrite !filter_cons.
  destruct (decide (P x)) as [HP|HP], (decide (Q x)) as [HQ|HQ];
    try (exfalso; apply Hext in HP || apply Hext in HQ; [done|by left]).
  - f_equal. apply IH. intros y Hy. apply Hext. by right.
  - apply IH. intros y Hy. apply Hext. by right.
Qed.

Lemma filter_all {A} (P : A → Prop) `{∀ x, Decision (P x)} (l : list A) :
  Forall P l → filter P l = l.
Proof.
  induction 1 as [|x l Hx _ IH]; [done|]. by rewrite filter_cons_True, IH.
Qed.

(** ** gl/program.c *)

Section Program_facts.
Variable platform : Platform.

Lemma for_each_detach program (shaders : list Z) : ∀ w (Q : unit → World → Prop),
  (∀ w', fresh w' = fresh w →
         (∀ r, balance r (trace w') = balance r (trace w)) →
         attached w' = filter (λ ps, ¬ (fst ps = program ∧ snd ps ∈ shaders)) (attached w) →
         Q tt w') →
  after (for_each shaders (λ shader _,
           glDetachShader program shader;;
           Log_write LOG_LEVELS_DEBUG "<GL> shader #%d detached from program #%d") tt) w Q.
Proof.
  induction shaders as [|s shaders IH]; intros w Q HQ; cbn [for_each].
  - apply after_ret. apply HQ; [done..|].
    symmetry. apply filter_all. apply Forall_forall. intros [p s] _ [_ Hin].
    by apply elem_of_nil in Hin.
  - walk. apply IH. intros w' Hfresh Hbal Hatt. apply HQ.
    + by rewrite Hfresh.
    + intros r. rewrite Hbal. by settle.
    + rewrite Hatt. cbn [attached log]. rewrite list_filter_filter.
      apply list_filter_iff. intros [p s']. cbn [fst snd].
      rewrite elem_of_cons. split.
      * intros [H1 H2] [-> [->|H3]]; [done|]. apply H1. done.
      * intros H. split; [intros [-> H3]; apply H; auto|].
        intros [= -> ->]. apply H. auto.
Qed.

Lemma shaders_known_log w e : shaders_known w → shaders_known (log w e).
Proof. done. Qed.

Lemma GL_program_delete_run program w (Q : GL_Program_t → World → Prop) :
  (∀ w', fresh w' = fresh w → (shaders_known w → shaders_known w') →
         (∀ r, balance r (trace w')
               = balance r (trace w)
                 + if decide (RES_PROGRAM (program_id program) = r) then -1 else 0) →
         attached w' = filter (λ ps, fst ps ≠ program_id program) (attached w) →
         Q (GL_Program 0) w') →
  after (GL_program_delete program) w Q.
Proof.
  intros HQ. unfold GL_program_delete. walk.
  apply for_each_detach. cbn [fresh trace attached]. intros w' Hfresh Hbal Hatt.
  walk.
  assert (attached w'
          = filter (λ ps, fst ps ≠ program_id program) (attached w)) as Hatt'.
  { rewrite Hatt. apply filter_ext_in. intros [p s] Hin. cbn [fst snd].
    rewrite list_elem_of_fmap. split.
    + intros H ->. apply H. split; [done|]. exists (program_id program, s).
      split; [done|]. by apply list_elem_of_filter.
    + intros H [-> _]. done. }
  apply HQ.
  - done.
  - intros [H0 Hk]. split; cbn [fresh attached log]; [lia|].
    rewrite Hatt', Hfresh. apply Forall_forall. intros ps [_ Hin]%list_elem_of_filter.
    rewrite Forall_forall in Hk. by apply Hk.
  - intros r. cbn [trace log]. rewrite !balance_app, Hbal. cbn [balance].
    destruct (decide _); lia.
  - done.
Qed.

Lemma GL_program_create_run program w (Q : bool * GL_Program_t → World → Prop) :
  shaders_known w →
  (glCreateProgram_ok platform = false →
   ∀ w', fresh w' = fresh w → shaders_known w' →
         (∀ r, balance r (trace w') = balance r (trace w)) →
         Q (false, program) w') →
  (glCreateProgram_ok platform = true →
   ∀ w', fresh w' = fresh w + 1 → shaders_known w' →
         (∀ r, balance r (trace w')
               = balance r (trace w)
                 + if decide (RES_PROGRAM (fresh w + 1) = r) then 1 else 0) →
         Q (true, GL_Program (fresh w + 1)) w') →
  after (GL_program_create platform program) w Q.
Proof.
  intros [Hfresh Hknown] Hfail Hok. unfold GL_program_create, glCreateProgram.
  destruct (glCreateProgram_ok platform); walk; try lia.
  - apply Hok; [done..| |].
    + split; cbn [fresh attached log]; [lia|].
      eapply Forall_impl; [exact Hknown|]. intros ps Hs. cbn beta in *. lia.
    + intros r. by settle.
  - apply Hfail; [done..| |].
    + by split.
    + intros r. by settle.
Qed.

Lemma GL_program_attach_run program code shader_type w (Q : bool → World → Prop) :
  shaders_known w →
  (∀ w', fresh w ≤ fresh w' ≤ fresh w + 1 →
         (∀ r, balance r (trace w') = balance r (trace w)) →
         shaders_known w' →
         attached w'
         = (if glCreateShader_ok platform && shader_compiles platform code
               && program_links platform code
            then attached w ++ [(program_id program, fresh w + 1)]
            else attached w) →
         Q (glCreateShader_ok platform && shader_compiles platform code
            && program_links platform code) w') →
  after (GL_program_attach platform program code shader_type) w Q.
Proof.
  intros [Hfresh Hknown] HQ. unfold GL_program_attach, glCreateShader.
  assert (∀ p, filter (λ ps, ps ≠ (p, fresh w + 1)) (attached w) = attached w) as Hnew.
  { intros p. apply filter_all. eapply Forall_impl; [exact Hknown|].
    intros [p' s] Hs [= -> ->]. cbn in Hs. lia. }
  destruct (glCreateShader_ok platform), (shader_compiles platform code),
    (program_links platform code); cbn [negb andb] in *; walk; try lia;
    (apply HQ; cbn [fresh trace attached log];
     [lia|intros r; by settle
     |unfold shaders_known; cbn [fresh attached log]; split; [lia|]|];
     rewrite ?filter_app, ?Hnew, ?filter_cons_False, ?filter_nil, ?app_nil_r by naive_solver;
     try done;
     rewrite ?Forall_app, ?Forall_singleton; repeat split;
     first [cbn; lia
           |eapply Forall_impl; [exact Hknown|]; intros ps Hs; cbn beta in *; lia]).
Qed.
End Program_facts.

(** X19.  [GL_program_delete] always returns, with the handle zeroed: every
    shader attached to the program is detached and the attachments of the
    other programs are left alone; [glDeleteProgram] is called once, for the
    program's name, and nothing else is acquired or released. *)
Theorem GL_program_delete_detaches (program : GL_Program_t) (w : World) :
  ∃ w',
    GL_program_delete program w = Some (GL_Program 0, w')
    ∧ attached w' = filter (λ ps, fst ps ≠ program_id program) (attached w)
    ∧ ∀ r, balance r (trace w')
           = balance r (trace w)
             + if decide (RES_PROGRAM (program_id program) = r) then -1 else 0.
Proof.
  destruct (GL_program_delete_run program w
              (λ p w', p = GL_Program 0
                       ∧ attached w'
                         = filter (λ ps, fst ps ≠ program_id program) (attached w)
                       ∧ ∀ r, balance r (trace w')
                              = balance r (trace w)
                                + if decide (RES_PROGRAM (program_id program) = r)
                                  then -1 else 0))
    as (p & w' & Hrun & -> & Hatt & Hbal); [by intros w' _ _ Hbal Hatt|].
  by exists w'.
Qed.

(** X20.  [GL_program_attach] answers true exactly when the shader is
    created, compiles and links.  Only then is the new shader attached to
    the program: one that does not link is detached again.  Whatever the
    outcome, the shader object it created is deleted before it returns. *)
Theorem GL_program_attach_outcome (platform : Platform) (program : GL_Program_t)
  (code : string) (shader_type : GL_Program_Shaders_t) (w : World) :
  shaders_known w →
  let ok := glCreateShader_ok platform && shader_compiles platform code
            && program_links platform code in
  ∃ w',
    GL_program_attach platform program code shader_type w = Some (ok, w')
    ∧ (∀ r, balance r (trace w') = balance r (trace w))
    ∧ attached w' = (if ok then attached w ++ [(program_id program, fresh w + 1)]
                     else attached w)
    ∧ shaders_known w'.
Proof.
  intros Hknown ok.
  destruct (GL_program_attach_run platform program code shader_type w
              (λ b w', b = ok
                       ∧ (∀ r, balance r (trace w') = balance r (trace w))
                       ∧ attached w'
                         = (if ok then attached w ++ [(program_id program, fresh w + 1)]
                            else attached w)
                       ∧ shaders_known w'))
    as (b & w' & Hrun & -> & H); [done| |by exists w'].
  intros w' _ Hbal Hk Hatt. done.
Qed.

Lemma GL_program_attach_outcome_witness :
  let ok := glCreateShader_ok platform_with_compiler
            && shader_compiles platform_with_compiler (FRAGMENT_SHADER_CUSTOM +:+ broken_effect)
            && program_links platform_with_compiler (FRAGMENT_SHADER_CUSTOM +:+ broken_effect) in
  ∃ w',
    GL_program_attach platform_with_compiler (GL_Program 1)
      (FRAGMENT_SHADER_CUSTOM +:+ broken_effect) GL_PROGRAM_SHADER_FRAGMENT World_empty
    = Some (ok, w')
    ∧ (∀ r, balance r (trace w') = balance r (trace World_empty))
    ∧ attached w' = (if ok then attached World_empty ++ [(1, fresh World_empty + 1)]
                     else attached World_empty)
    ∧ shaders_known w'.
Proof.
  apply (GL_program_attach_outcome platform_with_compiler (GL_Program 1)
           (FRAGMENT_SHADER_CUSTOM +:+ broken_effect) GL_PROGRAM_SHADER_FRAGMENT World_empty).
  split; [simpl; lia|constructor].
Defined.

Lemma program_in_use_log w e :
  program_in_use (log w e)
  = match e with EV_USE_PROGRAM id => Some id | _ => program_in_use w end.
Proof.
  unfold program_in_use. cbn [trace log]. rewrite omap_app.
  destruct e; cbn [omap list_omap]; rewrite ?app_nil_r; try done.
  by rewrite last_snoc.
Qed.

(** ** core/io/display.c: [Display_shader] *)

Ltac fields :=
  progress cbn [active active_program set_active_program set_program programs
                program_slot fmap option_fmap option_map fst snd
                display_vram vram_texture set_display_vram set_vram_texture
                set_window set_gl set_palette set_window_size set_destination
                window gl display_palette window_width window_height window_scale
                physical_width physical_height vram_destination
                display_configuration Display_zero negb andb
                unwind_programs for_each initialize_programs _programs_data].

(** Facts at hand about the platform and the display are used as soon as
    they apply. *)
Ltac facts :=
  match goal with
  | H : active_program ?d = _ |- context [active_program ?d] => rewrite H
  | H : glCreateProgram_ok ?p = _ |- context [glCreateProgram_ok ?p] => rewrite H
  | H : glCreateShader_ok ?p = _ |- context [glCreateShader_ok ?p] => rewrite H
  | H : shader_compiles ?p ?c = _ |- context [shader_compiles ?p ?c] => rewrite H
  | H : program_links ?p ?c = _ |- context [program_links ?p ?c] => rewrite H
  | H : malloc_ok ?p = _ |- context [malloc_ok ?p] => rewrite H
  | H : glCreateProgram_ok ?p = true, H' : glCreateProgram_ok ?p = false |- _ =>
      congruence
  | |- context [bool_decide (Some ?x = None)] =>
      rewrite (bool_decide_false (Some x = None)) by done
  | |- context [bool_decide (@None ?A = None)] =>
      rewrite (bool_decide_true (@None A = None)) by done
  end.

Ltac known := solve [eauto 30 using shaders_known_log].

(** The calls of [gl/program.c] are walked over by their run lemmas. *)
Ltac shader_step :=
  match goal with
  | |- after (GL_program_delete _) _ _ =>
      apply GL_program_delete_run; intros ? ? ? ? ?
  | |- after (GL_program_create _ _) _ _ =>
      apply GL_program_create_run; [known|intros ? ? ? ? ?|intros ? ? ? ? ?]
  | |- after (GL_program_attach _ _ _ _) _ _ =>
      apply GL_program_attach_run; [known|intros ? ? ? ? ?]
  | |- after (GL_program_use _) _ _ => apply after_emit
  | |- after (program_prepare _) _ _ => apply after_emit
  | H : ?b = _ |- after (if ?b then _ else _) _ _ => rewrite H
  | |- after (if negb ?b then _ else _) _ _ => destruct b eqn:?; cbn [negb]
  | _ => walk_step
  end.

Ltac walk_shader := repeat first [facts | fields | shader_step].

Ltac finish :=
  first
    [ solve [intros; known]
    | cbn [fresh trace attached log program_id fst snd] in *;
      repeat match goal with H : fresh ?x = _ |- _ => rewrite H in *; clear H end;
      repeat split; try done;
      try (rewrite !program_in_use_log; done);
      try (let r := fresh "r" in intros r; settle_at r) ].

Ltac as_after :=
  match goal with
  | |- ∃ x w', ?m ?w = Some (x, w') ∧ @?Q x w' => change (after m w Q)
  end.

(** X21.  [Display_shader] with no effect always returns with the
    pass-through program active and untouched; when it was not the active
    one already, the custom program is deleted and its slot zeroed, and the
    pass-through program is the one the driver is told to use. *)
Theorem Display_shader_null_selects_passthru (platform : Platform) (display : Display_t)
  (w : World) :
  ∃ display' w',
    Display_shader platform display None w = Some (display', w')
    ∧ active_program display' = Some DISPLAY_PROGRAM_PASSTHRU
    ∧ fst (programs display') = fst (programs display)
    ∧ (active_program display ≠ Some DISPLAY_PROGRAM_PASSTHRU →
       snd (programs display') = GL_Program 0
       ∧ program_in_use w' = Some (program_id (fst (programs display)))).
Proof.
  destruct (decide (active_program display = Some DISPLAY_PROGRAM_PASSTHRU)) as [Hp|Hp].
  { rewrite Display_shader_passthru_null by done. eexists _, _. split; [done|].
    split; [done|]. split; [done|]. done. }
  assert (after (Display_shader platform display None) w
            (λ display' w',
               active_program display' = Some DISPLAY_PROGRAM_PASSTHRU
               ∧ fst (programs display') = fst (programs display)
               ∧ snd (programs display') = GL_Program 0
               ∧ program_in_use w' = Some (program_id (fst (programs display)))))
    as (display' & w' & Hrun & H).
  { unfold Display_shader, program_use, program_send, active.
    rewrite bool_decide_false by done. cbn [andb negb].
    destruct (active_program display) as [[|]|] eqn:Hactive; [done| |];
      walk_shader; (repeat split; [by destruct (programs display)..|]);
      by rewrite !program_in_use_log. }
  exists display', w'. destruct H as (H1 & H2 & H3 & H4). auto.
Qed.

(** X22.  On a platform where the program and both shaders can be built,
    [Display_shader] with an effect makes a new custom program the active
    one and the one in use: the driver's next name is in the custom slot,
    the pass-through program is untouched, and the only programs created or
    deleted are the new one and, when a custom program was active before,
    that one. *)
Theorem Display_shader_loads_custom (platform : Platform) (display : Display_t)
  (effect : string) (w : World) :
  shaders_known w →
  glCreateProgram_ok platform = true → glCreateShader_ok platform = true →
  shader_compiles platform VERTEX_SHADER = true →
  program_links platform VERTEX_SHADER = true →
  shader_compiles platform (FRAGMENT_SHADER_CUSTOM +:+ effect) = true →
  program_links platform (FRAGMENT_SHADER_CUSTOM +:+ effect) = true →
  ∃ display' w',
    Display_shader platform display (Some effect) w = Some (display', w')
    ∧ active_program display' = Some DISPLAY_PROGRAM_CUSTOM
    ∧ programs display' = (fst (programs display), GL_Program (fresh w + 1))
    ∧ program_in_use w' = Some (fresh w + 1)
    ∧ ∀ r, balance r (trace w')
           = balance r (trace w)
             + (if decide (RES_PROGRAM (fresh w + 1) = r) then 1 else 0)
             - (if decide (active_program display = Some DISPLAY_PROGRAM_CUSTOM
                           ∧ RES_PROGRAM (program_id (snd (programs display))) = r)
                then 1 else 0).
Proof.
  intros Hknown Hcp Hcs Hcv Hlv Hcf Hlf. as_after.
  unfold Display_shader, program_use, program_send.
  rewrite (bool_decide_false (Some effect = None)) by done. rewrite andb_false_r.
  destruct (active_program display) as [[|]|] eqn:Hactive;
    [rewrite bool_decide_true by done|rewrite bool_decide_false by done..];
    cbn [negb]; walk_shader; finish.
Qed.

Lemma Display_shader_loads_custom_witness :
  ∃ display' w',
    Display_shader example_platform
example_display (Some working_effect) World_empty = Some (display', w')
    ∧ active_program display' = Some DISPLAY_PROGRAM_CUSTOM
    ∧ programs display' = (GL_Program 0, GL_Program (fresh World_empty + 1))
    ∧ program_in_use w' = Some (fresh World_empty + 1)
    ∧ ∀ r, balance r (trace w')
           = balance r (trace World_empty)
             + (if decide (RES_PROGRAM (fresh World_empty + 1) = r) then 1 else 0)
             - (if decide (Some DISPLAY_PROGRAM_PASSTHRU = Some DISPLAY_PROGRAM_CUSTOM
                           ∧ RES_PROGRAM 0 = r)
                then 1 else 0).
Proof.
  apply (Display_shader_loads_custom example_platform example_display
           working_effect World_empty).
  - split; [simpl; lia|constructor].
  - reflexivity.
  - reflexivity.
  - reflexivity.
  - reflexivity.
  - reflexivity.
  - reflexivity.
Defined.

(** X23.  When the pass-through program is active and the custom program
    can be created but one of its shaders cannot be built, [Display_shader]
    gives up cleanly: the pass-through program stays the active one and is
    the one in use, the custom slot is zeroed, and everything the attempt
    acquired has been released. *)
Theorem Display_shader_failure_is_undone (platform : Platform) (display : Display_t)
  (effect : string) (w : World) :
  shaders_known w →
  active_program display = Some DISPLAY_PROGRAM_PASSTHRU →
  glCreateProgram_ok platform = true →
  glCreateShader_ok platform && shader_compiles platform VERTEX_SHADER
    && program_links platform VERTEX_SHADER
    && (glCreateShader_ok platform
        && shader_compiles platform (FRAGMENT_SHADER_CUSTOM +:+ effect)
        && program_links platform (FRAGMENT_SHADER_CUSTOM +:+ effect)) = false →
  ∃ display' w',
    Display_shader platform display (Some effect) w = Some (display', w')
    ∧ active_program display' = Some DISPLAY_PROGRAM_PASSTHRU
    ∧ programs display' = (fst (programs display), GL_Program 0)
    ∧ program_in_use w' = Some (program_id (fst (programs display)))
    ∧ ∀ r, balance r (trace w') = balance r (trace w).
Proof.
  intros Hknown Hactive Hcp Hfail. as_after.
  unfold Display_shader, program_use, program_send.
  rewrite (bool_decide_false (Some effect = None)) by done. rewrite andb_false_r.
  rewrite Hactive, bool_decide_true by done. cbn [negb].
  walk_shader; finish.
  all: repeat match goal with H : _ && _ = true |- _ => rewrite H in * end;
    try discriminate.
Qed.

Lemma Display_shader_failure_is_undone_witness :
  ∃ display' w',
    Display_shader platform_with_compiler
example_display (Some broken_effect) World_empty = Some (display', w')
    ∧ active_program display' = Some DISPLAY_PROGRAM_PASSTHRU
    ∧ programs display' = (GL_Program 0, GL_Program 0)
    ∧ program_in_use w' = Some 0
    ∧ ∀ r, balance r (trace w') = balance r (trace World_empty).
Proof.
  apply (Display_shader_failure_is_undone platform_with_compiler example_display
           broken_effect World_empty).
  - split; [simpl; lia|constructor].
  - reflexivity.
  - reflexivity.
  - vm_compute. reflexivity.
Defined.

(** ** core/io/display.c: [Display_initialize] and [Display_terminate] *)

Lemma compute_size_run platform display configuration position w
  (Q : bool * Display_t * GL_Point_t → World → Prop) :
  cfg_width configuration ≠ 0 → cfg_height configuration ≠ 0 →
  (∀ fits display' position' w',
     fresh w' = fresh w → (shaders_known w → shaders_known w') →
     (∀ r, balance r (trace w') = balance r (trace w)) →
     display_vram display' = display_vram display →
     programs display' = programs display →
     active_program display' = active_program display →
     vram_texture display' = vram_texture display →
     display_configuration display' = display_configuration display →
     (fits = false → fit_failure ∈ trace w') →
     Q (fits, display', position') w') →
  after (compute_size platform display configuration position) w Q.
Proof.
  intros Hw Hh HQ. unfold compute_size.
  destruct (monitor_workarea platform) as [W H].
  walk_shader; try (apply after_int_div; [done|]); walk_shader;
    try (apply after_int_div; [done|]); walk_shader;
    apply HQ; try done;
    try (intros r; by settle);
    intros _; cbn [trace log]; unfold fit_failure;
    rewrite !elem_of_app, !list_elem_of_singleton; tauto.
Qed.

Lemma Display_shader_null_run platform display w (Q : Display_t → World → Prop) :
  active_program display = None →
  (∀ w', fresh w' = fresh w → (shaders_known w → shaders_known w') →
         (∀ r, balance r (trace w')
               = balance r (trace w)
                 + if decide (RES_PROGRAM (program_id (snd (programs display))) = r)
                   then -1 else 0) →
         Q (set_active_program
              (set_program display DISPLAY_PROGRAM_CUSTOM (GL_Program 0))
              (Some DISPLAY_PROGRAM_PASSTHRU)) w') →
  after (Display_shader platform display None) w Q.
Proof.
  intros Hactive HQ. unfold Display_shader, program_use, program_send.
  rewrite Hactive, bool_decide_false by done. cbn [andb negb].
  walk_shader. apply HQ; finish.
Qed.

(** The calls of [Display_initialize] and [Display_terminate]. *)
Ltac display_step :=
  match goal with
  | |- after (unwind_programs _ _) _ _ => unfold unwind_programs
  | |- after (free_colors _) _ _ => unfold free_colors
  | |- after (glDeleteBuffers _) _ _ => apply after_emit
  | |- after GL_context_delete _ _ => apply after_emit
  | |- after glfwDestroyWindow _ _ => apply after_emit
  | |- after glfwTerminate _ _ => apply after_emit
  | |- after (compute_size _ _ _ _) _ _ =>
      apply compute_size_run; [done|done|intros ? ? ? ? ? ? ? ? ? ? ? ? ?]
  | |- after (Display_shader _ _ None) _ _ =>
      apply Display_shader_null_run; [fields; done|intros ? ? ? ?]
  | _ => shader_step
  end.

Ltac walk_display := repeat first [facts | fields | display_step].

Ltac settle_goal :=
  match goal with |- context [balance ?r _] => settle_at r end.

Ltac member :=
  cbn [trace log] in *; rewrite ?elem_of_app in *; tauto.

Ltac initialized_leaf :=
  unfold initialized; cbn [fst snd];
  split;
  [ let r := fresh "r" in let Hr := fresh "Hr" in
    intros r Hr; destruct r; cbn in Hr; try contradiction; by settle_goal
  | split;
    [ let H := fresh in
      intros H;
      first
        [ discriminate H
        | split;
          [ let r := fresh "r" in let Hr := fresh "Hr" in
            intros r Hr; destruct r; cbn in Hr; try contradiction; by settle_goal
          | repeat fields; done ] ]
    | let H := fresh in
      intros H;
      first
        [ discriminate H
        | split; [by settle_goal|]; split; [by settle_goal|]; split; [by settle_goal|];
          first [ left; by settle_goal | right; split; [by settle_goal|member] ] ] ] ].

Lemma Display_terminate_run display w :
  after (Display_terminate display) w
    (λ display' w',
       programs display' = (GL_Program 0, GL_Program 0)
       ∧ (∀ r, engine_resource r → balance r (trace w') = balance r (trace w))
       ∧ (∀ r, display_resource r →
               balance r (trace w')
               = balance r (trace w)
                 - if decide (r = RES_VRAM ∧ display_vram display = None) then 0 else 1)).
Proof.
  unfold Display_terminate. walk_display;
    (split; [by destruct (programs display) as [[?] [?]]; cbn in *; subst|]);
    (split; intros r Hr; destruct r; cbn in Hr; try contradiction; by settle_goal).
Qed.

Section Display_lifecycle.
Variable platform : Platform.
Variable GL_MAX_PALETTE_COLORS : nat.
Variable GL_palette_greyscale : nat → GL_Palette_t.
Variable uninitialised : GL_Color_t.

Lemma Display_initialize_run configuration title w0 :
  shaders_known w0 →
  cfg_width configuration ≠ 0 → cfg_height configuration ≠ 0 →
  malloc_ok platform = true →
  after (Display_initialize platform GL_MAX_PALETTE_COLORS GL_palette_greyscale
                            uninitialised configuration title) w0 (initialized w0).
Proof.
  intros Hknown Hw Hh Hmalloc.
  unfold Display_initialize, glfwInit, glfwCreateWindow, glfwTerminate, glfwDestroyWindow,
    GL_context_create, GL_context_delete, malloc_colors, free_colors, glGenTextures,
    glDeleteBuffers.
  cbn [initialize_programs _programs_data unwind_programs for_each].
  walk_display; initialized_leaf.
Qed.

(** X24.  With a canvas of non-zero size and memory for the presentation
    buffer, [Display_initialize] always returns, and when it answers false
    it has given back GLFW, the window and the presentation buffer.  The GL
    context is given back too, unless the failure is the one of
    [compute_size]: then the fit failure has been logged and the context is
    still held. *)
Theorem Display_initialize_failure_releases (configuration : Display_Configuration_t)
  (title : string) (w0 : World) :
  shaders_known w0 →
  cfg_width configuration ≠ 0 → cfg_height configuration ≠ 0 →
  malloc_ok platform = true →
  ∃ ok display w1,
    Display_initialize platform GL_MAX_PALETTE_COLORS GL_palette_greyscale
                       uninitialised configuration title w0
      = Some (ok, display, w1)
    ∧ (ok = false →
       balance RES_GLFW (trace w1) = balance RES_GLFW (trace w0)
       ∧ balance RES_WINDOW (trace w1) = balance RES_WINDOW (trace w0)
       ∧ balance RES_VRAM (trace w1) = balance RES_VRAM (trace w0)
       ∧ (balance RES_GL_CONTEXT (trace w1) = balance RES_GL_CONTEXT (trace w0)
          ∨ (balance RES_GL_CONTEXT (trace w1) = balance RES_GL_CONTEXT (trace w0) + 1
             ∧ fit_failure ∈ trace w1))).
Proof.
  intros Hknown Hw Hh Hmalloc.
  destruct (Display_initialize_run configuration title w0 Hknown Hw Hh Hmalloc)
    as ([ok display] & w1 & Hrun & _ & _ & Hfalse).
  by exists ok, display, w1.
Qed.

(** X25.  When [Display_initialize] answers true it holds one more of GLFW,
    the window, the GL context and the presentation buffer, and
    [Display_terminate] then returns with both program slots zeroed and
    with every one of these, and every resource of the engine, back to what
    it was before the display was initialised. *)
Theorem Display_lifecycle_is_balanced (configuration : Display_Configuration_t)
  (title : string) (w0 : World) :
  shaders_known w0 →
  cfg_width configuration ≠ 0 → cfg_height configuration ≠ 0 →
  malloc_ok platform = true →
  ∃ ok display w1,
    Display_initialize platform GL_MAX_PALETTE_COLORS GL_palette_greyscale
                       uninitialised configuration title w0
      = Some (ok, display, w1)
    ∧ (ok = true →
       (∀ r, display_resource r → balance r (trace w1) = balance r (trace w0) + 1)
       ∧ ∃ display' w2,
           Display_terminate display w1 = Some (display', w2)
           ∧ programs display' = (GL_Program 0, GL_Program 0)
           ∧ ∀ r, display_resource r ∨ engine_resource r →
                  balance r (trace w2) = balance r (trace w0)).
Proof.
  intros Hknown Hw Hh Hmalloc.
  destruct (Display_initialize_run configuration title w0 Hknown Hw Hh Hmalloc)
    as ([ok display] & w1 & Hrun & Hengine & Htrue & _).
  exists ok, display, w1. split; [done|]. intros ->.
  destruct (Htrue eq_refl) as [Hup Hvram]. split; [done|].
  destruct (Display_terminate_run display w1)
    as (display' & w2 & Hrun' & Hprograms & Hengine' & Hdown).
  exists display', w2. split; [done|]. split; [done|].
  intros r [Hr|Hr].
  - rewrite Hdown, Hup by done. cbn [snd] in Hvram.
    destruct (decide _) as [[_ Hnone]|_]; [done|lia].
  - rewrite Hengine', Hengine by done. done.
Qed.
End Display_lifecycle.

(** A canvas larger than the work area. *)
Lemma Display_initialize_failure_releases_witness :
  ∃ ok display w1,
    Display_initialize example_platform 4 example_greyscale (GL_Color 0 0 0 0)
                       (example_configuration 4000 3000 0) "zest" World_empty
      = Some (ok, display, w1)
    ∧ (ok = false →
       balance RES_GLFW (trace w1) = balance RES_GLFW (trace World_empty)
       ∧ balance RES_WINDOW (trace w1) = balance RES_WINDOW (trace World_empty)
       ∧ balance RES_VRAM (trace w1) = balance RES_VRAM (trace World_empty)
       ∧ (balance RES_GL_CONTEXT (trace w1) = balance RES_GL_CONTEXT (trace World_empty)
          ∨ (balance RES_GL_CONTEXT (trace w1)
             = balance RES_GL_CONTEXT (trace World_empty) + 1
             ∧ fit_failure ∈ trace w1))).
Proof.
  apply (Display_initialize_failure_releases example_platform 4 example_greyscale
           (GL_Color 0 0 0 0) (example_configuration 4000 3000 0) "zest" World_empty).
  - split; [simpl; lia|constructor].
  - simpl; lia.
  - simpl; lia.
  - reflexivity.
Defined.

Lemma Display_lifecycle_is_balanced_witness :
  ∃ ok display w1,
    Display_initialize example_platform 4 example_greyscale (GL_Color 0 0 0 0)
                       (example_configuration 8 6 0) "zest" World_empty
      = Some (ok, display, w1)
    ∧ (ok = true →
       (∀ r, display_resource r →
             balance r (trace w1) = balance r (trace World_empty) + 1)
       ∧ ∃ display' w2,
           Display_terminate display w1 = Some (display', w2)
           ∧ programs display' = (GL_Program 0, GL_Program 0)
           ∧ ∀ r, display_resource r ∨ engine_resource r →
                  balance r (trace w2) = balance r (trace World_empty)).
Proof.
  apply (Display_lifecycle_is_balanced example_platform 4 example_greyscale
           (GL_Color 0 0 0 0) (example_configuration 8 6 0) "zest" World_empty).
  - split; [simpl; lia|constructor].
  - simpl; lia.
  - simpl; lia.
  - reflexivity.
Defined.

(** ** core/engine.c: [Engine_initialize] and [Engine_terminate] *)

Ltac engine_step :=
  match goal with
  | |- after (mret _) _ _ => apply after_ret
  | |- after (_ ≫= _) _ _ => apply after_bind
  | |- after (emit _) _ _ => apply after_emit
  | |- after (Log_write _ _) _ _ => apply after_log
  | |- after (Display_initialize _ _ _ _ _ _) _ _ =>
      eapply after_mono;
      [apply Display_initialize_run; [known|done|done|done]
      |intros [? ?] ? (? & ? & ?)]
  | |- after (Display_terminate _) _ _ =>
      eapply after_mono; [apply Display_terminate_run|intros ? ? (? & ? & ?)]
  | |- after (if negb ?b then _ else _) _ _ => destruct b eqn:?; cbn [negb]
  | |- after (if ?b then _ else _) _ _ => destruct b eqn:?
  | |- after (match ?x with _ => _ end) _ _ => destruct x eqn:?
  end.

Ltac walk_engine := repeat first [facts | fields | engine_step].

Ltac premises :=
  cbn [fst snd] in *;
  repeat match goal with
         | H : true = true → _ |- _ => specialize (H eq_refl)
         | H : false = false → _ |- _ => specialize (H eq_refl)
         | H : true = false → _ |- _ => clear H
         | H : false = true → _ |- _ => clear H
         | H : _ ∧ _ |- _ => destruct H
         end.

Ltac at_resource r :=
  repeat match goal with
         | H : ∀ r' : Resource, _ → _ |- _ =>
             first [pose proof (H r I) | idtac]; clear H
         end;
  settle.

Ltac at_goal :=
  match goal with |- context [balance ?r _] => at_resource r end.

Ltac each_resource :=
  let r := fresh "r" in let Hr := fresh "Hr" in
  intros r Hr; destruct r; cbn in Hr; try contradiction;
  unfold engine_holds;
  repeat match goal with
         | H : has_icon _ = _ |- _ => rewrite H
         end;
  at_goal; repeat case_bool_decide; cbn [andb]; first [lia | congruence].

Ltac engine_leaf :=
  unfold engine_initialized; premises;
  repeat match goal with
         | H : FS_initialize_ok _ = _ |- _ => rewrite H
         | H : has_icon _ = _ |- _ => rewrite H
         end;
  cbn [andb];
  split;
  (let H := fresh in
   intros H;
   first
     [ discriminate H
     | repeat match goal with
              | |- _ ∧ _ => split
              | |- ∀ _ : Resource, _ => each_resource
              | |- ∃ _, _ => eexists
              end;
       first [ done | by at_goal ] ]).

Section Engine_lifecycle.
Variable platform : Platform.
Variable subsystems : Subsystems.
Variable GL_MAX_PALETTE_COLORS : nat.
Variable GL_palette_greyscale : nat → GL_Palette_t.
Variable uninitialised : GL_Color_t.
Variable configuration : Display_Configuration_t.
Variable title : string.

Lemma Engine_initialize_run base_path w0 :
  shaders_known w0 →
  cfg_width configuration ≠ 0 → cfg_height configuration ≠ 0 →
  malloc_ok platform = true →
  after (Engine_initialize platform subsystems GL_MAX_PALETTE_COLORS
           GL_palette_greyscale uninitialised configuration title base_path) w0
        (engine_initialized subsystems w0).
Proof.
  intros Hknown Hw Hh Hmalloc.
  unfold Engine_initialize, _configure, _load_icon, FS_load, FS_release.
  walk_engine; engine_leaf.
Qed.

Lemma Engine_terminate_run display w :
  after (Engine_terminate subsystems display) w
    (λ display' w',
       (∀ r, engine_resource r →
             balance r (trace w') = balance r (trace w) - engine_holds subsystems r)
       ∧ (∀ r, display_resource r →
               balance r (trace w')
               = balance r (trace w)
                 - if decide (r = RES_VRAM ∧ display_vram display = None) then 0 else 1)).
Proof.
  unfold Engine_terminate, FS_release. walk_engine; premises; split; each_resource.
Qed.

(** X26.  With a canvas of non-zero size and memory for the presentation
    buffer, [Engine_initialize] always returns, and when it answers false
    the file system, the input, the audio, the interpreter, GLFW, the window
    and the presentation buffer are each back to what they were.  The
    environment and the icon are not: no failure path terminates the one or
    releases the other, so each is held once more whenever the file system
    came up (and, for the icon, there is one). *)
Theorem Engine_initialize_failure_unwinds (base_path : string) (w0 : World) :
  shaders_known w0 →
  cfg_width configuration ≠ 0 → cfg_height configuration ≠ 0 →
  malloc_ok platform = true →
  ∃ ok display w1,
    Engine_initialize platform subsystems GL_MAX_PALETTE_COLORS GL_palette_greyscale
                      uninitialised configuration title base_path w0
      = Some (ok, display, w1)
    ∧ (ok = false →
       balance RES_FILE_SYSTEM (trace w1) = balance RES_FILE_SYSTEM (trace w0)
       ∧ balance RES_INPUT (trace w1) = balance RES_INPUT (trace w0)
       ∧ balance RES_AUDIO (trace w1) = balance RES_AUDIO (trace w0)
       ∧ balance RES_INTERPRETER (trace w1) = balance RES_INTERPRETER (trace w0)
       ∧ balance RES_GLFW (trace w1) = balance RES_GLFW (trace w0)
       ∧ balance RES_WINDOW (trace w1) = balance RES_WINDOW (trace w0)
       ∧ balance RES_VRAM (trace w1) = balance RES_VRAM (trace w0)
       ∧ balance RES_ENVIRONMENT (trace w1)
         = balance RES_ENVIRONMENT (trace w0)
           + (if FS_initialize_ok subsystems then 1 else 0)
       ∧ balance (RES_CHUNK "icon") (trace w1)
         = balance (RES_CHUNK "icon") (trace w0)
           + (if FS_initialize_ok subsystems && has_icon subsystems then 1 else 0)).
Proof.
  intros Hknown Hw Hh Hmalloc.
  destruct (Engine_initialize_run base_path w0 Hknown Hw Hh Hmalloc)
    as ([ok display] & w1 & Hrun & _ & Hfalse).
  by exists ok, display, w1.
Qed.

(** X27.  With a canvas of non-zero size and memory for the presentation
    buffer, [Engine_initialize] answers true only when the file system, the
    input, the audio and the interpreter all initialised, and then there is
    a display and [Engine_terminate] returns with GLFW, the window, the GL
    context and the presentation buffer, and every resource of the engine
    (the file system, its chunks, the icon among them, the environment, the
    input, the audio and the interpreter) back to what it was before the
    engine was initialised. *)
Theorem Engine_lifecycle_is_balanced (base_path : string) (w0 : World) :
  shaders_known w0 →
  cfg_width configuration ≠ 0 → cfg_height configuration ≠ 0 →
  malloc_ok platform = true →
  ∃ ok display w1,
    Engine_initialize platform subsystems GL_MAX_PALETTE_COLORS GL_palette_greyscale
                      uninitialised configuration title base_path w0
      = Some (ok, display, w1)
    ∧ (ok = true →
       FS_initialize_ok subsystems = true ∧ Input_initialize_ok subsystems = true
       ∧ Audio_initialize_ok subsystems = true
       ∧ Interpreter_initialize_ok subsystems = true
       ∧ ∃ display0 display' w2,
           display = Some display0
           ∧ Engine_terminate subsystems display0 w1 = Some (display', w2)
           ∧ ∀ r, display_resource r ∨ engine_resource r →
                  balance r (trace w2) = balance r (trace w0)).
Proof.
  intros Hknown Hw Hh Hmalloc.
  destruct (Engine_initialize_run base_path w0 Hknown Hw Hh Hmalloc)
    as ([ok display] & w1 & Hrun & Htrue & _).
  exists ok, display, w1. split; [done|]. intros ->. cbn [fst snd] in Htrue.
  destruct (Htrue eq_refl)
    as (Hfs & Hinput & Haudio & Hscript & Hengine & Hdisplay & display0 & -> & Hvram).
  do 4 (split; [done|]).
  destruct (Engine_terminate_run display0 w1) as (display' & w2 & Hrun' & Hengine' & Hdown).
  exists display0, display', w2. split; [done|]. split; [done|].
  intros r [Hr|Hr].
  - rewrite Hdown, Hdisplay by done.
    destruct (decide _) as [[_ Hnone]|_]; [done|lia].
  - rewrite Hengine', Hengine by done. lia.
Qed.
End Engine_lifecycle.

(** A canvas larger than the work area: the display does not come up. *)
Lemma Engine_initialize_failure_unwinds_witness :
  ∃ ok display w1,
    Engine_initialize example_platform example_subsystems 4 example_greyscale
                      (GL_Color 0 0 0 0) (example_configuration 4000 3000 0) "zest" "."
                      World_empty
      = Some (ok, display, w1)
    ∧ (ok = false →
       balance RES_FILE_SYSTEM (trace w1) = balance RES_FILE_SYSTEM (trace World_empty)
       ∧ balance RES_INPUT (trace w1) = balance RES_INPUT (trace World_empty)
       ∧ balance RES_AUDIO (trace w1) = balance RES_AUDIO (trace World_empty)
       ∧ balance RES_INTERPRETER (trace w1) = balance RES_INTERPRETER (trace World_empty)
       ∧ balance RES_GLFW (trace w1) = balance RES_GLFW (trace World_empty)
       ∧ balance RES_WINDOW (trace w1) = balance RES_WINDOW (trace World_empty)
       ∧ balance RES_VRAM (trace w1) = balance RES_VRAM (trace World_empty)
       ∧ balance RES_ENVIRONMENT (trace w1)
         = balance RES_ENVIRONMENT (trace World_empty)
           + (if FS_initialize_ok example_subsystems then 1 else 0)
       ∧ balance (RES_CHUNK "icon") (trace w1)
         = balance (RES_CHUNK "icon") (trace World_empty)
           + (if FS_initialize_ok example_subsystems && has_icon example_subsystems
              then 1 else 0)).
Proof.
  apply (Engine_initialize_failure_unwinds example_platform example_subsystems 4
           example_greyscale (GL_Color 0 0 0 0) (example_configuration 4000 3000 0) "zest"
           "." World_empty).
  - split; [simpl; lia|constructor].
  - simpl; lia.
  - simpl; lia.
  - reflexivity.
Defined.

Lemma Engine_lifecycle_is_balanced_witness :
  ∃ ok display w1,
    Engine_initialize example_platform example_subsystems 4 example_greyscale
                      (GL_Color 0 0 0 0) (example_configuration 8 6 0) "zest" "."
                      World_empty
      = Some (ok, display, w1)
    ∧ (ok = true →
       FS_initialize_ok example_subsystems = true
       ∧ Input_initialize_ok example_subsystems = true
       ∧ Audio_initialize_ok example_subsystems = true
       ∧ Interpreter_initialize_ok example_subsystems = true
       ∧ ∃ display0 display' w2,
           display = Some display0
           ∧ Engine_terminate example_subsystems display0 w1 = Some (display', w2)
           ∧ ∀ r, display_resource r ∨ engine_resource r →
                  balance r (trace w2) = balance r (trace World_empty)).
Proof.
  apply (Engine_lifecycle_is_balanced example_platform example_subsystems 4
           example_greyscale (GL_Color 0 0 0 0) (example_configuration 8 6 0) "zest"
           "." World_empty).
  - split; [simpl; lia|constructor].
  - simpl; lia.
  - simpl; lia.
  - reflexivity.
Defined.
